(** * fiftyone/utils/torch.py: output processors and the min-size resize

    A shallow embedding of the preprocessing transform [MinResize], of the
    option checks of [TorchModel.__init__] and of the five output
    processors of [fiftyone/utils/torch.py], with the properties the
    specification states about them.

    Conventions of the embedding.
    - Python [int] is [Z]; the sizes of an image or tensor are [N].
    - The numbers of the output processors (numpy [float32] scores and
      boxes) are modelled as exact rationals [Q]: every arithmetic step
      is the exact one, and equality of computed numbers is [Qeq]
      ([==]).  The quotient by zero, which numpy turns into [inf] or
      [nan], has no counterpart in [Q]; the theorems that compare
      quotients assume a positive frame.
    - The Python [float]s of [MinResize] are binary64 numbers: a finite
      one is the rational it denotes, every operation rounds the exact
      result to the nearest binary64 number, ties to the even mantissa,
      and a result out of range raises [OverflowError].  The same
      transform can be run in exact arithmetic, which is what the
      specification reasons with when it states idempotence.
    - [np.exp] is a parameter [exp : Q -> Q] (a [Section] variable) of
      which only positivity and monotonicity are used.
    - An exception is a value [Raise e] of the type [result]; the code that
      runs after a raised exception is skipped by the monadic bind. *)

From Stdlib Require Import ZArith QArith Qround Qminmax Qabs Qpower Lqa Lia.
From Stdlib Require Import Ascii String.
From stdpp Require Import gmap strings list.

Local Open Scope Z_scope.

(** ** Exceptions *)

Inductive exn : Type :=
  | ValueError (msg : string)
  | IndexError
  | ZeroDivisionError
  | OverflowError.

Inductive result (A : Type) : Type :=
  | Ok (a : A)
  | Raise (e : exn).
Arguments Ok {A} a.
Arguments Raise {A} e.

Global Instance result_ret : MRet result := fun A a => Ok a.

Global Instance result_bind : MBind result := fun A B k m =>
  match m with
  | Ok a => k a
  | Raise e => Raise e
  end.

Definition is_ok {A} (m : result A) : bool :=
  match m with Ok _ => true | Raise _ => false end.

(** A list comprehension [[f(x) for x in l]] whose body may raise is
    [mapM f l]: the elements are evaluated left to right and the first
    exception wins. *)

(** ** Python built-ins used by the module *)

(** [round(x)] of Python 3 (and of numpy): to the nearest integer, a tie
    going to the even neighbour. *)
Definition py_round (x : Q) : Z :=
  let f := Qfloor x in
  match (x - inject_Z f ?= 1 # 2)%Q with
  | Lt => f
  | Gt => f + 1
  | Eq => if Z.even f then f else f + 1
  end.

(** [max(a, b)]: the first argument unless the second is strictly larger. *)
Definition py_max (a b : Q) : Q :=
  if Qlt_le_dec a b then b else a.

(** [l[i]] on a list: a negative index counts from the end, an index out
    of [-len(l) .. len(l)-1] raises [IndexError]. *)
Definition py_getitem {A} (l : list A) (i : Z) : result A :=
  let n := Z.of_nat (length l) in
  let j := if i <? 0 then i + n else i in
  if (j <? 0) || (n <=? j) then Raise IndexError
  else match l !! Z.to_nat j with
       | Some a => Ok a
       | None => Raise IndexError
       end.

(** [l[start:stop]]: negative bounds count from the end, and both bounds
    are clipped to [0 .. len(l)]. *)
Definition py_slice_bound (n i : Z) : Z :=
  if i <? 0 then Z.max 0 (i + n) else Z.min i n.

Definition py_slice {A} (l : list A) (start stop : Z) : list A :=
  let n := Z.of_nat (length l) in
  let s := py_slice_bound n start in
  let e := py_slice_bound n stop in
  take (Z.to_nat (e - s)) (drop (Z.to_nat s) l).

(** [zip(a, b, c)] and [zip(a, b, c, d)]: as long as the shortest. *)
Definition zip3 {A B C} (a : list A) (b : list B) (c : list C)
  : list (A * B * C) := zip (zip a b) c.

Definition zip4 {A B C D} (a : list A) (b : list B) (c : list C) (d : list D)
  : list (A * B * C * D) := zip (zip3 a b c) d.

(** ** Python floats *)

(** [2^e] for an integer [e] of either sign. *)
Definition pow2 (e : Z) : Q := (2 ^ e)%Q.

(** The binary exponent of a non-zero [x]: the [k] with
    [2^k <= |x| < 2^(k+1)]. *)
Definition ilog2 (x : Q) : Z :=
  let d := Z.log2 (Z.abs (Qnum x)) - Z.log2 (Zpos (Qden x)) in
  if Qle_bool (pow2 d) (Qabs x) then d else d - 1.

(** The binary64 number nearest to [x], a tie going to the even
    mantissa: the mantissa has 53 bits, and the exponent of its last
    bit is not below [-1074] (the subnormal numbers). *)
Definition float64_round (x : Q) : Q :=
  if Qeq_bool x 0 then 0%Q
  else
    let e := Z.max (ilog2 x - 52) (-1074) in
    (inject_Z (py_round (x / pow2 e)) * pow2 e)%Q.

(** The unit roundoff of binary64, [2^-53]. *)
Definition float64_eps : Q := 1 # 9007199254740992.

(** The result of a float operation whose exact value is [x].  A
    rounded value of [2^1024] or more is out of range: [int / int] and
    [float(int)] raise [OverflowError] there, and the product of two
    floats is [inf], which [round] refuses with [OverflowError]. *)
Definition float64 (x : Q) : result Q :=
  let y := float64_round x in
  if Qle_bool (pow2 1024) (Qabs y) then Raise OverflowError else Ok y.

(** The arithmetic a computation on floats is run in: [Float64] is that
    of Python, [Exact] rounds nothing. *)
Inductive arithmetic : Type := Exact | Float64.

Definition to_float (ar : arithmetic) (x : Q) : result Q :=
  match ar with
  | Exact => Ok x
  | Float64 => float64 x
  end.

(** The value of a float operation that returns. *)
Definition rounded (ar : arithmetic) (x : Q) : Q :=
  match ar with
  | Exact => x
  | Float64 => float64_round x
  end.

(** ** MinResize *)

Module MinResize.
Section WithResize.

(** The pixel data of an image; the transform never looks at it. *)
Variable pixels : Type.

(** A PIL image, whose [size] is [(width, height)], or a torch tensor,
    whose [size()] lists its dimensions with height and width last. *)
Inductive pil_image_or_tensor : Type :=
  | PILImage (size : N * N) (data : pixels)
  | Tensor (size : list N) (data : pixels).

(** [torchvision.transforms.functional.resize(img, (h, w))], which is
    not part of this module; it returns an image or raises. *)
Variable F_resize :
  pil_image_or_tensor -> Z * Z -> result pil_image_or_tensor.

(** The argument of [__init__]: a single [int], or a sequence that
    [__call__] unpacks into [(min_height, min_width)]. *)
Inductive min_output_size_arg : Type :=
  | MinDim (min_dim : Z)
  | MinSeq (sizes : list Z).

Record t : Type := Build { min_output_size : list Z }.

Definition init (arg : min_output_size_arg) : t :=
  match arg with
  | MinDim d => Build [d; d]
  | MinSeq sizes => Build sizes
  end.

(** [h, w = list(x.size())[-2:]] for a tensor, [w, h = x.size] for a
    PIL image.  A tensor with fewer than two dimensions cannot be
    unpacked. *)
Definition image_hw (x : pil_image_or_tensor) : result (N * N) :=
  match x with
  | Tensor size _ =>
      match py_slice size (-2) (Z.of_nat (length size)) with
      | [h; w] => Ok (h, w)
      | _ => Raise (ValueError "not enough values to unpack")
      end
  | PILImage (w, h) _ => Ok (h, w)
  end.

Variable ar : arithmetic.

(** [a / b] on Python ints: the float nearest to the quotient,
    [ZeroDivisionError] when the divisor is zero. *)
Definition truediv (a b : Z) : result Q :=
  if b =? 0 then Raise ZeroDivisionError
  else to_float ar (inject_Z a / inject_Z b).

(** [int(round(alpha * n))] for a float [alpha] and an int [n]: [n] is
    converted to a float, the product is rounded to a float, and
    [round] takes the result to the nearest integer. *)
Definition round_scaled (alpha : Q) (n : Z) : result Z :=
  fn ← to_float ar (inject_Z n);
  p ← to_float ar (alpha * fn);
  Ok (py_round p).

(** The value of [size] in [__call__], for the height [h] and the
    width [w] of the image. *)
Definition target (minh minw h w : Z) : result (Z * Z) :=
  qh ← truediv minh h;
  qw ← truediv minw w;
  let alpha := py_max qh qw in
  oh ← round_scaled alpha h;
  ow ← round_scaled alpha w;
  Ok (oh, ow).

Definition call (self : t) (x : pil_image_or_tensor)
  : result pil_image_or_tensor :=
  '(h, w) ← image_hw x;
  match min_output_size self with
  | [minh; minw] =>
      if (minh <=? Z.of_N h) && (minw <=? Z.of_N w) then Ok x
      else
        size ← target minh minw (Z.of_N h) (Z.of_N w);
        F_resize x size
  | _ => Raise (ValueError "cannot unpack min_output_size")
  end.

End WithResize.
Arguments PILImage {pixels} size data.
Arguments Tensor {pixels} size data.
Arguments image_hw {pixels} x.
Arguments call {pixels} F_resize ar self x.

(** The values of [alpha] and [size] in [__call__] in exact arithmetic,
    for an image of height [h] and width [w], written with the maximum
    of [Q]. *)
Definition alpha_of (minh minw : Z) (h w : N) : Q :=
  Qmax (inject_Z minh / inject_Z (Z.of_N h))
       (inject_Z minw / inject_Z (Z.of_N w)).

Definition target_size (minh minw : Z) (h w : N) : Z * Z :=
  (py_round (alpha_of minh minw h w * inject_Z (Z.of_N h)),
   py_round (alpha_of minh minw h w * inject_Z (Z.of_N w))).

(** The sizes for which the properties of the float computation are
    stated: minimums and image sizes below [2^bits] in magnitude.
    Exact arithmetic needs no bound. *)
Definition in_range (ar : arithmetic) (bits : Z) (minh minw : Z) (h w : N)
  : Prop :=
  match ar with
  | Exact => True
  | Float64 =>
      Z.abs minh < 2 ^ bits /\ Z.abs minw < 2 ^ bits
      /\ Z.of_N h < 2 ^ bits /\ Z.of_N w < 2 ^ bits
  end.

Definition sizes_in_range {pixels} (ar : arithmetic) (bits : Z) (self : t)
    (x : pil_image_or_tensor pixels) : Prop :=
  forall minh minw h w,
    min_output_size self = [minh; minw] -> image_hw x = Ok (h, w) ->
    in_range ar bits minh minw h w.

(** A resize that only records the new size: a PIL image gets the size
    [(w, h)], a tensor keeps its leading dimensions; like [F.resize],
    it refuses a tensor without a channel dimension.  It stands for
    [F.resize] where the transform is run on an example. *)
Definition resize_size {pixels} (x : pil_image_or_tensor pixels)
    (size : Z * Z) : result (pil_image_or_tensor pixels) :=
  let '(oh, ow) := size in
  match x with
  | PILImage _ d => Ok (PILImage (Z.to_N ow, Z.to_N oh) d)
  | Tensor s d =>
      if (length s <? 3)%nat
      then Raise (ValueError "tensor is not an image")
      else Ok (Tensor (take (length s - 2) s ++ [Z.to_N oh; Z.to_N ow]) d)
  end.

End MinResize.

(** ** Labels *)

(** Modelled from the spec: the label classes of [fiftyone.core.labels]
    ([Classification], [Detection], [Detections], [Keypoint], [Keypoints],
    [Polyline], [Polylines], [Segmentation]) are not part of this module.
    Each is a record of the keyword arguments the processors construct it
    with, as in the data model of the specification. *)
Record Classification : Type := mkClassification {
  cls_label : string;
  cls_confidence : Q }.

Record Detection : Type := mkDetection {
  det_label : string;
  det_bounding_box : list Q;
  det_mask : option (list (list bool));
  det_confidence : Q }.

Record Keypoint : Type := mkKeypoint {
  kp_label : string;
  kp_points : list (Q * Q);
  kp_confidence : Q }.

Record Polyline : Type := mkPolyline {
  pl_points : list (list (Q * Q));
  pl_confidence : Q;
  pl_closed : bool;
  pl_filled : bool }.

Record Segmentation : Type := mkSegmentation {
  seg_mask : list (list Z) }.

(** The containers; a value of the dict that the keypoint processor
    builds is one of the three. *)
Inductive Label : Type :=
  | Detections (detections : list Detection)
  | Keypoints (keypoints : list Keypoint)
  | Polylines (polylines : list Polyline).

(** ** What the processors share *)

(** A [for] loop that updates its local variables [s] for each element
    and is left by the first exception. *)
Fixpoint py_for {A S} (body : S -> A -> result S) (l : list A) (s : S)
  : result S :=
  match l with
  | [] => Ok s
  | x :: l' => s' ← body s x; py_for body l' s'
  end.

(** The body of the three [_parse_detections] loops seen from one
    candidate: nothing for a candidate that is skipped ([continue]), one
    label otherwise; and the list that the loop has built at its end. *)
Section FilterLoop.
Context {A B : Type}.
Variable skip : A -> bool.
Variable g : A -> result B.

Definition emit (x : A) : result (list B) :=
  if skip x then Ok [] else g x ≫= fun y => Ok [y].

Definition collect (l : list A) : result (list B) :=
  mapM emit l ≫= fun rs => Ok (concat rs).

End FilterLoop.

(** The entry of a two-dimensional array at row [i] and column [j]. *)
Definition at2 {A} (a : list (list A)) (i j : nat) : option A :=
  a !! i ≫= fun row => row !! j.

(** An index that Python does not accept for a list of [n] entries. *)
Definition out_of_range (n i : Z) : Prop := i < - n \/ n <= i.

(** Two lists of numbers that are equal entry by entry. *)
Definition box_eq (a b : list Q) : Prop := Forall2 Qeq a b.

(** [self.confidence_thresh is not None and score < self.confidence_thresh] *)
Definition below_thresh (confidence_thresh : option Q) (score : Q) : bool :=
  match confidence_thresh with
  | None => false
  | Some t => if Qlt_le_dec score t then true else false
  end.

(** The list bound to [bounding_box] in the three [_parse_detections]
    (the same four expressions in each). *)
Definition normalize_box (x1 y1 x2 y2 : Q) (width height : Z) : list Q :=
  [ x1 / inject_Z width;
    y1 / inject_Z height;
    (x2 - x1) / inject_Z width;
    (y2 - y1) / inject_Z height ]%Q.

(** [np.argmax] of a row: the first index at which the maximum is
    reached.  [argmax_from] scans the rest of a row with the best value
    so far, its index, and the index of the next element. *)
Fixpoint argmax_from (best : Q) (besti i : Z) (l : list Q) : Z :=
  match l with
  | [] => besti
  | x :: l' =>
      if Qlt_le_dec best x then argmax_from x i (i + 1) l'
      else argmax_from best besti (i + 1) l'
  end.

Definition argmax_list (row : list Q) : Z :=
  match row with
  | [] => 0
  | x :: l => argmax_from x 0 1 l
  end.

Definition np_argmax (row : list Q) : result Z :=
  match row with
  | [] => Raise (ValueError "attempt to get argmax of an empty sequence")
  | _ => Ok (argmax_list row)
  end.

(** [np.max] of a row. *)
Definition max_list (row : list Q) : Q :=
  match row with
  | [] => 0%Q
  | x :: l => fold_left py_max l x
  end.

Definition np_max (row : list Q) : result Q :=
  match row with
  | [] => Raise (ValueError "zero-size array to reduction operation maximum")
  | _ => Ok (max_list row)
  end.

(** [np.sum] of a row. *)
Definition np_sum (row : list Q) : Q := fold_right Qplus 0%Q row.

(** [np.squeeze(a, axis=0)] *)
Definition np_squeeze0 {A} (a : list A) : result A :=
  match a with
  | [x] => Ok x
  | _ => Raise (ValueError "cannot select an axis to squeeze out")
  end.

(** ** ClassifierOutputProcessor *)

Module ClassifierOutputProcessor.
Section WithExp.

(** [np.exp] on one number. *)
Variable exp : Q -> Q.

Record t : Type := Build {
  class_labels : list string;
  confidence_thresh : option Q }.

(** A row of [odds] after [odds /= np.sum(odds, axis=1, keepdims=True)]. *)
Definition odds_row (row : list Q) : list Q :=
  let odds := map exp row in
  let total := np_sum odds in
  map (fun o => o / total)%Q odds.

Definition call (self : t) (output : list (list Q)) (frame_size : Z * Z)
  : result (list (option Classification)) :=
  let logits := output in
  predictions ← mapM np_argmax logits;
  let odds := map odds_row logits in
  scores ← mapM np_max odds;
  py_for (fun preds '(prediction, score) =>
      classification ←
        (if below_thresh (confidence_thresh self) score then Ok None
         else
           label ← py_getitem (class_labels self) prediction;
           Ok (Some (mkClassification label score)));
      Ok (preds ++ [classification]))
    (zip predictions scores) [].

(** What the loop body appends for a pair of [zip(predictions, scores)]. *)
Definition classify (self : t) (ps : Z * Q)
  : result (list (option Classification)) :=
  let '(prediction, score) := ps in
  (if below_thresh (confidence_thresh self) score then Ok None
   else py_getitem (class_labels self) prediction
          ≫= fun label => Ok (Some (mkClassification label score)))
  ≫= fun c => Ok [c].


(** What [__call__] returns for one row: the row has a class, and the
    loop body gives the entry for its argmax and its largest
    normalised score. *)
Definition row_entry (self : t) (row : list Q)
    (entry : option Classification) : Prop :=
  row <> []
  /\ classify self (argmax_list row, max_list (odds_row row)) = Ok [entry].


End WithExp.



End ClassifierOutputProcessor.

(** [k] is the first position of the row at which its maximum, [v], is
    reached. *)
Definition first_max (row : list Q) (k : nat) (v : Q) : Prop :=
  row !! k = Some v
  /\ (forall j x, row !! j = Some x -> (x <= v)%Q)
  /\ (forall j x, (j < k)%nat -> row !! j = Some x -> (x < v)%Q).

(** ** DetectorOutputProcessor *)

Module DetectorOutputProcessor.

Record t : Type := Build {
  class_labels : list string;
  confidence_thresh : option Q }.

(** The dict of one image: [boxes], [labels], [scores]. *)
Record output : Type := Output {
  boxes : list (Q * Q * Q * Q);
  labels : list Z;
  scores : list Q }.

Definition parse_detections (self : t) (o : output) (frame_size : Z * Z)
  : result Label :=
  let '(width, height) := frame_size in
  detections ←
    py_for (fun detections '(box, label, score) =>
        if below_thresh (confidence_thresh self) score then Ok detections
        else
          let '(x1, y1, x2, y2) := box in
          let bounding_box := normalize_box x1 y1 x2 y2 width height in
          lbl ← py_getitem (class_labels self) label;
          Ok (detections ++ [mkDetection lbl bounding_box None score]))
      (zip3 (boxes o) (labels o) (scores o)) [];
  Ok (Detections detections).

Definition call (self : t) (out : list output) (frame_size : Z * Z)
  : result (list Label) :=
  mapM (fun o => parse_detections self o frame_size) out.

(** The candidates of an image, the test that skips one, and the
    detection that the loop body appends for one that is kept. *)
Definition candidates (o : output) : list (Q * Q * Q * Q * Z * Q) :=
  zip3 (boxes o) (labels o) (scores o).

Definition skipped (self : t) (c : Q * Q * Q * Q * Z * Q) : bool :=
  below_thresh (confidence_thresh self) c.2.

Definition detection_of (self : t) (width height : Z)
    (c : Q * Q * Q * Q * Z * Q) : result Detection :=
  let '(x1, y1, x2, y2, label, score) := c in
  lbl ← py_getitem (class_labels self) label;
  Ok (mkDetection lbl (normalize_box x1 y1 x2 y2 width height) None score).

End DetectorOutputProcessor.

(** ** InstanceSegmenterOutputProcessor *)

Module InstanceSegmenterOutputProcessor.

Record t : Type := Build {
  class_labels : list string;
  confidence_thresh : option Q;
  mask_thresh : Q }.

(** [__init__(class_labels, confidence_thresh=None, mask_thresh=0.5)];
    [None] for [mask_thresh] stands for the argument left out. *)
Definition init (class_labels : list string) (confidence_thresh : option Q)
    (mask_thresh : option Q) : t :=
  Build class_labels confidence_thresh (default (1 # 2)%Q mask_thresh).

(** The dict of one image; a soft mask has the shape [[1, H, W]]. *)
Record output : Type := Output {
  boxes : list (Q * Q * Q * Q);
  labels : list Z;
  scores : list Q;
  masks : list (list (list (list Q))) }.

(** [a[r1:r2, c1:c2]] on a two-dimensional array. *)
Definition slice2 {A} (a : list (list A)) (r1 r2 c1 c2 : Z)
  : list (list A) :=
  map (fun row => py_slice row c1 c2) (py_slice a r1 r2).

(** [soft_mask > thresh], element by element. *)
Definition above (thresh v : Q) : bool :=
  if Qlt_le_dec thresh v then true else false.

Definition greater_than (soft_mask : list (list Q)) (thresh : Q)
  : list (list bool) :=
  map (map (above thresh)) soft_mask.

Definition parse_detections (self : t) (o : output) (frame_size : Z * Z)
  : result Label :=
  let '(width, height) := frame_size in
  detections ←
    py_for (fun detections '(box, label, score, soft_mask) =>
        if below_thresh (confidence_thresh self) score then Ok detections
        else
          let '(x1, y1, x2, y2) := box in
          let bounding_box := normalize_box x1 y1 x2 y2 width height in
          squeezed ← np_squeeze0 soft_mask;
          let soft_mask :=
            slice2 squeezed (py_round y1) (py_round y2)
                   (py_round x1) (py_round x2) in
          let mask := greater_than soft_mask (mask_thresh self) in
          lbl ← py_getitem (class_labels self) label;
          Ok (detections ++ [mkDetection lbl bounding_box (Some mask) score]))
      (zip4 (boxes o) (labels o) (scores o) (masks o)) [];
  Ok (Detections detections).

Definition call (self : t) (out : list output) (frame_size : Z * Z)
  : result (list Label) :=
  mapM (fun o => parse_detections self o frame_size) out.

(** The candidates of an image, the test that skips one, and the
    detection that the loop body appends for one that is kept. *)
Definition candidate : Type := Q * Q * Q * Q * Z * Q * list (list (list Q)).

Definition candidates (o : output) : list candidate :=
  zip4 (boxes o) (labels o) (scores o) (masks o).

Definition skipped (self : t) (c : candidate) : bool :=
  below_thresh (confidence_thresh self) c.1.2.

Definition detection_of (self : t) (width height : Z) (c : candidate)
  : result Detection :=
  let '(x1, y1, x2, y2, label, score, soft_mask) := c in
  squeezed ← np_squeeze0 soft_mask;
  let mask :=
    greater_than
      (slice2 squeezed (py_round y1) (py_round y2) (py_round x1) (py_round x2))
      (mask_thresh self) in
  lbl ← py_getitem (class_labels self) label;
  Ok (mkDetection lbl (normalize_box x1 y1 x2 y2 width height)
        (Some mask) score).

End InstanceSegmenterOutputProcessor.

(** ** KeypointDetectorOutputProcessor *)

Module KeypointDetectorOutputProcessor.

Record t : Type := Build {
  class_labels : list string;
  edges : option (list (list Z));
  confidence_thresh : option Q }.

(** The dict of one image; [keypoints] has the shape [[N, K, ...]]. *)
Record output : Type := Output {
  boxes : list (Q * Q * Q * Q);
  labels : list Z;
  scores : list Q;
  keypoints : list (list (list Q)) }.

(** The local variables [_detections], [_keypoints], [_polylines]. *)
Record locals : Type := Locals {
  _detections : list Detection;
  _keypoints : list Keypoint;
  _polylines : list Polyline }.

Definition loop_body (self : t) (width height : Z) (s : locals)
    (cand : Q * Q * Q * Q * Z * Q * list (list Q)) : result locals :=
  let '(box, label, score, kpts) := cand in
  if below_thresh (confidence_thresh self) score then Ok s
  else
    let '(x1, y1, x2, y2) := box in
    let bounding_box := normalize_box x1 y1 x2 y2 width height in
    points ← mapM (fun p =>
                p0 ← py_getitem p 0;
                p1 ← py_getitem p 1;
                Ok (p0 / inject_Z width, p1 / inject_Z height)%Q) kpts;
    lbl ← py_getitem (class_labels self) label;
    let dets := _detections s ++ [mkDetection lbl bounding_box None score] in
    lbl' ← py_getitem (class_labels self) label;
    let kps := _keypoints s ++ [mkKeypoint lbl' points score] in
    match edges self with
    | Some es =>
        pts ← mapM (fun e => mapM (fun v => py_getitem points v) e) es;
        Ok (Locals dets kps
              (_polylines s ++ [mkPolyline pts score false false]))
    | None => Ok (Locals dets kps (_polylines s))
    end.

Definition parse_detections (self : t) (o : output) (frame_size : Z * Z)
  : result (gmap string Label) :=
  let '(width, height) := frame_size in
  s ← py_for (loop_body self width height)
        (zip4 (boxes o) (labels o) (scores o) (keypoints o))
        (Locals [] [] []);
  let label : gmap string Label :=
    <["keypoints" := Keypoints (_keypoints s)]>
      (<["detections" := Detections (_detections s)]> ∅) in
  Ok (match edges self with
      | Some _ => <["polylines" := Polylines (_polylines s)]> label
      | None => label
      end).

Definition call (self : t) (out : list output) (frame_size : Z * Z)
  : result (list (gmap string Label)) :=
  mapM (fun o => parse_detections self o frame_size) out.

(** The candidates of an image, the test that skips one, and the labels
    that the loop body appends for one that is kept: a detection, a
    keypoint and, when edges are configured, a polyline. *)
Definition candidate : Type := Q * Q * Q * Q * Z * Q * list (list Q).

Definition candidates (o : output) : list candidate :=
  zip4 (boxes o) (labels o) (scores o) (keypoints o).

Definition skipped (self : t) (c : candidate) : bool :=
  below_thresh (confidence_thresh self) c.1.2.

Definition points_of (width height : Z) (kpts : list (list Q))
  : result (list (Q * Q)) :=
  mapM (fun p =>
          p0 ← py_getitem p 0;
          p1 ← py_getitem p 1;
          Ok (p0 / inject_Z width, p1 / inject_Z height)%Q) kpts.

Definition labels_of (self : t) (width height : Z) (c : candidate)
  : result (Detection * Keypoint * list Polyline) :=
  let '(x1, y1, x2, y2, label, score, kpts) := c in
  points ← points_of width height kpts;
  lbl ← py_getitem (class_labels self) label;
  pls ← match edges self with
        | Some es =>
            pts ← mapM (fun e => mapM (fun v => py_getitem points v) e) es;
            Ok [mkPolyline pts score false false]
        | None => Ok []
        end;
  Ok (mkDetection lbl (normalize_box x1 y1 x2 y2 width height) None score,
      mkKeypoint lbl points score, pls).

(** The local variables after the labels [ys] have been appended. *)
Definition extend (s : locals) (ys : list (Detection * Keypoint * list Polyline))
  : locals :=
  Locals (_detections s ++ ((fun y => y.1.1) <$> ys))
         (_keypoints s ++ ((fun y => y.1.2) <$> ys))
         (_polylines s ++ concat ((fun y => y.2) <$> ys)).

(** The dict that [_parse_detections] builds from the labels of the
    kept candidates. *)
Definition label_dict (self : t)
    (ys : list (Detection * Keypoint * list Polyline)) : gmap string Label :=
  let label : gmap string Label :=
    <["keypoints" := Keypoints ((fun y => y.1.2) <$> ys)]>
      (<["detections" := Detections ((fun y => y.1.1) <$> ys)]> ∅) in
  match edges self with
  | Some _ =>
      <["polylines" := Polylines (concat ((fun y => y.2) <$> ys))]> label
  | None => label
  end.

(** The keys of the dict of one image. *)
Definition keys (self : t) : gset string :=
  match edges self with
  | Some _ => {[ "detections"; "keypoints"; "polylines" ]}
  | None => {[ "detections"; "keypoints" ]}
  end.

(** A kept candidate on which the loop body raises nothing: its class
    index is an index of [class_labels], each of its keypoints has an
    [x] and a [y], and the vertices of the edges are indices of its
    keypoints. *)
Definition well_formed (self : t) (c : candidate) : Prop :=
  let n := Z.of_nat (length (class_labels self)) in
  let k := Z.of_nat (length c.2) in
  - n <= c.1.1.2 < n
  /\ Forall (fun p => (2 <= length p)%nat) c.2
  /\ forall es, edges self = Some es ->
       Forall (Forall (fun v => - k <= v < k)) es.

(** The result that the specification describes for a batch (its
    section 4.3), written from its words: one mapping for the whole
    batch, in which each key holds the labels of all the images. *)
Definition aggregate (ms : list (gmap string Label)) : gmap string Label :=
  let dets := concat (omap (fun m => match m !! "detections" with
                                     | Some (Detections l) => Some l
                                     | _ => None end) ms) in
  let kps := concat (omap (fun m => match m !! "keypoints" with
                                    | Some (Keypoints l) => Some l
                                    | _ => None end) ms) in
  let pls := omap (fun m => match m !! "polylines" with
                            | Some (Polylines l) => Some l
                            | _ => None end) ms in
  let label : gmap string Label :=
    <["keypoints" := Keypoints kps]>
      (<["detections" := Detections dets]> ∅) in
  match pls with
  | [] => label
  | _ => <["polylines" := Polylines (concat pls)]> label
  end.

End KeypointDetectorOutputProcessor.

(** ** SegmenterOutputProcessor *)

Module SegmenterOutputProcessor.

Record t : Type := Build { class_labels : list string }.

(** The dict of the batch: [out], of shape [[N, M, H, W]]. *)
Record output : Type := Output {
  out : list (list (list (list Q))) }.

(** [a[:, h, w]] for an array [a] of shape [[M, H, W]]. *)
Definition pixel_scores (a : list (list (list Q))) (h w : nat) : list Q :=
  omap (fun plane => at2 plane h w) a.

(** [a.argmax(axis=0)] for an array [a] of shape [[M, H, W]]: one class
    index for each pixel, none when there is no class at all. *)
Definition argmax_classes (a : list (list (list Q)))
  : result (list (list Z)) :=
  match a with
  | [] => Raise (ValueError "attempt to get argmax of an empty sequence")
  | plane :: _ =>
      Ok (imap (fun h row =>
                  imap (fun w _ => argmax_list (pixel_scores a h w)) row)
               plane)
  end.

Definition call (self : t) (output : output) (frame_size : Z * Z)
  : result (list Segmentation) :=
  let probs := out output in
  masks ← mapM argmax_classes probs;
  Ok (map (fun mask => mkSegmentation mask) masks).

End SegmenterOutputProcessor.

(** ** TorchModel: the option checks of the constructor *)

(** [s.split(sep)] for a one-character separator. *)
Fixpoint str_split (sep : ascii) (s : string) : list string :=
  match s with
  | EmptyString => [EmptyString]
  | String c s' =>
      if Ascii.eqb c sep then EmptyString :: str_split sep s'
      else match str_split sep s' with
           | [] => [String c EmptyString]
           | w :: ws => String c w :: ws
           end
  end.

Module TorchModel.

Record TorchModelConfig : Type := Config {
  entrypoint_fcn : string;
  output_processor_cls : string;
  labels_string : option string;
  labels_path : option string;
  use_half_precision : option bool;
  image_min_size : option (list Z);
  image_min_dim : option Z;
  image_size : option (list Z);
  image_dim : option Z;
  image_mean : option (list Q);
  image_std : option (list Q) }.

(** The truth value Python gives an optional string, array or number:
    [None], the empty string, the empty array and zero are false. *)
Definition truthy_str (o : option string) : bool :=
  match o with Some s => negb (String.eqb s "") | None => false end.

Definition truthy_list {A} (o : option (list A)) : bool :=
  match o with Some (_ :: _) => true | _ => false end.

Definition truthy_int (o : option Z) : bool :=
  match o with Some z => negb (z =? 0) | None => false end.

(** The entries of the [Compose]d list of transforms. *)
Inductive transform : Type :=
  | ToPILImage
  | MinResize_ (m : MinResize.t)
  | Resize (size : list Z + Z)
  | ToTensor
  | Normalize (mean std : list Q).

Section WithFramework.

(** What the constructor asks of the libraries around it: reading
    the labels map at a path ([fou.fill_patterns],
    [etal.load_labels_map], [etal.get_class_labels]), loading the
    network ([_load_model]) and instantiating the class named by
    [output_processor_cls] ([_build_output_processor]). *)
Variable model processor : Type.
Variable load_class_labels : string -> result (list string).
Variable load_model : TorchModelConfig -> result model.
Variable build_output_processor :
  TorchModelConfig -> list string -> result processor.

Record t : Type := Build {
  config : TorchModelConfig;
  _class_labels : list string;
  _num_classes : Z;
  _transforms : list transform;
  _model : model;
  _output_processor : processor }.

Definition get_class_labels (config : TorchModelConfig)
  : result (list string) :=
  if truthy_str (labels_string config)
  then Ok (str_split "," (default EmptyString (labels_string config)))
  else if negb (truthy_str (labels_path config))
  then Raise (ValueError
         "Either `labels_string` or `labels_path` must be specified")
  else load_class_labels (default EmptyString (labels_path config)).

Definition build_transforms (config : TorchModelConfig)
  : result (list transform) :=
  let transforms := [ToPILImage] in
  let transforms :=
    if truthy_list (image_min_size config)
    then transforms ++
         [MinResize_ (MinResize.init
            (MinResize.MinSeq (default [] (image_min_size config))))]
    else if truthy_int (image_min_dim config)
    then transforms ++
         [MinResize_ (MinResize.init
            (MinResize.MinDim (default 0 (image_min_dim config))))]
    else if truthy_list (image_size config)
    then transforms ++ [Resize (inl (default [] (image_size config)))]
    else if truthy_int (image_dim config)
    then transforms ++ [Resize (inr (default 0 (image_dim config)))]
    else transforms in
  let transforms := transforms ++ [ToTensor] in
  if truthy_list (image_mean config) || truthy_list (image_std config)
  then
    if negb (truthy_list (image_mean config))
       || negb (truthy_list (image_std config))
    then Raise (ValueError
           "Both `image_mean` and `image_std` must be provided")
    else Ok (transforms ++
             [Normalize (default [] (image_mean config))
                        (default [] (image_std config))])
  else Ok transforms.

Definition init (config : TorchModelConfig) : result t :=
  class_labels ← get_class_labels config;
  let num_classes := Z.of_nat (length class_labels) in
  transforms ← build_transforms config;
  model ← load_model config;
  output_processor ← build_output_processor config class_labels;
  Ok (Build config class_labels num_classes transforms model
            output_processor).

End WithFramework.
End TorchModel.

(** ** The datasets *)

(** What the datasets ask of PIL and torch: opening the image at a path
    ([Image.open]), converting it to RGB ([img.convert("RGB")]), cutting
    the patch of a detection out of it ([to_detected_object],
    [extract_from], [Image.fromarray]) and stacking tensors
    ([torch.stack]).  An image and what a transform makes of it share
    the type [image]. *)
Section Datasets.
Variable image : Type.
Variable Image_open : string -> result image.
Variable convert_RGB : image -> image.
Variable extract_patch : image -> Detection -> bool -> result image.
Variable torch_stack : list image -> result image.

(** [list(sample_ids) if sample_ids else None] *)
Definition ids_or_none (sample_ids : option (list string))
  : option (list string) :=
  match sample_ids with
  | Some (id :: ids) => Some (id :: ids)
  | _ => None
  end.

(** The end of the three [__getitem__]: the item alone, or with its
    sample id. *)
Definition with_sample_id {A} (sample_ids : option (list string)) (idx : Z)
    (item : A) : result (A * option string) :=
  match sample_ids with
  | Some ids => id ← py_getitem ids idx; Ok (item, Some id)
  | None => Ok (item, None)
  end.

Record TorchImageDataset : Type := mkTorchImageDataset {
  tid_image_paths : list string;
  tid_sample_ids : option (list string);
  tid_transform : option (image -> result image);
  tid_force_rgb : bool }.

Definition TorchImageDataset_init (image_paths : list string)
    (sample_ids : option (list string))
    (transform : option (image -> result image)) (force_rgb : bool)
  : TorchImageDataset :=
  mkTorchImageDataset image_paths (ids_or_none sample_ids) transform force_rgb.

Definition TorchImageDataset_len (self : TorchImageDataset) : Z :=
  Z.of_nat (length (tid_image_paths self)).

Definition TorchImageDataset_getitem (self : TorchImageDataset) (idx : Z)
  : result (image * option string) :=
  path ← py_getitem (tid_image_paths self) idx;
  img ← Image_open path;
  let img := if tid_force_rgb self then convert_RGB img else img in
  img ← match tid_transform self with
        | Some transform => transform img
        | None => Ok img
        end;
  with_sample_id (tid_sample_ids self) idx img.

(** [_make_data_loader] without the [DataLoader] around the dataset:
    the file paths of the samples, no sample ids. *)
Definition make_data_loader_dataset (filepaths : list string)
    (transforms : image -> result image) (force_rgb : bool)
  : TorchImageDataset :=
  TorchImageDataset_init filepaths None (Some transforms) force_rgb.

Record TorchImageClassificationDataset (T : Type) : Type :=
  mkTorchImageClassificationDataset {
    ticd_image_paths : list string;
    ticd_targets : list T;
    ticd_sample_ids : option (list string);
    ticd_transform : option (image -> result image);
    ticd_force_rgb : bool }.
Arguments mkTorchImageClassificationDataset {T}.
Arguments ticd_image_paths {T}.
Arguments ticd_targets {T}.
Arguments ticd_sample_ids {T}.
Arguments ticd_transform {T}.
Arguments ticd_force_rgb {T}.

Definition TorchImageClassificationDataset_init {T} (image_paths : list string)
    (targets : list T) (sample_ids : option (list string))
    (transform : option (image -> result image)) (force_rgb : bool)
  : TorchImageClassificationDataset T :=
  mkTorchImageClassificationDataset image_paths targets
    (ids_or_none sample_ids) transform force_rgb.

Definition TorchImageClassificationDataset_getitem {T}
    (self : TorchImageClassificationDataset T) (idx : Z)
  : result (image * T * option string) :=
  path ← py_getitem (ticd_image_paths self) idx;
  img ← Image_open path;
  target ← py_getitem (ticd_targets self) idx;
  let img := if ticd_force_rgb self then convert_RGB img else img in
  img ← match ticd_transform self with
        | Some transform => transform img
        | None => Ok img
        end;
  with_sample_id (ticd_sample_ids self) idx (img, target).

Record TorchImagePatchesDataset : Type := mkTorchImagePatchesDataset {
  tipd_image_paths : list string;
  tipd_detections : list (list Detection);
  tipd_transform : image -> result image;
  tipd_sample_ids : option (list string);
  tipd_force_rgb : bool;
  tipd_force_square : bool }.


(** The body of the loop over the detections of an image. *)
Definition image_patch (self : TorchImagePatchesDataset) (img : image)
    (detection : Detection) : result image :=
  img_patch ← extract_patch img detection (tipd_force_square self);
  tipd_transform self img_patch.

Definition TorchImagePatchesDataset_getitem (self : TorchImagePatchesDataset)
    (idx : Z) : result (image * option string) :=
  image_path ← py_getitem (tipd_image_paths self) idx;
  img ← Image_open image_path;
  let img := if tipd_force_rgb self then convert_RGB img else img in
  detections ← py_getitem (tipd_detections self) idx;
  match detections with
  | [] => Raise (ValueError
            (String.append "No patches to extract from image '"
               (String.append image_path "'")))
  | _ =>
      img_patches ←
        py_for (fun img_patches detection =>
                  img_patch ← image_patch self img detection;
                  Ok (img_patches ++ [img_patch])) detections [];
      img_patches ← torch_stack img_patches;
      with_sample_id (tipd_sample_ids self) idx img_patches
  end.

End Datasets.

(** ** Strings of labels *)

(** [sep.join(l)] for a one-character separator, the number of times a
    character occurs in a string, and the strings without it. *)
Fixpoint str_join (sep : ascii) (l : list string) : string :=
  match l with
  | [] => EmptyString
  | w :: l' =>
      match l' with
      | [] => w
      | _ => String.append w (String sep (str_join sep l'))
      end
  end.

Fixpoint str_count (c : ascii) (s : string) : nat :=
  match s with
  | EmptyString => 0
  | String c' s' => (if Ascii.eqb c' c then 1 else 0) + str_count c s'
  end.

(** * Properties *)

(** ** The monad, the loops and the built-ins *)

Lemma bind_Ok {A B} (m : result A) (k : A -> result B) (b : B) :
  m ≫= k = Ok b -> exists a, m = Ok a /\ k a = Ok b.
Proof. destruct m as [a|e]; simpl; [eauto | discriminate]. Qed.

Lemma bind_Raise {A B} (m : result A) (k : A -> result B) (e : exn) :
  m = Raise e -> m ≫= k = Raise e.
Proof. intros ->. reflexivity. Qed.

Lemma mapM_cons {A B} (f : A -> result B) (x : A) (l : list A) :
  mapM f (x :: l) = f x ≫= fun y => mapM f l ≫= fun ys => Ok (y :: ys).
Proof. reflexivity. Qed.

Lemma mapM_Ok_Forall2 {A B} (f : A -> result B) (l : list A) (k : list B) :
  mapM f l = Ok k <-> Forall2 (fun x y => f x = Ok y) l k.
Proof.
  revert k. induction l as [|x l IH]; intros k.
  - split.
    + intros [= <-]. constructor.
    + intros H. inversion H. reflexivity.
  - rewrite mapM_cons. split.
    + intros H. apply bind_Ok in H as (y & Hy & H).
      apply bind_Ok in H as (ys & Hys & [= <-]).
      constructor; [assumption | by apply IH].
    + intros H. inversion H as [|? y ? ys Hy Hys]; subst.
      apply IH in Hys. rewrite Hy. simpl. rewrite Hys. reflexivity.
Qed.

Lemma mapM_Ok_length {A B} (f : A -> result B) (l : list A) (k : list B) :
  mapM f l = Ok k -> length k = length l.
Proof.
  intros H. apply mapM_Ok_Forall2 in H. symmetry.
  eapply Forall2_length, H.
Qed.

Lemma mapM_Ok_total {A B} (f : A -> result B) (l : list A) :
  Forall (fun x => is_ok (f x) = true) l -> exists k, mapM f l = Ok k.
Proof.
  induction 1 as [|x l Hx _ [k Hk]]; [by eexists |].
  rewrite mapM_cons.
  destruct (f x) as [y|] eqn:Hy; [|discriminate].
  exists (y :: k). simpl. rewrite Hk. reflexivity.
Qed.

Lemma mapM_Raise_elem {A B} (f : A -> result B) (l : list A) (x : A) (e : exn) :
  x ∈ l -> f x = Raise e -> exists e', mapM f l = Raise e'.
Proof.
  intros Hin Hx. induction l as [|y l IH]; [by apply elem_of_nil in Hin|].
  rewrite mapM_cons. destruct (f y) as [b|e1] eqn:Hy; simpl; [|by eexists].
  apply elem_of_cons in Hin as [->|Hin]; [congruence|].
  destruct (IH Hin) as [e' ->]. by eexists.
Qed.

(** A loop that appends at most one element for each item is a filter
    followed by a map, when no body raises. *)
Lemma py_for_app {A S} (body : S -> A -> result S) (l1 l2 : list A) (s : S) :
  py_for body (l1 ++ l2) s = py_for body l1 s ≫= py_for body l2.
Proof.
  revert s. induction l1 as [|x l1 IH]; intros s; simpl; [reflexivity|].
  destruct (body s x) as [s'|e]; simpl; [apply IH | reflexivity].
Qed.

Lemma inject_Z_pos (d : Z) : 0 < d -> (0 < inject_Z d)%Q.
Proof. intros H. rewrite (Zlt_Qlt 0 d) in H. exact H. Qed.

Lemma py_round_floor (x : Q) : Qfloor x <= py_round x.
Proof.
  unfold py_round.
  destruct (x - inject_Z (Qfloor x) ?= 1 # 2)%Q; [|lia|lia].
  destruct (Z.even (Qfloor x)); lia.
Qed.

Lemma py_round_lower (m : Z) (x : Q) : (inject_Z m <= x)%Q -> m <= py_round x.
Proof.
  intros H. apply Qfloor_resp_le in H. rewrite Qfloor_Z in H.
  pose proof (py_round_floor x). lia.
Qed.

Lemma py_round_Z (m : Z) : py_round (inject_Z m) = m.
Proof.
  unfold py_round. rewrite Qfloor_Z.
  assert (H : (inject_Z m - inject_Z m ?= 1 # 2)%Q = Lt).
  { apply (proj1 (Qlt_alt _ _)). generalize (inject_Z m). intros q. lra. }
  rewrite H. reflexivity.
Qed.

Lemma py_max_Qmax (a b : Q) : py_max a b = Qmax a b.
Proof.
  unfold py_max, Qmax, GenericMinMax.gmax.
  destruct (Qlt_le_dec a b) as [Hlt|Hle].
  - apply (proj1 (Qlt_alt _ _)) in Hlt. rewrite Hlt. reflexivity.
  - destruct (a ?= b)%Q eqn:Hc; try reflexivity.
    apply (proj2 (Qlt_alt _ _)) in Hc. apply Qle_not_lt in Hle. contradiction.
Qed.

Lemma py_max_ge_l (a b : Q) : (a <= py_max a b)%Q.
Proof. unfold py_max. destruct (Qlt_le_dec a b); lra. Qed.

Lemma py_max_ge_r (a b : Q) : (b <= py_max a b)%Q.
Proof. unfold py_max. destruct (Qlt_le_dec a b); lra. Qed.

Lemma py_getitem_Ok {A} (l : list A) (i : Z) (a : A) :
  py_getitem l i = Ok a ->
  - Z.of_nat (length l) <= i < Z.of_nat (length l).
Proof.
  unfold py_getitem.
  destruct (i <? 0) eqn:Hi;
    destruct (_ || _) eqn:Hb; try discriminate;
    apply orb_false_iff in Hb as [H1 H2]; lia.
Qed.

Lemma py_getitem_nonneg {A} (l : list A) (i : Z) :
  0 <= i < Z.of_nat (length l) ->
  exists a, l !! Z.to_nat i = Some a /\ py_getitem l i = Ok a.
Proof.
  intros Hi. unfold py_getitem.
  replace (i <? 0) with false by lia.
  replace (_ || _) with false by lia.
  destruct (lookup_lt_is_Some_2 l (Z.to_nat i)) as [a Ha]; [lia|].
  exists a. rewrite Ha. auto.
Qed.

Lemma py_getitem_negative {A} (l : list A) (i : Z) :
  - Z.of_nat (length l) <= i < 0 ->
  exists a, l !! Z.to_nat (Z.of_nat (length l) + i) = Some a
            /\ py_getitem l i = Ok a.
Proof.
  intros Hi. unfold py_getitem.
  replace (i <? 0) with true by lia.
  replace (_ || _) with false by lia.
  rewrite (Z.add_comm i).
  destruct (lookup_lt_is_Some_2 l (Z.to_nat (Z.of_nat (length l) + i)))
    as [a Ha]; [lia|].
  exists a. rewrite Ha. auto.
Qed.

Lemma py_getitem_out_of_range {A} (l : list A) (i : Z) :
  i < - Z.of_nat (length l) \/ Z.of_nat (length l) <= i ->
  py_getitem l i = Raise IndexError.
Proof.
  intros Hi. unfold py_getitem.
  destruct (i <? 0) eqn:Hneg; replace (_ || _) with true by lia; reflexivity.
Qed.

Lemma py_getitem_in_range {A} (l : list A) (i : Z) :
  - Z.of_nat (length l) <= i < Z.of_nat (length l) ->
  is_ok (py_getitem l i) = true.
Proof.
  intros Hi. destruct (Z.lt_ge_cases i 0).
  - destruct (py_getitem_negative l i) as (a & _ & ->); [lia|reflexivity].
  - destruct (py_getitem_nonneg l i) as (a & _ & ->); [lia|reflexivity].
Qed.

(** ** Python floats *)

Lemma py_round_Qeq (x y : Q) : (x == y)%Q -> py_round x = py_round y.
Proof.
  intros Hxy. unfold py_round.
  rewrite (Qfloor_comp x y Hxy).
  assert (Hc : (x - inject_Z (Qfloor y) ?= 1 # 2)%Q
               = (y - inject_Z (Qfloor y) ?= 1 # 2)%Q).
  { apply Qcompare_comp; [|reflexivity]. rewrite Hxy. reflexivity. }
  rewrite Hc. reflexivity.
Qed.

Lemma py_round_near (x : Q) :
  (inject_Z (py_round x) - x <= 1 # 2 /\ x - inject_Z (py_round x) <= 1 # 2)%Q.
Proof.
  unfold py_round.
  pose proof (Qfloor_le x) as Hlo. pose proof (Qlt_floor x) as Hhi.
  rewrite inject_Z_plus in Hhi. change (inject_Z 1) with 1%Q in Hhi.
  destruct (x - inject_Z (Qfloor x) ?= 1 # 2)%Q eqn:Hc.
  - apply Qeq_alt in Hc.
    destruct (Z.even (Qfloor x));
      rewrite ?inject_Z_plus; change (inject_Z 1) with 1%Q; lra.
  - apply (proj2 (Qlt_alt _ _)) in Hc. lra.
  - apply (proj2 (Qgt_alt _ _)) in Hc.
    rewrite inject_Z_plus. change (inject_Z 1) with 1%Q. lra.
Qed.

(** ** binary64 *)

Lemma pow2_pos (e : Z) : (0 < pow2 e)%Q.
Proof. apply Qpower_0_lt. reflexivity. Qed.

Lemma pow2_add (a b : Z) : (pow2 (a + b) == pow2 a * pow2 b)%Q.
Proof. apply Qpower_plus. discriminate. Qed.

Lemma pow2_sub (a b : Z) : (pow2 (a - b) == pow2 a / pow2 b)%Q.
Proof. apply Qpower_minus. discriminate. Qed.

Lemma pow2_Z (n : Z) : 0 <= n -> (pow2 n == inject_Z (2 ^ n))%Q.
Proof. intros Hn. unfold pow2. rewrite Zpower_Qpower by exact Hn. reflexivity. Qed.

Lemma Qabs_make (x : Q) :
  (Qabs x == inject_Z (Z.abs (Qnum x)) / inject_Z (Zpos (Qden x)))%Q.
Proof. destruct x as [n d]. simpl. apply Qmake_Qdiv. Qed.

Lemma Qnum_abs_pos (x : Q) : ~ (x == 0)%Q -> 0 < Z.abs (Qnum x).
Proof.
  intros Hx. destruct x as [n d]. simpl.
  assert (n <> 0); [|lia].
  intros ->. apply Hx. reflexivity.
Qed.

Lemma Qdiv_le_mono (a b c d : Q) :
  (0 < a)%Q -> (a <= b)%Q -> (0 < d)%Q -> (d <= c)%Q -> (a / c <= b / d)%Q.
Proof.
  intros Ha Hab Hd Hdc.
  apply Qle_shift_div_l; [lra|].
  assert (Hac : (0 < a / c)%Q) by (apply Qlt_shift_div_l; lra).
  apply Qle_trans with (a / c * c)%Q.
  - apply Qmult_le_l; lra.
  - assert (He : (a / c * c == a)%Q) by (field; lra).
    rewrite He. exact Hab.
Qed.

Lemma Qdiv_lt_mono (a b c d : Q) :
  (0 < a)%Q -> (a < b)%Q -> (0 < d)%Q -> (d <= c)%Q -> (a / c < b / d)%Q.
Proof.
  intros Ha Hab Hd Hdc.
  apply Qlt_shift_div_l; [lra|].
  assert (Hac : (0 < a / c)%Q) by (apply Qlt_shift_div_l; lra).
  apply Qle_lt_trans with (a / c * c)%Q.
  - apply Qmult_le_l; lra.
  - assert (He : (a / c * c == a)%Q) by (field; lra).
    rewrite He. exact Hab.
Qed.

(** [ilog2 x] is the integer [k] with [2^k <= |x| < 2^(k+1)]. *)
Lemma ilog2_lower (x : Q) : ~ (x == 0)%Q -> (pow2 (ilog2 x) <= Qabs x)%Q.
Proof.
  intros Hx. unfold ilog2.
  set (a := Z.abs (Qnum x)). set (q := Zpos (Qden x)).
  destruct (Qle_bool _ _) eqn:Hb; [by apply Qle_bool_iff in Hb|].
  assert (Ha : 0 < a) by (by apply Qnum_abs_pos).
  assert (Hq : 0 < q) by (unfold q; lia).
  destruct (Z.log2_spec a Ha) as [Ha1 _].
  destruct (Z.log2_spec q Hq) as [_ Hq2].
  pose proof (Z.log2_nonneg a). pose proof (Z.log2_nonneg q).
  replace (Z.log2 a - Z.log2 q - 1) with (Z.log2 a - Z.succ (Z.log2 q)) by lia.
  rewrite pow2_sub, !pow2_Z, Qabs_make by lia. fold a q.
  rewrite Zle_Qle in Ha1. rewrite Zlt_Qlt in Hq2.
  apply inject_Z_pos in Ha, Hq.
  set (A := inject_Z (2 ^ Z.log2 a)) in *.
  set (B := inject_Z (2 ^ Z.succ (Z.log2 q))) in *.
  assert (HA : (0 < A)%Q).
  { apply inject_Z_pos. apply Z.pow_pos_nonneg; lia. }
  apply Qdiv_le_mono; lra.
Qed.

Lemma ilog2_upper (x : Q) : ~ (x == 0)%Q -> (Qabs x < pow2 (ilog2 x + 1))%Q.
Proof.
  intros Hx. unfold ilog2.
  set (a := Z.abs (Qnum x)). set (q := Zpos (Qden x)).
  destruct (Qle_bool _ _) eqn:Hb.
  2:{ replace (Z.log2 a - Z.log2 q - 1 + 1) with (Z.log2 a - Z.log2 q) by lia.
      apply Qnot_le_lt. intros Hle. apply Qle_bool_iff in Hle. congruence. }
  assert (Ha : 0 < a) by (by apply Qnum_abs_pos).
  assert (Hq : 0 < q) by (unfold q; lia).
  destruct (Z.log2_spec a Ha) as [_ Ha2].
  destruct (Z.log2_spec q Hq) as [Hq1 _].
  pose proof (Z.log2_nonneg a). pose proof (Z.log2_nonneg q).
  replace (Z.log2 a - Z.log2 q + 1) with (Z.succ (Z.log2 a) - Z.log2 q) by lia.
  rewrite pow2_sub, !pow2_Z, Qabs_make by lia. fold a q.
  rewrite Zlt_Qlt in Ha2. rewrite Zle_Qle in Hq1.
  assert (HB : (0 < inject_Z (2 ^ Z.log2 q))%Q).
  { apply inject_Z_pos. apply Z.pow_pos_nonneg; lia. }
  apply inject_Z_pos in Ha, Hq.
  set (A := inject_Z (2 ^ Z.succ (Z.log2 a))) in *.
  set (B := inject_Z (2 ^ Z.log2 q)) in *.
  apply Qdiv_lt_mono; lra.
Qed.

Lemma pow2_mono (a b : Z) : a <= b -> (pow2 a <= pow2 b)%Q.
Proof. intros H. apply Qpower_le_compat_l; [exact H|]. discriminate. Qed.

Lemma float64_round_0 (x : Q) : (x == 0)%Q -> float64_round x = 0%Q.
Proof.
  intros Hx. unfold float64_round.
  apply Qeq_bool_iff in Hx. rewrite Hx. reflexivity.
Qed.

Lemma float64_round_unfold (x : Q) :
  ~ (x == 0)%Q ->
  float64_round x
  = (inject_Z (py_round (x / pow2 (Z.max (ilog2 x - 52) (-1074))))
     * pow2 (Z.max (ilog2 x - 52) (-1074)))%Q.
Proof.
  intros Hx. unfold float64_round.
  destruct (Qeq_bool x 0) eqn:Hb; [|reflexivity].
  apply Qeq_bool_iff in Hb. contradiction.
Qed.

(** Rounding a number of the normal range moves it by [2^-53] of its
    magnitude at most. *)
Lemma float64_round_error (x : Q) :
  (pow2 (-1022) <= Qabs x)%Q ->
  (Qabs (float64_round x - x) <= float64_eps * Qabs x)%Q.
Proof.
  intros Hn.
  assert (Hx : ~ (x == 0)%Q).
  { intros Hx. rewrite Hx in Hn. pose proof (pow2_pos (-1022)).
    change (Qabs 0) with 0%Q in Hn. lra. }
  rewrite (float64_round_unfold x Hx).
  set (e := Z.max (ilog2 x - 52) (-1074)).
  pose proof (pow2_pos e) as HP.
  assert (He : (pow2 e <= Qabs x * pow2 (-52))%Q).
  { unfold e. destruct (Z.max_spec (ilog2 x - 52) (-1074)) as [[_ ->]|[_ ->]].
    - change (-1074) with (-1022 + -52). rewrite pow2_add.
      apply Qmult_le_compat_r; [exact Hn|]. apply Qlt_le_weak, pow2_pos.
    - change (ilog2 x - 52) with (ilog2 x + -52). rewrite pow2_add.
      apply Qmult_le_compat_r; [by apply ilog2_lower|].
      apply Qlt_le_weak, pow2_pos. }
  change (pow2 (-52)) with (1 # 4503599627370496)%Q in He.
  destruct (py_round_near (x / pow2 e)) as [H1 H2].
  set (m := inject_Z (py_round (x / pow2 e))) in *.
  assert (Hy : (x / pow2 e * pow2 e == x)%Q) by (field; lra).
  apply (Qmult_le_compat_r _ _ (pow2 e)) in H1, H2; try lra.
  apply Qabs_Qle_condition. unfold float64_eps.
  set (P := pow2 e) in *. set (y := (x / P)%Q) in *. set (a := Qabs x) in *.
  assert (E1 : ((m - y) * P == m * P - y * P)%Q) by ring.
  assert (E2 : ((y - m) * P == y * P - m * P)%Q) by ring.
  rewrite E1 in H1. rewrite E2 in H2. rewrite Hy in H1, H2.
  split; lra.
Qed.

(** An integer of at most 53 bits is a binary64 number. *)
Lemma float64_round_Z (n : Z) :
  Z.abs n < 2 ^ 53 -> (float64_round (inject_Z n) == inject_Z n)%Q.
Proof.
  intros Hn. destruct (Z.eq_dec n 0) as [->|Hn0]; [reflexivity|].
  assert (Hx : ~ (inject_Z n == 0)%Q).
  { intros H. unfold Qeq in H. simpl in H. lia. }
  rewrite (float64_round_unfold _ Hx).
  set (e := Z.max (ilog2 (inject_Z n) - 52) (-1074)).
  assert (He : e <= 0).
  { assert (Hk : ilog2 (inject_Z n) < 53); [|unfold e; lia].
    apply Z.lt_nge. intros Hk.
    pose proof (ilog2_lower _ Hx) as Hl.
    pose proof (pow2_mono _ _ Hk) as Hm.
    rewrite pow2_Z in Hm by lia.
    assert (Ha : (Qabs (inject_Z n) == inject_Z (Z.abs n))%Q) by reflexivity.
    rewrite Ha in Hl. rewrite Zlt_Qlt in Hn. lra. }
  pose proof (pow2_pos e) as HP.
  assert (Hy : (inject_Z n / pow2 e == inject_Z (n * 2 ^ (- e)))%Q).
  { rewrite inject_Z_mult, <- pow2_Z by lia.
    unfold pow2. rewrite Qpower_opp. fold (pow2 e). field. lra. }
  rewrite (py_round_Qeq _ _ Hy), py_round_Z.
  rewrite inject_Z_mult, <- pow2_Z by lia.
  unfold pow2. rewrite Qpower_opp. fold (pow2 e). field. lra.
Qed.

Lemma pow2_small : (pow2 (-1022) <= 1 # 1125899906842624)%Q.
Proof. apply (pow2_mono (-1022) (-50)). lia. Qed.

Lemma pow2_large : (inject_Z (2 ^ 102) <= pow2 1024)%Q.
Proof. rewrite <- pow2_Z by lia. apply pow2_mono. lia. Qed.

(** A float operation whose exact value is zero or in the normal range,
    and far from the largest float, returns a float within [2^-53] of
    the magnitude of the exact value. *)
Lemma float64_Ok (x : Q) :
  (x == 0)%Q \/ (pow2 (-1022) <= Qabs x)%Q ->
  (Qabs x <= inject_Z (2 ^ 101))%Q ->
  exists y, float64 x = Ok y
            /\ (Qabs (y - x) <= float64_eps * Qabs x)%Q.
Proof.
  intros Hx Hbig. exists (float64_round x).
  assert (He : (Qabs (float64_round x - x) <= float64_eps * Qabs x)%Q).
  { destruct Hx as [Hx|Hx]; [|by apply float64_round_error].
    rewrite (float64_round_0 x Hx), Hx. vm_compute. discriminate. }
  split; [|exact He].
  unfold float64.
  destruct (Qle_bool _ _) eqn:Hb; [|reflexivity].
  apply Qle_bool_iff in Hb. exfalso.
  pose proof pow2_large as Hl.
  pose proof (Qabs_triangle (float64_round x - x) x) as Ht.
  assert (E : (float64_round x - x + x == float64_round x)%Q) by ring.
  rewrite E in Ht.
  pose proof (Qabs_nonneg x) as Hn.
  unfold float64_eps in He.
  change (inject_Z (2 ^ 101)) with (2535301200456458802993406410752 # 1)%Q in Hbig.
  change (inject_Z (2 ^ 102)) with (5070602400912917605986812821504 # 1)%Q in Hl.
  set (a := Qabs x) in *. set (b := Qabs (float64_round x)) in *.
  set (c := Qabs (float64_round x - x)) in *.
  lra.
Qed.

Lemma py_round_above (m : Z) (x : Q) :
  (inject_Z m - (1 # 2) < x)%Q -> m <= py_round x.
Proof.
  intros H. destruct (py_round_near x) as [_ H2].
  assert (Hlt : (inject_Z (m - 1) < inject_Z (py_round x))%Q).
  { unfold Z.sub. rewrite inject_Z_plus, inject_Z_opp.
    change (inject_Z 1) with 1%Q. lra. }
  rewrite <- Zlt_Qlt in Hlt. lia.
Qed.

Lemma py_round_below (m : Z) (x : Q) :
  (x < inject_Z m + (1 # 2))%Q -> py_round x <= m.
Proof.
  intros H. destruct (py_round_near x) as [H1 _].
  assert (Hlt : (inject_Z (py_round x) < inject_Z (m + 1))%Q).
  { rewrite inject_Z_plus. change (inject_Z 1) with 1%Q. lra. }
  rewrite <- Zlt_Qlt in Hlt. lia.
Qed.

(** The rounded value is a binary64 number: a mantissa of at most 53
    bits at an exponent that is not below that of the subnormal
    numbers. *)
Lemma float64_round_mantissa (x : Q) :
  ~ (x == 0)%Q ->
  exists m e : Z,
    float64_round x = (inject_Z m * pow2 e)%Q
    /\ Z.abs m <= 2 ^ 53 /\ -1074 <= e.
Proof.
  intros Hx. rewrite (float64_round_unfold x Hx).
  set (e := Z.max (ilog2 x - 52) (-1074)).
  exists (py_round (x / pow2 e)), e.
  split; [reflexivity|]. split; [|unfold e; lia].
  pose proof (pow2_pos e) as HP.
  pose proof (ilog2_upper x Hx) as Hu.
  assert (Hk : (pow2 (ilog2 x + 1) <= pow2 (e + 53))%Q)
    by (apply pow2_mono; unfold e; lia).
  rewrite (pow2_add e 53) in Hk.
  change (pow2 53) with (9007199254740992 # 1)%Q in Hk.
  assert (Hb : (Qabs x < pow2 e * (9007199254740992 # 1))%Q) by lra.
  apply Qabs_Qlt_condition in Hb. destruct Hb as [Hb1 Hb2].
  assert (Hy1 : (x / pow2 e < 9007199254740992 # 1)%Q).
  { apply Qlt_shift_div_r; [exact HP|]. lra. }
  assert (Hy2 : (- (9007199254740992 # 1) < x / pow2 e)%Q).
  { apply Qlt_shift_div_l; [exact HP|]. lra. }
  assert (H1 : py_round (x / pow2 e) <= 2 ^ 53).
  { apply py_round_below. change (inject_Z (2 ^ 53)) with (9007199254740992 # 1)%Q.
    lra. }
  assert (H2 : - 2 ^ 53 <= py_round (x / pow2 e)).
  { apply py_round_above. rewrite inject_Z_opp.
    change (inject_Z (2 ^ 53)) with (9007199254740992 # 1)%Q. lra. }
  lia.
Qed.

Section Float64Size.
Import MinResize.


Lemma inject_Z_two50 (n : Z) : n < 2 ^ 50 -> (inject_Z n < 1125899906842624 # 1)%Q.
Proof. intros H. rewrite Zlt_Qlt in H. exact H. Qed.

Lemma inject_Z_abs (n : Z) : (Qabs (inject_Z n) == inject_Z (Z.abs n))%Q.
Proof. reflexivity. Qed.

(** The quotient of two ints, scaled back by the divisor, is within
    [2^-53] of the dividend. *)
Lemma truediv_float64 (m d : Z) :
  0 < d < 2 ^ 50 -> Z.abs m < 2 ^ 50 ->
  exists q, truediv Float64 m d = Ok q
    /\ (inject_Z m - float64_eps * inject_Z (Z.abs m) <= q * inject_Z d)%Q
    /\ (q * inject_Z d <= inject_Z m + float64_eps * inject_Z (Z.abs m))%Q.
Proof.
  intros [Hd Hd50] Hm. unfold truediv.
  destruct (Z.eqb_spec d 0) as [?|_]; [lia|]. cbn [to_float].
  set (r := (inject_Z m / inject_Z d)%Q).
  assert (Hd1 : (1 <= inject_Z d)%Q).
  { change 1%Q with (inject_Z 1). rewrite <- Zle_Qle. lia. }
  pose proof (inject_Z_two50 d Hd50) as Hd2.
  pose proof (inject_Z_two50 _ Hm) as Hm2.
  assert (Hrd : (r * inject_Z d == inject_Z m)%Q) by (unfold r; field; lra).
  assert (Habs : (Qabs r * inject_Z d == inject_Z (Z.abs m))%Q).
  { rewrite <- inject_Z_abs, <- Hrd, Qabs_Qmult.
    rewrite (Qabs_pos (inject_Z d)) by lra. reflexivity. }
  destruct (float64_Ok r) as (q & Hq & He).
  - destruct (Z.eq_dec m 0) as [->|Hm0].
    + left. unfold r. change (inject_Z 0) with 0%Q. field. lra.
    + right. pose proof pow2_small as Hs.
      assert (H1 : (1 <= inject_Z (Z.abs m))%Q).
      { change 1%Q with (inject_Z 1). rewrite <- Zle_Qle. lia. }
      pose proof (Qabs_nonneg r) as Hn.
      apply Qle_trans with (1 # 1125899906842624)%Q; [exact Hs|].
      apply Qnot_lt_le. intros Hlt.
      assert (Hp : (Qabs r * inject_Z d <= (1 # 1125899906842624) * inject_Z d)%Q)
        by (apply Qmult_le_compat_r; lra).
      rewrite Habs in Hp. lra.
  - pose proof (Qabs_nonneg r) as Hn.
    assert (Hp : (Qabs r * 1 <= Qabs r * inject_Z d)%Q).
    { rewrite !(Qmult_comm (Qabs r)). apply Qmult_le_compat_r; lra. }
    rewrite Habs in Hp.
    change (inject_Z (2 ^ 101)) with (2535301200456458802993406410752 # 1)%Q.
    lra.
  - exists q. split; [exact Hq|].
    apply Qabs_Qle_condition in He. destruct He as [He1 He2].
    apply (Qmult_le_compat_r _ _ (inject_Z d)) in He1, He2; try lra.
    assert (E1 : ((q - r) * inject_Z d == q * inject_Z d - r * inject_Z d)%Q)
      by ring.
    assert (E2 : (float64_eps * Qabs r * inject_Z d
                  == float64_eps * (Qabs r * inject_Z d))%Q) by ring.
    assert (E3 : (- (float64_eps * Qabs r) * inject_Z d
                  == - (float64_eps * (Qabs r * inject_Z d)))%Q) by ring.
    rewrite E1 in He1, He2. rewrite E2 in He2. rewrite E3 in He1.
    rewrite Hrd in He1, He2. rewrite Habs in He1, He2.
    split; lra.
Qed.

(** [int(round(alpha * n))] for a factor [alpha] of at least one: the
    rounded product is within [2^-53] of the exact one. *)
Lemma round_scaled_float64 (alpha : Q) (n : Z) :
  0 < n < 2 ^ 50 ->
  (1 <= alpha)%Q -> (alpha <= inject_Z (2 ^ 51))%Q ->
  exists p, round_scaled Float64 alpha n = Ok (py_round p)
    /\ (alpha * inject_Z n - float64_eps * (alpha * inject_Z n) <= p)%Q
    /\ (p <= alpha * inject_Z n + float64_eps * (alpha * inject_Z n))%Q.
Proof.
  intros [Hn Hn50] Ha1 Ha2. unfold round_scaled. cbn [to_float].
  assert (Hn1 : (1 <= inject_Z n)%Q).
  { change 1%Q with (inject_Z 1). rewrite <- Zle_Qle. lia. }
  pose proof (inject_Z_two50 n Hn50) as Hn2.
  change (inject_Z (2 ^ 51)) with (2251799813685248 # 1)%Q in Ha2.
  assert (Hfn : (float64_round (inject_Z n) == inject_Z n)%Q)
    by (apply float64_round_Z; lia).
  assert (Hf : float64 (inject_Z n) = Ok (float64_round (inject_Z n))).
  { unfold float64. destruct (Qle_bool _ _) eqn:Hb; [|reflexivity].
    apply Qle_bool_iff in Hb. rewrite Hfn in Hb.
    rewrite (Qabs_pos (inject_Z n)) in Hb by lra.
    pose proof pow2_large as Hl.
    change (inject_Z (2 ^ 102)) with (5070602400912917605986812821504 # 1)%Q in Hl.
    lra. }
  rewrite Hf. cbn [mbind result_bind].
  set (fn := float64_round (inject_Z n)) in *.
  assert (Ht : (alpha * inject_Z n <= (2251799813685248 # 1) * inject_Z n)%Q)
    by (apply Qmult_le_compat_r; lra).
  assert (Ht1 : (1 * inject_Z n <= alpha * inject_Z n)%Q)
    by (apply Qmult_le_compat_r; lra).
  assert (Hx : (alpha * fn == alpha * inject_Z n)%Q) by (rewrite Hfn; reflexivity).
  destruct (float64_Ok (alpha * fn)) as (p & Hp & He).
  - right. rewrite Hx, Qabs_pos by lra. pose proof pow2_small as Hs. lra.
  - rewrite Hx, Qabs_pos by lra.
    change (inject_Z (2 ^ 101)) with (2535301200456458802993406410752 # 1)%Q.
    lra.
  - exists p. rewrite Hp. split; [reflexivity|].
    rewrite Hx in He. rewrite (Qabs_pos (alpha * inject_Z n)) in He by lra.
    apply Qabs_Qle_condition in He. split; lra.
Qed.

End Float64Size.

Section Float64Target.
Import MinResize.

Lemma inject_Z_ge1 (n : Z) : 0 < n -> (1 <= inject_Z n)%Q.
Proof. intros H. change 1%Q with (inject_Z 1). rewrite <- Zle_Qle. lia. Qed.

Lemma py_max_cases (a b : Q) : py_max a b = a \/ py_max a b = b.
Proof. unfold py_max. destruct (Qlt_le_dec a b); auto. Qed.

(** The float computation of [size]: the factor [alpha] is at least
    one, it takes each side to its minimum up to the rounding of the
    quotient, one side exactly so, and each product is rounded once
    more. *)
Lemma target_float64 (minh minw h w : Z) :
  0 < h < 2 ^ 50 -> 0 < w < 2 ^ 50 ->
  Z.abs minh < 2 ^ 50 -> Z.abs minw < 2 ^ 50 ->
  h < minh \/ w < minw ->
  exists alpha ph pw,
    target Float64 minh minw h w = Ok (py_round ph, py_round pw)
    /\ (1 <= alpha)%Q
    /\ (inject_Z minh - float64_eps * inject_Z (Z.abs minh)
        <= alpha * inject_Z h)%Q
    /\ (inject_Z minw - float64_eps * inject_Z (Z.abs minw)
        <= alpha * inject_Z w)%Q
    /\ ((0 < minh
         /\ (alpha * inject_Z h <= inject_Z minh + float64_eps * inject_Z minh)%Q)
        \/ (0 < minw
            /\ (alpha * inject_Z w
                <= inject_Z minw + float64_eps * inject_Z minw)%Q))
    /\ (alpha * inject_Z h - float64_eps * (alpha * inject_Z h) <= ph)%Q
    /\ (ph <= alpha * inject_Z h + float64_eps * (alpha * inject_Z h))%Q
    /\ (alpha * inject_Z w - float64_eps * (alpha * inject_Z w) <= pw)%Q
    /\ (pw <= alpha * inject_Z w + float64_eps * (alpha * inject_Z w))%Q.
Proof.
  intros Hh Hw Hmh Hmw Hcase. unfold target.
  destruct (truediv_float64 minh h Hh Hmh) as (qh & -> & Hqh1 & Hqh2).
  destruct (truediv_float64 minw w Hw Hmw) as (qw & -> & Hqw1 & Hqw2).
  cbn [mbind result_bind].
  set (alpha := py_max qh qw).
  pose proof (py_max_ge_l qh qw) as Hal. pose proof (py_max_ge_r qh qw) as Har.
  fold alpha in Hal, Har.
  pose proof (inject_Z_ge1 h (proj1 Hh)) as Hh1.
  pose proof (inject_Z_ge1 w (proj1 Hw)) as Hw1.
  pose proof (inject_Z_two50 h (proj2 Hh)) as Hh2.
  pose proof (inject_Z_two50 w (proj2 Hw)) as Hw2.
  pose proof (inject_Z_two50 _ Hmh) as Hmh2.
  pose proof (inject_Z_two50 _ Hmw) as Hmw2.
  assert (Hah : (qh * inject_Z h <= alpha * inject_Z h)%Q)
    by (apply Qmult_le_compat_r; lra).
  assert (Haw : (qw * inject_Z w <= alpha * inject_Z w)%Q)
    by (apply Qmult_le_compat_r; lra).
  unfold float64_eps in *.
  assert (Ha1 : (1 <= alpha)%Q).
  { destruct Hcase as [Hc|Hc].
    - assert (Hc' : (inject_Z h + 1 <= inject_Z minh)%Q).
      { change 1%Q with (inject_Z 1). rewrite <- inject_Z_plus, <- Zle_Qle. lia. }
      replace (Z.abs minh) with minh in Hqh1 by lia.
      apply Qle_trans with qh; [|exact Hal].
      apply (Qmult_le_r _ _ (inject_Z h)); lra.
    - assert (Hc' : (inject_Z w + 1 <= inject_Z minw)%Q).
      { change 1%Q with (inject_Z 1). rewrite <- inject_Z_plus, <- Zle_Qle. lia. }
      replace (Z.abs minw) with minw in Hqw1 by lia.
      apply Qle_trans with qw; [|exact Har].
      apply (Qmult_le_r _ _ (inject_Z w)); lra. }
  assert (Habs : forall m : Z, (0 <= inject_Z (Z.abs m))%Q).
  { intros m. change 0%Q with (inject_Z 0). rewrite <- Zle_Qle. lia. }
  pose proof (Habs minh) as Hnh. pose proof (Habs minw) as Hnw.
  assert (Hexact :
    (alpha * inject_Z h
       <= inject_Z minh + (1 # 9007199254740992) * inject_Z (Z.abs minh))%Q
    \/ (alpha * inject_Z w
          <= inject_Z minw + (1 # 9007199254740992) * inject_Z (Z.abs minw))%Q).
  { destruct (py_max_cases qh qw) as [E|E]; fold alpha in E; rewrite E;
      [left|right]; assumption. }
  assert (Ha2 : (alpha <= inject_Z (2 ^ 51))%Q).
  { change (inject_Z (2 ^ 51)) with (2251799813685248 # 1)%Q.
    assert (H1 : (alpha * 1 <= alpha * inject_Z h)%Q).
    { rewrite !(Qmult_comm alpha). apply Qmult_le_compat_r; lra. }
    assert (H2 : (alpha * 1 <= alpha * inject_Z w)%Q).
    { rewrite !(Qmult_comm alpha). apply Qmult_le_compat_r; lra. }
    assert (Hle1 : (inject_Z minh <= inject_Z (Z.abs minh))%Q)
      by (rewrite <- Zle_Qle; lia).
    assert (Hle2 : (inject_Z minw <= inject_Z (Z.abs minw))%Q)
      by (rewrite <- Zle_Qle; lia).
    destruct Hexact; lra. }
  destruct (round_scaled_float64 alpha h Hh Ha1 Ha2) as (ph & -> & Hph1 & Hph2).
  destruct (round_scaled_float64 alpha w Hw Ha1 Ha2) as (pw & -> & Hpw1 & Hpw2).
  cbn [mbind result_bind].
  exists alpha, ph, pw.
  split; [reflexivity|]. split; [exact Ha1|].
  split; [lra|]. split; [lra|].
  split; [|repeat split; assumption].
  assert (Hth : (1 * inject_Z h <= alpha * inject_Z h)%Q)
    by (apply Qmult_le_compat_r; lra).
  assert (Htw : (1 * inject_Z w <= alpha * inject_Z w)%Q)
    by (apply Qmult_le_compat_r; lra).
  destruct Hexact as [He|He]; [left|right].
  - assert (Hpos : 0 < minh).
    { apply Z.lt_nge. intros Hneg.
      replace (Z.abs minh) with (- minh) in He by lia.
      rewrite inject_Z_opp in He.
      assert (Hn : (inject_Z minh <= 0)%Q).
      { change 0%Q with (inject_Z 0). rewrite <- Zle_Qle. lia. }
      lra. }
    split; [exact Hpos|]. replace (Z.abs minh) with minh in He by lia. exact He.
  - assert (Hpos : 0 < minw).
    { apply Z.lt_nge. intros Hneg.
      replace (Z.abs minw) with (- minw) in He by lia.
      rewrite inject_Z_opp in He.
      assert (Hn : (inject_Z minw <= 0)%Q).
      { change 0%Q with (inject_Z 0). rewrite <- Zle_Qle. lia. }
      lra. }
    split; [exact Hpos|]. replace (Z.abs minw) with minw in He by lia. exact He.
Qed.

End Float64Target.

Section Float64Bounds.
Import MinResize.

(** The target size of the float computation is at or above the
    minimums and the size of the image, and one of its two numbers is
    the minimum itself. *)
Lemma target_float64_bounds (minh minw h w : Z) :
  0 < h < 2 ^ 50 -> 0 < w < 2 ^ 50 ->
  Z.abs minh < 2 ^ 50 -> Z.abs minw < 2 ^ 50 ->
  h < minh \/ w < minw ->
  exists oh ow,
    target Float64 minh minw h w = Ok (oh, ow)
    /\ minh <= oh /\ minw <= ow /\ h <= oh /\ w <= ow
    /\ (oh = minh \/ ow = minw).
Proof.
  intros Hh Hw Hmh Hmw Hcase.
  destruct (target_float64 minh minw h w Hh Hw Hmh Hmw Hcase)
    as (alpha & ph & pw & Ht & Ha1 & Hlh & Hlw & Hex & Hph1 & Hph2 & Hpw1 & Hpw2).
  exists (py_round ph), (py_round pw). split; [exact Ht|].
  pose proof (inject_Z_ge1 h (proj1 Hh)) as Hh1.
  pose proof (inject_Z_ge1 w (proj1 Hw)) as Hw1.
  pose proof (inject_Z_two50 h (proj2 Hh)) as Hh2.
  pose proof (inject_Z_two50 w (proj2 Hw)) as Hw2.
  assert (Hth : (1 * inject_Z h <= alpha * inject_Z h)%Q)
    by (apply Qmult_le_compat_r; lra).
  assert (Htw : (1 * inject_Z w <= alpha * inject_Z w)%Q)
    by (apply Qmult_le_compat_r; lra).
  unfold float64_eps in *.
  set (th := (alpha * inject_Z h)%Q) in *.
  set (tw := (alpha * inject_Z w)%Q) in *.
  assert (Hoh : h <= py_round ph) by (apply py_round_above; lra).
  assert (How : w <= py_round pw) by (apply py_round_above; lra).
  assert (Hmin_h : minh <= py_round ph).
  { destruct (Z.le_gt_cases minh h) as [?|Hgt]; [lia|].
    replace (Z.abs minh) with minh in * by lia.
    pose proof (inject_Z_two50 _ Hmh) as Hb.
    apply py_round_above. lra. }
  assert (Hmin_w : minw <= py_round pw).
  { destruct (Z.le_gt_cases minw w) as [?|Hgt]; [lia|].
    replace (Z.abs minw) with minw in * by lia.
    pose proof (inject_Z_two50 _ Hmw) as Hb.
    apply py_round_above. lra. }
  repeat (split; [assumption|]).
  destruct Hex as [[Hpos He]|[Hpos He]]; [left|right].
  - replace (Z.abs minh) with minh in * by lia.
    pose proof (inject_Z_two50 _ Hmh) as Hb.
    pose proof (inject_Z_ge1 _ Hpos) as Hb1.
    assert (py_round ph <= minh) by (apply py_round_below; lra).
    assert (minh <= py_round ph) by (apply py_round_above; lra).
    lia.
  - replace (Z.abs minw) with minw in * by lia.
    pose proof (inject_Z_two50 _ Hmw) as Hb.
    pose proof (inject_Z_ge1 _ Hpos) as Hb1.
    assert (py_round pw <= minw) by (apply py_round_below; lra).
    assert (minw <= py_round pw) by (apply py_round_above; lra).
    lia.
Qed.

(** For sizes below [2^25] the float computation keeps the aspect
    ratio up to the rounding to integers. *)
Lemma target_float64_aspect (minh minw h w oh ow : Z) :
  0 < h < 2 ^ 25 -> 0 < w < 2 ^ 25 ->
  Z.abs minh < 2 ^ 25 -> Z.abs minw < 2 ^ 25 ->
  h < minh \/ w < minw ->
  target Float64 minh minw h w = Ok (oh, ow) ->
  2 * Z.abs (oh * w - ow * h) <= h + w.
Proof.
  intros Hh Hw Hmh Hmw Hcase Htarget.
  destruct (target_float64 minh minw h w)
    as (alpha & ph & pw & Ht & Ha1 & Hlh & Hlw & Hex & Hph1 & Hph2 & Hpw1 & Hpw2);
    try lia.
  rewrite Ht in Htarget. injection Htarget as <- <-.
  pose proof (inject_Z_ge1 h (proj1 Hh)) as Hh1.
  pose proof (inject_Z_ge1 w (proj1 Hw)) as Hw1.
  destruct (py_round_near ph) as [Hrh1 Hrh2].
  destruct (py_round_near pw) as [Hrw1 Hrw2].
  set (oh := py_round ph) in *. set (ow := py_round pw) in *.
  assert (Hth : (1 * inject_Z h <= alpha * inject_Z h)%Q)
    by (apply Qmult_le_compat_r; lra).
  assert (Htw : (1 * inject_Z w <= alpha * inject_Z w)%Q)
    by (apply Qmult_le_compat_r; lra).
  unfold float64_eps in *.
  (* the product alpha*h*w is below 2^50, up to the rounding *)
  assert (HX : (alpha * inject_Z h * inject_Z w
                <= (1125899906842624 # 1)
                   + (1 # 9007199254740992) * (1125899906842624 # 1))%Q).
  { destruct Hex as [[Hpos He]|[Hpos He]].
    - assert (Hp : minh * w <= 2 ^ 50) by nia.
      rewrite Zle_Qle, inject_Z_mult in Hp.
      change (inject_Z (2 ^ 50)) with (1125899906842624 # 1)%Q in Hp.
      apply (Qmult_le_compat_r _ _ (inject_Z w)) in He; [|lra].
      set (M := (inject_Z minh * inject_Z w)%Q) in *.
      assert (E : ((inject_Z minh + (1 # 9007199254740992) * inject_Z minh)
                   * inject_Z w
                   == M + (1 # 9007199254740992) * M)%Q) by (unfold M; ring).
      rewrite E in He. lra.
    - assert (Hp : minw * h <= 2 ^ 50) by nia.
      rewrite Zle_Qle, inject_Z_mult in Hp.
      change (inject_Z (2 ^ 50)) with (1125899906842624 # 1)%Q in Hp.
      apply (Qmult_le_compat_r _ _ (inject_Z h)) in He; [|lra].
      set (M := (inject_Z minw * inject_Z h)%Q) in *.
      assert (E : ((inject_Z minw + (1 # 9007199254740992) * inject_Z minw)
                   * inject_Z h
                   == M + (1 # 9007199254740992) * M)%Q) by (unfold M; ring).
      assert (E' : (alpha * inject_Z w * inject_Z h
                    == alpha * inject_Z h * inject_Z w)%Q) by ring.
      rewrite E in He. rewrite E' in He. lra. }
  set (th := (alpha * inject_Z h)%Q) in *.
  set (tw := (alpha * inject_Z w)%Q) in *.
  set (e := (1 # 9007199254740992)%Q) in *.
  assert (Hd1 : (inject_Z oh - th <= (1 # 2) + e * th)%Q) by lra.
  assert (Hd2 : (- ((1 # 2) + e * th) <= inject_Z oh - th)%Q) by lra.
  assert (Hd3 : (inject_Z ow - tw <= (1 # 2) + e * tw)%Q) by lra.
  assert (Hd4 : (- ((1 # 2) + e * tw) <= inject_Z ow - tw)%Q) by lra.
  apply (Qmult_le_compat_r _ _ (inject_Z w)) in Hd1, Hd2; try lra.
  apply (Qmult_le_compat_r _ _ (inject_Z h)) in Hd3, Hd4; try lra.
  assert (Hq : (2 * inject_Z (Z.abs (oh * w - ow * h))
                < inject_Z h + inject_Z w + 1)%Q).
  { assert (He : (inject_Z (oh * w - ow * h)
                  == (inject_Z oh - th) * inject_Z w
                     - (inject_Z ow - tw) * inject_Z h)%Q).
    { unfold Z.sub. rewrite inject_Z_plus, inject_Z_opp, !inject_Z_mult.
      unfold th, tw. ring. }
    assert (Ex : (tw * inject_Z h == th * inject_Z w)%Q) by (unfold th, tw; ring).
    assert (E1 : (((1 # 2) + e * th) * inject_Z w
                  == (1 # 2) * inject_Z w + e * (th * inject_Z w))%Q) by ring.
    assert (E2 : (((1 # 2) + e * tw) * inject_Z h
                  == (1 # 2) * inject_Z h + e * (th * inject_Z w))%Q)
      by (rewrite <- Ex; ring).
    assert (E3 : (- ((1 # 2) + e * th) * inject_Z w
                  == - ((1 # 2) * inject_Z w + e * (th * inject_Z w)))%Q) by ring.
    assert (E4 : (- ((1 # 2) + e * tw) * inject_Z h
                  == - ((1 # 2) * inject_Z h + e * (th * inject_Z w)))%Q)
      by (rewrite <- Ex; ring).
    rewrite E1 in Hd1. rewrite E3 in Hd2. rewrite E2 in Hd3. rewrite E4 in Hd4.
    set (X := (th * inject_Z w)%Q) in *.
    set (D1 := ((inject_Z oh - th) * inject_Z w)%Q) in *.
    set (D2 := ((inject_Z ow - tw) * inject_Z h)%Q) in *.
    unfold e in *.
    destruct (Z.abs_spec (oh * w - ow * h)) as [[_ ->]|[_ ->]].
    - rewrite He. lra.
    - rewrite inject_Z_opp, He. lra. }
  assert (Hz : 2 * Z.abs (oh * w - ow * h) < h + w + 1); [|lia].
  rewrite Zlt_Qlt, !inject_Z_plus, inject_Z_mult. exact Hq.
Qed.

End Float64Bounds.

(** ** MinResize *)

Section MinResizeProperties.
Import MinResize.

Variable pixels : Type.
Variable F_resize :
  pil_image_or_tensor pixels -> Z * Z -> result (pil_image_or_tensor pixels).

(** What is assumed of [F.resize]: when it resizes an image to a
    positive [(h, w)] and returns, the image it returns has the height
    [h] and the width [w]. *)
Hypothesis F_resize_size : forall x oh ow y,
  is_ok (image_hw x) = true -> 0 < oh -> 0 < ow ->
  F_resize x (oh, ow) = Ok y ->
  image_hw y = Ok (Z.to_N oh, Z.to_N ow).

Lemma scaled_ge (a : Q) (m d : Z) :
  0 < d -> (inject_Z m / inject_Z d <= a)%Q ->
  (inject_Z m <= a * inject_Z d)%Q.
Proof.
  intros Hd Ha.
  assert (Hd' : (0 < inject_Z d)%Q) by (by apply inject_Z_pos).
  apply (Qmult_le_compat_r _ _ (inject_Z d)) in Ha; [|lra].
  assert (He : (inject_Z m / inject_Z d * inject_Z d == inject_Z m)%Q).
  { field. lra. }
  rewrite He in Ha. exact Ha.
Qed.

Lemma scaled_gt (a : Q) (m d e : Z) :
  0 < d -> 0 < e -> d < m -> (inject_Z m / inject_Z d <= a)%Q ->
  (inject_Z e <= a * inject_Z e)%Q.
Proof.
  intros Hd He Hm Ha.
  assert (Hd' : (0 < inject_Z d)%Q) by (by apply inject_Z_pos).
  assert (He' : (0 < inject_Z e)%Q) by (by apply inject_Z_pos).
  assert (Hm' : (inject_Z d < inject_Z m)%Q) by (by rewrite <- Zlt_Qlt).
  assert (H1 : (1 <= inject_Z m / inject_Z d)%Q).
  { apply Qle_shift_div_l; lra. }
  assert (H2 : (1 * inject_Z e <= a * inject_Z e)%Q).
  { apply Qmult_le_compat_r; lra. }
  lra.
Qed.

(** In exact arithmetic the target size is at or above the minimums
    and positive. *)
Lemma target_size_bounds (minh minw : Z) (h w : N) :
  (0 < h)%N -> (0 < w)%N ->
  ~ (minh <= Z.of_N h /\ minw <= Z.of_N w) ->
  let '(oh, ow) := target_size minh minw h w in
  minh <= oh /\ minw <= ow /\ 0 < oh /\ 0 < ow.
Proof.
  intros Hh Hw Hsmall. unfold target_size.
  set (a := alpha_of minh minw h w).
  assert (Hah : (inject_Z minh / inject_Z (Z.of_N h) <= a)%Q).
  { unfold a, alpha_of. rewrite <- py_max_Qmax. apply py_max_ge_l. }
  assert (Haw : (inject_Z minw / inject_Z (Z.of_N w) <= a)%Q).
  { unfold a, alpha_of. rewrite <- py_max_Qmax. apply py_max_ge_r. }
  assert (Hh' : 0 < Z.of_N h) by lia.
  assert (Hw' : 0 < Z.of_N w) by lia.
  pose proof (py_round_lower minh _ (scaled_ge a minh _ Hh' Hah)) as Hoh.
  pose proof (py_round_lower minw _ (scaled_ge a minw _ Hw' Haw)) as How.
  assert (Hcase : Z.of_N h < minh \/ Z.of_N w < minw) by lia.
  assert (Hh1 : Z.of_N h <= py_round (a * inject_Z (Z.of_N h))
                /\ Z.of_N w <= py_round (a * inject_Z (Z.of_N w))).
  { destruct Hcase as [Hc|Hc].
    - split; apply py_round_lower;
        eapply (scaled_gt a minh (Z.of_N h)); eauto.
    - split; apply py_round_lower;
        eapply (scaled_gt a minw (Z.of_N w)); eauto. }
  lia.
Qed.

Lemma alpha_of_cases (minh minw : Z) (h w : N) :
  alpha_of minh minw h w = (inject_Z minh / inject_Z (Z.of_N h))%Q
  \/ alpha_of minh minw h w = (inject_Z minw / inject_Z (Z.of_N w))%Q.
Proof.
  unfold alpha_of. rewrite <- py_max_Qmax. unfold py_max.
  destruct (Qlt_le_dec _ _); auto.
Qed.

Lemma round_scaled_exact (m d : Z) :
  0 < d -> py_round (inject_Z m / inject_Z d * inject_Z d) = m.
Proof.
  intros Hd. apply inject_Z_pos in Hd.
  rewrite <- (py_round_Z m) at 2. apply py_round_Qeq. field. lra.
Qed.

(** The target size of a resize in exact arithmetic: one of its two
    numbers is the minimum itself, neither is below the size of the
    image, and the aspect ratio moves by the rounding only. *)
Lemma target_size_minimal (minh minw : Z) (h w : N) :
  (0 < h)%N -> (0 < w)%N ->
  ~ (minh <= Z.of_N h /\ minw <= Z.of_N w) ->
  let '(oh, ow) := target_size minh minw h w in
  (oh = minh \/ ow = minw)
  /\ Z.of_N h <= oh /\ Z.of_N w <= ow
  /\ 2 * Z.abs (oh * Z.of_N w - ow * Z.of_N h) <= Z.of_N h + Z.of_N w.
Proof.
  intros Hh Hw Hsmall. unfold target_size.
  set (a := alpha_of minh minw h w).
  set (zh := Z.of_N h). set (zw := Z.of_N w).
  assert (Hzh : 0 < zh) by (unfold zh; lia).
  assert (Hzw : 0 < zw) by (unfold zw; lia).
  split; [|split; [|split]].
  - destruct (alpha_of_cases minh minw h w) as [Ha|Ha]; fold a zh zw in Ha.
    + left. rewrite Ha. by apply round_scaled_exact.
    + right. rewrite Ha. by apply round_scaled_exact.
  - assert (Hcase : zh < minh \/ zw < minw) by (unfold zh, zw; lia).
    assert (Hah : (inject_Z minh / inject_Z zh <= a)%Q).
    { unfold a, alpha_of. rewrite <- py_max_Qmax. apply py_max_ge_l. }
    assert (Haw : (inject_Z minw / inject_Z zw <= a)%Q).
    { unfold a, alpha_of. rewrite <- py_max_Qmax. apply py_max_ge_r. }
    apply py_round_lower.
    destruct Hcase; [eapply (scaled_gt a minh zh)|eapply (scaled_gt a minw zw)];
      eauto.
  - assert (Hcase : zh < minh \/ zw < minw) by (unfold zh, zw; lia).
    assert (Hah : (inject_Z minh / inject_Z zh <= a)%Q).
    { unfold a, alpha_of. rewrite <- py_max_Qmax. apply py_max_ge_l. }
    assert (Haw : (inject_Z minw / inject_Z zw <= a)%Q).
    { unfold a, alpha_of. rewrite <- py_max_Qmax. apply py_max_ge_r. }
    apply py_round_lower.
    destruct Hcase; [eapply (scaled_gt a minh zh)|eapply (scaled_gt a minw zw)];
      eauto.
  - pose proof (py_round_near (a * inject_Z zh)) as [H1 H2].
    pose proof (py_round_near (a * inject_Z zw)) as [H3 H4].
    set (oh := py_round (a * inject_Z zh)) in *.
    set (ow := py_round (a * inject_Z zw)) in *.
    apply inject_Z_pos in Hzh, Hzw.
    assert (Hq : (2 * inject_Z (Z.abs (oh * zw - ow * zh))
                  <= inject_Z zh + inject_Z zw)%Q).
    { assert (He : (inject_Z (oh * zw - ow * zh)
                    == (inject_Z oh - a * inject_Z zh) * inject_Z zw
                       - (inject_Z ow - a * inject_Z zw) * inject_Z zh)%Q).
      { unfold Z.sub. rewrite inject_Z_plus, inject_Z_opp, !inject_Z_mult.
        ring. }
      assert (Hb1 : (-(1 # 2) * inject_Z zw
                     <= (inject_Z oh - a * inject_Z zh) * inject_Z zw)%Q)
        by (apply Qmult_le_compat_r; lra).
      assert (Hb2 : ((inject_Z oh - a * inject_Z zh) * inject_Z zw
                     <= (1 # 2) * inject_Z zw)%Q)
        by (apply Qmult_le_compat_r; lra).
      assert (Hb3 : (-(1 # 2) * inject_Z zh
                     <= (inject_Z ow - a * inject_Z zw) * inject_Z zh)%Q)
        by (apply Qmult_le_compat_r; lra).
      assert (Hb4 : ((inject_Z ow - a * inject_Z zw) * inject_Z zh
                     <= (1 # 2) * inject_Z zh)%Q)
        by (apply Qmult_le_compat_r; lra).
      destruct (Z.abs_spec (oh * zw - ow * zh)) as [[_ ->]|[_ ->]].
      - rewrite He. lra.
      - rewrite inject_Z_opp, He. lra. }
    change 2%Q with (inject_Z 2) in Hq.
    rewrite <- inject_Z_mult, <- inject_Z_plus, <- Zle_Qle in Hq. exact Hq.
Qed.

(** The exact computation of [size] is [target_size]. *)
Lemma target_Exact (minh minw : Z) (h w : N) :
  (0 < h)%N -> (0 < w)%N ->
  target Exact minh minw (Z.of_N h) (Z.of_N w)
  = Ok (target_size minh minw h w).
Proof.
  intros Hh Hw. unfold target, truediv.
  destruct (Z.eqb_spec (Z.of_N h) 0) as [?|_]; [lia|].
  destruct (Z.eqb_spec (Z.of_N w) 0) as [?|_]; [lia|].
  cbn. unfold target_size, alpha_of. rewrite <- py_max_Qmax. reflexivity.
Qed.

(** A float operation that returns, returns the rounded exact value. *)
Lemma to_float_rounded (ar : arithmetic) (x y : Q) :
  to_float ar x = Ok y -> y = rounded ar x.
Proof.
  destruct ar; cbn; [by intros [= <-]|].
  unfold float64. destruct (Qle_bool _ _); [discriminate|by intros [= <-]].
Qed.

(** The size that [__call__] computes is the one of its formula, each
    operation rounded. *)
Lemma target_rounded (ar : arithmetic) (minh minw h w oh ow : Z) :
  target ar minh minw h w = Ok (oh, ow) ->
  let alpha := py_max (rounded ar (inject_Z minh / inject_Z h))
                      (rounded ar (inject_Z minw / inject_Z w)) in
  oh = py_round (rounded ar (alpha * rounded ar (inject_Z h)))
  /\ ow = py_round (rounded ar (alpha * rounded ar (inject_Z w))).
Proof.
  unfold target, truediv, round_scaled. intros H.
  apply bind_Ok in H as (qh & Hqh & H). apply bind_Ok in H as (qw & Hqw & H).
  destruct (h =? 0); [discriminate|]. destruct (w =? 0); [discriminate|].
  apply bind_Ok in H as (oh' & Hoh & H). apply bind_Ok in H as (ow' & How & H).
  injection H as -> ->.
  apply bind_Ok in Hoh as (fh & Hfh & Hoh).
  apply bind_Ok in Hoh as (ph & Hph & [= <-]).
  apply bind_Ok in How as (fw & Hfw & How).
  apply bind_Ok in How as (pw & Hpw & [= <-]).
  apply to_float_rounded in Hqh, Hqw, Hfh, Hph, Hfw, Hpw. subst. auto.
Qed.

(** A zero height or width is a division by zero. *)
Lemma target_zero (ar : arithmetic) (minh minw : Z) (h w : N) :
  in_range ar 50 minh minw h w ->
  h = 0%N \/ w = 0%N ->
  target ar minh minw (Z.of_N h) (Z.of_N w) = Raise ZeroDivisionError.
Proof.
  intros Hr Hz. unfold target, truediv.
  destruct (Z.eqb_spec (Z.of_N h) 0) as [_|Hh]; [reflexivity|].
  destruct (Z.eqb_spec (Z.of_N w) 0) as [_|Hw]; [|lia].
  destruct ar; [reflexivity|].
  destruct Hr as (Hmh & _ & Hh50 & _).
  destruct (truediv_float64 minh (Z.of_N h)) as (q & Hq & _); [lia|lia|].
  unfold truediv in Hq.
  destruct (Z.eqb_spec (Z.of_N h) 0) as [?|_]; [lia|].
  rewrite Hq. reflexivity.
Qed.

(** The target size, in either arithmetic: it is at or above the
    minimums and the size of the image, and one of its two numbers is
    the minimum itself. *)
Lemma target_spec (ar : arithmetic) (minh minw : Z) (h w : N) :
  (0 < h)%N -> (0 < w)%N ->
  ~ (minh <= Z.of_N h /\ minw <= Z.of_N w) ->
  in_range ar 50 minh minw h w ->
  exists oh ow,
    target ar minh minw (Z.of_N h) (Z.of_N w) = Ok (oh, ow)
    /\ minh <= oh /\ minw <= ow
    /\ Z.of_N h <= oh /\ Z.of_N w <= ow
    /\ (oh = minh \/ ow = minw).
Proof.
  intros Hh Hw Hsmall Hr. destruct ar.
  - rewrite (target_Exact _ _ _ _ Hh Hw).
    pose proof (target_size_bounds minh minw h w Hh Hw Hsmall) as Hb.
    pose proof (target_size_minimal minh minw h w Hh Hw Hsmall) as Hm.
    destruct (target_size minh minw h w) as [oh ow].
    exists oh, ow. intuition.
  - destruct Hr as (Hmh & Hmw & Hh50 & Hw50).
    apply target_float64_bounds; lia.
Qed.

(** For sizes below [2^25], in either arithmetic, the aspect ratio
    moves by the rounding to integers only. *)
Lemma target_aspect (ar : arithmetic) (minh minw : Z) (h w : N) (oh ow : Z) :
  (0 < h)%N -> (0 < w)%N ->
  ~ (minh <= Z.of_N h /\ minw <= Z.of_N w) ->
  in_range ar 25 minh minw h w ->
  target ar minh minw (Z.of_N h) (Z.of_N w) = Ok (oh, ow) ->
  2 * Z.abs (oh * Z.of_N w - ow * Z.of_N h) <= Z.of_N h + Z.of_N w.
Proof.
  intros Hh Hw Hsmall Hr Ht. destruct ar.
  - rewrite (target_Exact _ _ _ _ Hh Hw) in Ht.
    pose proof (target_size_minimal minh minw h w Hh Hw Hsmall) as Hm.
    destruct (target_size minh minw h w) as [oh' ow'].
    injection Ht as <- <-. tauto.
  - destruct Hr as (Hmh & Hmw & Hh25 & Hw25).
    apply (target_float64_aspect minh minw); try lia. exact Ht.
Qed.

Lemma in_range_weaken (ar : arithmetic) (minh minw : Z) (h w : N) :
  in_range ar 25 minh minw h w -> in_range ar 50 minh minw h w.
Proof. destruct ar; [auto|]. unfold in_range. lia. Qed.

Lemma call_unfold (ar : arithmetic) (minh minw : Z)
    (x : pil_image_or_tensor pixels) (h w : N) :
  image_hw x = Ok (h, w) ->
  call F_resize ar (Build [minh; minw]) x =
    if (minh <=? Z.of_N h) && (minw <=? Z.of_N w) then Ok x
    else target ar minh minw (Z.of_N h) (Z.of_N w) ≫= F_resize x.
Proof. intros Hx. unfold call. rewrite Hx. reflexivity. Qed.

(** C5.  An image whose height and width meet the minimums is returned
    as it is (the same value, pixel data included).  Any other image of
    positive height [h] and width [w] is handed to [F.resize] with the
    size [(round(alpha*h), round(alpha*w))],
    [alpha = max(min_height/h, min_width/w)], every operation rounded
    as the arithmetic [ar] rounds it; this size is at or above the
    minimums, and so are the height and width of the image that
    [F.resize] returns.  In float arithmetic this is stated for sizes
    and minimums below [2^50]. *)
Theorem MinResize_call_meets_minimums
    (ar : arithmetic) (minh minw : Z)
    (x : pil_image_or_tensor pixels) (h w : N) :
  image_hw x = Ok (h, w) ->
  let self := init (MinSeq [minh; minw]) in
  (minh <= Z.of_N h /\ minw <= Z.of_N w -> call F_resize ar self x = Ok x)
  /\ (~ (minh <= Z.of_N h /\ minw <= Z.of_N w) ->
      (0 < h)%N -> (0 < w)%N ->
      in_range ar 50 minh minw h w ->
      let alpha :=
        py_max (rounded ar (inject_Z minh / inject_Z (Z.of_N h)))
               (rounded ar (inject_Z minw / inject_Z (Z.of_N w))) in
      let oh :=
        py_round (rounded ar (alpha * rounded ar (inject_Z (Z.of_N h)))) in
      let ow :=
        py_round (rounded ar (alpha * rounded ar (inject_Z (Z.of_N w)))) in
      call F_resize ar self x = F_resize x (oh, ow)
      /\ minh <= oh /\ minw <= ow
      /\ forall y, F_resize x (oh, ow) = Ok y ->
           exists h' w', image_hw y = Ok (h', w')
             /\ Z.of_N h' = oh /\ Z.of_N w' = ow
             /\ minh <= Z.of_N h' /\ minw <= Z.of_N w').
Proof.
  intros Hx self. unfold self, init.
  rewrite (call_unfold _ _ _ _ _ _ Hx). split.
  - intros [H1 H2].
    replace (_ && _) with true by lia. reflexivity.
  - intros Hsmall Hh Hw Hr. cbv zeta.
    destruct (target_spec ar minh minw h w Hh Hw Hsmall Hr)
      as (oh & ow & Ht & Hb1 & Hb2 & Hb3 & Hb4 & _).
    destruct (target_rounded _ _ _ _ _ _ _ Ht) as [Eh Ew].
    rewrite <- Eh, <- Ew.
    replace (_ && _) with false by lia.
    rewrite Ht. split; [reflexivity|].
    split; [exact Hb1|]. split; [exact Hb2|].
    intros y Hy. exists (Z.to_N oh), (Z.to_N ow).
    split; [apply (F_resize_size x); [by rewrite Hx|lia|lia|exact Hy]|].
    rewrite !Z2N.id by lia. auto.
Qed.

Lemma call_idempotent_in_range (ar : arithmetic) (self : t)
    (x : pil_image_or_tensor pixels) :
  sizes_in_range ar 50 self x ->
  call F_resize ar self x ≫= call F_resize ar self = call F_resize ar self x.
Proof.
  intros Hr.
  destruct (image_hw x) as [[h w]|e] eqn:Hx;
    [|unfold call; rewrite Hx; reflexivity].
  destruct self as [[|minh [|minw [|? ?]]]];
    try (unfold call; rewrite Hx; reflexivity).
  specialize (Hr minh minw h w eq_refl Hx).
  rewrite (call_unfold _ _ _ _ _ _ Hx).
  destruct ((minh <=? Z.of_N h) && (minw <=? Z.of_N w)) eqn:Hfit.
  - simpl. rewrite (call_unfold _ _ _ _ _ _ Hx), Hfit. reflexivity.
  - destruct (N.eq_dec h 0%N) as [Hh0|Hh0];
      [rewrite (target_zero ar) by auto; reflexivity|].
    destruct (N.eq_dec w 0%N) as [Hw0|Hw0];
      [rewrite (target_zero ar) by auto; reflexivity|].
    assert (Hh : (0 < h)%N) by lia.
    assert (Hw : (0 < w)%N) by lia.
    assert (Hsmall : ~ (minh <= Z.of_N h /\ minw <= Z.of_N w)) by lia.
    destruct (target_spec ar minh minw h w Hh Hw Hsmall Hr)
      as (oh & ow & Ht & Hb1 & Hb2 & Hb3 & Hb4 & _).
    rewrite Ht. cbn [mbind result_bind].
    destruct (F_resize x (oh, ow)) as [y|e] eqn:Hy; [|reflexivity].
    cbn [mbind result_bind].
    assert (Hy' : image_hw y = Ok (Z.to_N oh, Z.to_N ow)).
    { apply (F_resize_size x); [by rewrite Hx|lia|lia|exact Hy]. }
    rewrite (call_unfold _ _ _ _ _ _ Hy'), !Z2N.id by lia.
    replace (_ && _) with true by lia. reflexivity.
Qed.

(** C10.  Applying the transform to its own result changes nothing:
    [call] after [call] is [call] (an exception of the first
    application is the result of both sides).  This holds in exact
    arithmetic for every image and every [min_output_size], and in
    float arithmetic for sizes and minimums below [2^50]. *)
Theorem MinResize_call_idempotent
    (self : t) (x : pil_image_or_tensor pixels) :
  call F_resize Exact self x ≫= call F_resize Exact self
  = call F_resize Exact self x
  /\ (sizes_in_range Float64 50 self x ->
      call F_resize Float64 self x ≫= call F_resize Float64 self
      = call F_resize Float64 self x).
Proof.
  split.
  - apply call_idempotent_in_range. intros ? ? ? ? _ _. exact I.
  - apply call_idempotent_in_range.
Qed.

End MinResizeProperties.

Lemma resize_size_hw {pixels} (x : MinResize.pil_image_or_tensor pixels)
    (oh ow : Z) (y : MinResize.pil_image_or_tensor pixels) :
  is_ok (MinResize.image_hw x) = true -> 0 < oh -> 0 < ow ->
  MinResize.resize_size x (oh, ow) = Ok y ->
  MinResize.image_hw y = Ok (Z.to_N oh, Z.to_N ow).
Proof.
  intros _ _ _. destruct x as [[w h] d|s d]; [by intros [= <-]|].
  unfold MinResize.resize_size.
  destruct (length s <? 3)%nat; [discriminate|]. intros [= <-].
  unfold MinResize.image_hw, py_slice, py_slice_bound.
  generalize (take (length s - 2) s). intros l1.
  rewrite length_app. cbn [length].
  destruct (Z.ltb_spec (Z.of_nat (length l1 + 2)) 0) as [Hneg|_]; [lia|].
  change (-2 <? 0) with true. cbv iota.
  replace (Z.to_nat (Z.max 0 (-2 + Z.of_nat (length l1 + 2))))
    with (length l1) by lia.
  rewrite drop_app_length.
  replace (Z.to_nat _) with 2%nat by lia.
  reflexivity.
Qed.

(** The image of 201 by 192 pixels and the minimum 224: the product
    [alpha * 201] is one rounding above [234.5] in float arithmetic and
    [234.5] itself in exact arithmetic, and the two widths differ. *)
Lemma target_float64_example :
  MinResize.target Float64 224 224 192 201 = Ok (224, 235)
  /\ MinResize.target Exact 224 224 192 201 = Ok (224, 234).
Proof. split; vm_compute; reflexivity. Qed.

Lemma MinResize_call_meets_minimums_witness :
  let x := MinResize.PILImage (201, 192)%N tt in
  MinResize.image_hw x = Ok (192, 201)%N
  /\ ~ (224 <= Z.of_N 192 /\ 224 <= Z.of_N 201)
  /\ MinResize.in_range Float64 50 224 224 192 201
  /\ MinResize.call MinResize.resize_size Float64
       (MinResize.init (MinResize.MinSeq [224; 224])) x
     = Ok (MinResize.PILImage (235, 224)%N tt).
Proof.
  intros x.
  assert (Hr : MinResize.in_range Float64 50 224 224 192 201)
    by (cbn; lia).
  split; [reflexivity|]. split; [cbn; lia|]. split; [exact Hr|].
  destruct (MinResize_call_meets_minimums unit MinResize.resize_size
              (@resize_size_hw unit) Float64 224 224 x 192%N 201%N eq_refl)
    as [_ H].
  destruct H as [H _]; [cbn; lia|lia|lia|exact Hr|].
  rewrite H. vm_compute. reflexivity.
Defined.

Lemma MinResize_call_idempotent_witness :
  let self := MinResize.init (MinResize.MinDim 224) in
  let x := MinResize.Tensor [3; 100; 150]%N tt in
  MinResize.sizes_in_range Float64 50 self x
  /\ MinResize.call MinResize.resize_size Float64 self x
     = Ok (MinResize.Tensor [3; 224; 336]%N tt)
  /\ MinResize.call MinResize.resize_size Float64 self x
       ≫= MinResize.call MinResize.resize_size Float64 self
     = MinResize.call MinResize.resize_size Float64 self x.
Proof.
  intros self x.
  assert (Hr : MinResize.sizes_in_range Float64 50 self x).
  { intros minh minw h w [= <- <-] [= <- <-]. cbn. lia. }
  split; [exact Hr|]. split; [vm_compute; reflexivity|].
  exact (proj2 (MinResize_call_idempotent unit MinResize.resize_size
                  (@resize_size_hw unit) self x) Hr).
Defined.

(** ** Loops that append *)

Lemma py_for_mapM {A B} (f : A -> result (list B))
    (body : list B -> A -> result (list B)) (l : list A) (s : list B) :
  (forall s x, body s x = f x ≫= fun r => Ok (s ++ r)) ->
  py_for body l s = mapM f l ≫= fun rs => Ok (s ++ concat rs).
Proof.
  intros Hbody. revert s. induction l as [|x l IH]; intros s.
  - simpl. by rewrite app_nil_r.
  - rewrite mapM_cons. cbn [py_for]. rewrite Hbody.
    destruct (f x) as [r|e]; [|reflexivity]. simpl.
    rewrite IH. destruct (mapM f l) as [rs|e]; [|reflexivity].
    simpl. by rewrite app_assoc.
Qed.

(** ** np.argmax and np.max *)

Lemma first_max_snoc_new (pre : list Q) (besti : nat) (best x : Q) :
  first_max pre besti best -> (best < x)%Q ->
  first_max (pre ++ [x]) (length pre) x.
Proof.
  intros (Hk & Hall & Hfirst) Hlt. repeat split.
  - by rewrite lookup_app_r, Nat.sub_diag.
  - intros j y Hj. apply lookup_app_Some in Hj as [Hj|[_ Hj]].
    + apply Hall in Hj. lra.
    + destruct (j - length pre)%nat; [|done]. injection Hj as <-. lra.
  - intros j y Hlen Hj. rewrite lookup_app_l in Hj by done.
    apply Hall in Hj. lra.
Qed.

Lemma first_max_snoc_keep (pre : list Q) (besti : nat) (best x : Q) :
  first_max pre besti best -> (x <= best)%Q ->
  first_max (pre ++ [x]) besti best.
Proof.
  intros (Hk & Hall & Hfirst) Hle. repeat split.
  - by apply lookup_app_l_Some.
  - intros j y Hj. apply lookup_app_Some in Hj as [Hj|[_ Hj]].
    + by apply Hall in Hj.
    + destruct (j - length pre)%nat; [|done]. by injection Hj as <-.
  - intros j y Hlt Hj. apply lookup_lt_Some in Hk.
    rewrite lookup_app_l in Hj by lia. eauto.
Qed.

Lemma argmax_from_first_max (l pre : list Q) (besti : nat) (best : Q) :
  first_max pre besti best ->
  exists k v,
    argmax_from best (Z.of_nat besti) (Z.of_nat (length pre)) l = Z.of_nat k
    /\ first_max (pre ++ l) k v.
Proof.
  revert pre besti best. induction l as [|x l IH]; intros pre besti best Hpre.
  - exists besti, best. by rewrite app_nil_r.
  - cbn [argmax_from].
    replace (Z.of_nat (length pre) + 1) with (Z.of_nat (length (pre ++ [x])))
      by (rewrite length_app; simpl; lia).
    replace (pre ++ x :: l) with ((pre ++ [x]) ++ l) by (by rewrite <- app_assoc).
    destruct (Qlt_le_dec best x) as [Hlt|Hle].
    + apply (IH (pre ++ [x]) (length pre) x).
      by eapply first_max_snoc_new.
    + apply (IH (pre ++ [x]) besti best).
      by apply first_max_snoc_keep.
Qed.

Lemma argmax_list_first_max (row : list Q) :
  row <> [] ->
  exists k v, argmax_list row = Z.of_nat k /\ first_max row k v.
Proof.
  destruct row as [|x l]; [done|]. intros _.
  apply (argmax_from_first_max l [x] 0 x).
  split; [reflexivity|]. split; [|intros; lia].
  intros [|j] y Hj; [|done]. injection Hj as <-. lra.
Qed.



(** ** ClassifierOutputProcessor *)



Lemma below_thresh_false (thresh : option Q) (a : Q) :
  below_thresh thresh a = false <->
  forall t, thresh = Some t -> ~ (a < t)%Q.
Proof.
  destruct thresh as [t|]; simpl.
  - destruct (Qlt_le_dec a t); split; try done.
    + intros H. by destruct (H t eq_refl).
    + intros _ t' [= <-]. lra.
  - split; [|done]. intros _ t Ht. discriminate.
Qed.


Lemma mapM_fmap_Ok {A B C} (f : B -> result C) (h : A -> B) (g : A -> C)
    (l : list A) :
  Forall (fun x => f (h x) = Ok (g x)) l -> mapM f (h <$> l) = Ok (g <$> l).
Proof.
  induction 1 as [|x l Hx _ IH]; [reflexivity|].
  rewrite !fmap_cons, mapM_cons, Hx. simpl. rewrite IH. reflexivity.
Qed.

Lemma zip_fmap_diag {A B C} (f : A -> B) (g : A -> C) (l : list A) :
  zip (f <$> l) (g <$> l) = (fun x => (f x, g x)) <$> l.
Proof. induction l as [|x l IH]; [reflexivity|]. csimpl. by rewrite IH. Qed.

Lemma concat_fmap_singleton {A B} (g : A -> B) (l : list A) :
  concat ((fun x => [g x]) <$> l) = g <$> l.
Proof. induction l as [|x l IH]; [reflexivity|]. csimpl. by rewrite IH. Qed.

(** With no empty row, [__call__] is its loop over the pairs of the
    argmax and the largest normalised entry of each row. *)
Lemma classifier_loop (exp : Q -> Q) (self : ClassifierOutputProcessor.t)
    (logits : list (list Q)) (fs : Z * Z) :
  Forall (fun row => row <> []) logits ->
  ClassifierOutputProcessor.call exp self logits fs
  = mapM (ClassifierOutputProcessor.classify self)
      ((fun row =>
          (argmax_list row,
           max_list (ClassifierOutputProcessor.odds_row exp row))) <$> logits)
    ≫= fun rs => Ok (concat rs).
Proof.
  intros Hne. unfold ClassifierOutputProcessor.call.
  rewrite <- (list_fmap_id logits) at 1.
  rewrite (mapM_fmap_Ok np_argmax id argmax_list).
  2:{ eapply Forall_impl; [exact Hne|]. by intros [|x row] ?. }
  simpl.
  rewrite (mapM_fmap_Ok np_max (ClassifierOutputProcessor.odds_row exp)
             (fun row => max_list (ClassifierOutputProcessor.odds_row exp row))).
  2:{ eapply Forall_impl; [exact Hne|]. by intros [|x row] ?. }
  simpl. rewrite zip_fmap_diag.
  rewrite (py_for_mapM (ClassifierOutputProcessor.classify self));
    [reflexivity|].
  intros s [p sc]. unfold ClassifierOutputProcessor.classify.
  by destruct (below_thresh _ _),
    (py_getitem (ClassifierOutputProcessor.class_labels self) p).
Qed.

Section ClassifierProperties.
Import ClassifierOutputProcessor.

Variable exp : Q -> Q.
Hypothesis exp_pos : forall x, (0 < exp x)%Q.
Hypothesis exp_mono : forall x y, (x <= y)%Q -> (exp x <= exp y)%Q.





End ClassifierProperties.




(** ** Loops that skip or append one element *)

Section FilterLoopProperties.
Context {A B : Type}.
Variable skip : A -> bool.
Variable g : A -> result B.

Lemma collect_cons (x : A) (l : list A) :
  collect skip g (x :: l)
  = emit skip g x ≫= fun r => collect skip g l ≫= fun ys => Ok (r ++ ys).
Proof.
  unfold collect. rewrite mapM_cons.
  by destruct (emit skip g x), (mapM (emit skip g) l).
Qed.

Lemma collect_all_Ok (l : list A) :
  Forall (fun x => is_ok (g x) = true) (filter (fun x => skip x = false) l) ->
  exists ys,
    collect skip g l = Ok ys
    /\ Forall2 (fun x y => g x = Ok y) (filter (fun x => skip x = false) l) ys.
Proof.
  induction l as [|x l IH]; intros Hok.
  - exists []. split; [reflexivity|constructor].
  - rewrite collect_cons. unfold emit.
    rewrite filter_cons in Hok |- *. destruct (skip x) eqn:Hs.
    + rewrite decide_False in Hok |- * by done.
      destruct (IH Hok) as (ys & Hys & Hall). exists ys. split; [|done].
      simpl. by rewrite Hys.
    + rewrite decide_True in Hok |- * by done.
      apply Forall_cons in Hok as [Hx Hok].
      destruct (IH Hok) as (ys & Hys & Hall).
      destruct (g x) as [y|] eqn:Hy; [|done].
      exists (y :: ys). split; [|by constructor].
      simpl. by rewrite Hys.
Qed.

Lemma collect_some_Raise (l : list A) (x : A) (e : exn) :
  x ∈ l -> skip x = false -> g x = Raise e ->
  exists e', collect skip g l = Raise e'.
Proof.
  intros Hin Hs Hx.
  destruct (mapM_Raise_elem (emit skip g) l x e Hin) as [e' He'].
  { unfold emit. by rewrite Hs, Hx. }
  exists e'. unfold collect. by rewrite He'.
Qed.

Lemma py_for_collect (body : list B -> A -> result (list B)) (l : list A) :
  (forall s x, body s x = emit skip g x ≫= fun r => Ok (s ++ r)) ->
  py_for body l [] = collect skip g l.
Proof. intros Hbody. by rewrite (py_for_mapM (emit skip g)). Qed.

End FilterLoopProperties.

(** ** Box normalisation *)

Lemma normalize_box_unit (x1 y1 x2 y2 : Q) :
  box_eq (normalize_box x1 y1 x2 y2 1 1) [x1; y1; x2 - x1; y2 - y1]%Q.
Proof.
  unfold normalize_box, box_eq.
  repeat (constructor; [change (inject_Z 1) with 1%Q; field|]). constructor.
Qed.

(** C9, as the claim states it, fails: with a frame of 1 by 1 the box
    with corners [(1,1)] and [(3,3)] becomes [(1, 1, 2, 2)], which is
    not the input [(1, 1, 3, 3)]. *)
Lemma normalize_box_unit_frame_changes_input :
  box_eq (normalize_box 1 1 3 3 1 1) [1; 1; 2; 2]%Q
  /\ ~ box_eq (normalize_box 1 1 3 3 1 1) [1; 1; 3; 3]%Q.
Proof.
  split; [repeat (constructor; [reflexivity|]); constructor|].
  unfold box_eq, normalize_box. intros H.
  apply Forall2_cons_1 in H as [_ H]. apply Forall2_cons_1 in H as [_ H].
  apply Forall2_cons_1 in H as [H _]. vm_compute in H. discriminate.
Qed.

(** C9, amended.  With a frame of 1 by 1 nothing is rescaled: the result
    is the corner [(x1, y1)] followed by the differences [x2 - x1] and
    [y2 - y1].  For a frame of positive width and height and a box
    inside it, the result [(x, y, w, h)] has [0 <= x], [0 <= y],
    [x + w <= 1] and [y + h <= 1]. *)
Theorem normalize_box_unit_frame_and_bounds
    (x1 y1 x2 y2 : Q) (width height : Z) :
  box_eq (normalize_box x1 y1 x2 y2 1 1) [x1; y1; x2 - x1; y2 - y1]%Q
  /\ (0 < width -> 0 < height ->
      (0 <= x1 /\ x1 <= x2 /\ x2 <= inject_Z width)%Q ->
      (0 <= y1 /\ y1 <= y2 /\ y2 <= inject_Z height)%Q ->
      exists x y w h,
        normalize_box x1 y1 x2 y2 width height = [x; y; w; h]
        /\ (0 <= x /\ 0 <= y /\ x + w <= 1 /\ y + h <= 1)%Q).
Proof.
  split; [apply normalize_box_unit|].
  intros Hw Hh (Hx0 & Hx12 & Hx2) (Hy0 & Hy12 & Hy2).
  apply inject_Z_pos in Hw, Hh.
  eexists _, _, _, _. split; [reflexivity|].
  split; [apply Qle_shift_div_l; lra|].
  split; [apply Qle_shift_div_l; lra|].
  split.
  - assert (He : (x1 / inject_Z width + (x2 - x1) / inject_Z width
                  == x2 / inject_Z width)%Q) by (field; lra).
    rewrite He. apply Qle_shift_div_r; lra.
  - assert (He : (y1 / inject_Z height + (y2 - y1) / inject_Z height
                  == y2 / inject_Z height)%Q) by (field; lra).
    rewrite He. apply Qle_shift_div_r; lra.
Qed.

Lemma normalize_box_unit_frame_and_bounds_witness :
  0 < 100 /\ 0 < 200
  /\ (0 <= 10 /\ 10 <= 30 /\ 30 <= inject_Z 100)%Q
  /\ (0 <= 20 /\ 20 <= 60 /\ 60 <= inject_Z 200)%Q
  /\ exists x y w h,
       normalize_box 10 20 30 60 100 200 = [x; y; w; h]
       /\ (0 <= x /\ 0 <= y /\ x + w <= 1 /\ y + h <= 1)%Q.
Proof.
  assert (Hx : (0 <= 10 /\ 10 <= 30 /\ 30 <= inject_Z 100)%Q)
    by (repeat split; discriminate).
  assert (Hy : (0 <= 20 /\ 20 <= 60 /\ 60 <= inject_Z 200)%Q)
    by (repeat split; discriminate).
  split; [lia|]. split; [lia|]. split; [exact Hx|]. split; [exact Hy|].
  apply (proj2 (normalize_box_unit_frame_and_bounds 10 20 30 60 100 200));
    [lia|lia|exact Hx|exact Hy].
Defined.

(** ** DetectorOutputProcessor *)

Lemma filter_all {A} (P : A -> Prop) `{!forall x, Decision (P x)} (l : list A) :
  (forall x, P x) -> filter P l = l.
Proof.
  intros HP. induction l as [|x l IH]; [reflexivity|].
  rewrite filter_cons_True by apply HP. by rewrite IH.
Qed.

Section DetectorProperties.
Import DetectorOutputProcessor.

Lemma parse_detections_collect (self : t) (o : output) (width height : Z) :
  parse_detections self o (width, height)
  = collect (skipped self) (detection_of self width height) (candidates o)
      ≫= fun ds => Ok (Detections ds).
Proof.
  unfold parse_detections.
  rewrite (py_for_collect (skipped self) (detection_of self width height));
    [reflexivity|].
  intros s [[[[[x1 y1] x2] y2] label] score].
  unfold emit, skipped, detection_of. simpl.
  destruct (below_thresh _ _); [simpl; by rewrite app_nil_r|].
  by destruct (py_getitem (class_labels self) label).
Qed.

(** C4.  The detections of an image are made from exactly the candidates
    whose score is not below the threshold (all of them when no
    threshold is set), one detection for each, in the order of the
    input, and the bounding box of a detection is
    [(x1/width, y1/height, (x2-x1)/width, (y2-y1)/height)].  The class
    indices of the kept candidates are taken to be indices of
    [class_labels]. *)
Theorem detector_emits_kept_in_order
    (self : t) (o : output) (width height : Z) :
  let n := Z.of_nat (length (class_labels self)) in
  let kept := filter (fun c => skipped self c = false) (candidates o) in
  Forall (fun c => - n <= c.1.2 < n) kept ->
  (confidence_thresh self = None -> kept = candidates o)
  /\ (forall c, c ∈ kept <->
        c ∈ candidates o
        /\ forall t, confidence_thresh self = Some t -> ~ (c.2 < t)%Q)
  /\ (exists dets,
       parse_detections self o (width, height) = Ok (Detections dets)
       /\ Forall2 (fun c d =>
            let '(x1, y1, x2, y2, label, score) := c in
            det_bounding_box d
              = [ x1 / inject_Z width; y1 / inject_Z height;
                  (x2 - x1) / inject_Z width;
                  (y2 - y1) / inject_Z height ]%Q
            /\ det_confidence d = score
            /\ py_getitem (class_labels self) label = Ok (det_label d)
            /\ det_mask d = None) kept dets)
  /\ box_eq (normalize_box 10 20 30 60 100 200) [0.1; 0.1; 0.2; 0.2]%Q.
Proof.
  intros n kept Hvalid.
  split; [|split; [|split;
    [|repeat (constructor; [reflexivity|]); constructor]]].
  - intros Hnone. apply filter_all. intros c. unfold skipped.
    by rewrite Hnone.
  - intros c. unfold kept. rewrite list_elem_of_filter. unfold skipped.
    rewrite below_thresh_false. tauto.
  - destruct (collect_all_Ok (skipped self) (detection_of self width height)
                (candidates o)) as (dets & Hdets & Hall).
    { eapply Forall_impl; [exact Hvalid|].
      intros [[[[[x1 y1] x2] y2] label] score] Hrange. simpl in Hrange.
      unfold detection_of.
      pose proof (py_getitem_in_range (class_labels self) label Hrange) as Hok.
      by destruct (py_getitem (class_labels self) label). }
    exists dets. rewrite parse_detections_collect, Hdets.
    split; [reflexivity|].
    eapply Forall2_impl; [exact Hall|].
    intros [[[[[x1 y1] x2] y2] label] score] d Hd. unfold detection_of in Hd.
    destruct (py_getitem (class_labels self) label) as [lbl|]; [|done].
    injection Hd as <-. done.
Qed.

End DetectorProperties.

Lemma detector_emits_kept_in_order_witness :
  let self := DetectorOutputProcessor.Build ["person"; "dog"]%string
                (Some (1 # 2)) in
  let o := DetectorOutputProcessor.Output
             [(10, 20, 30, 60); (0, 0, 50, 50); (5, 5, 15, 25)]%Q
             [1; 7; 0] [9 # 10; 1 # 10; 1 # 2]%Q in
  Forall (fun c => - 2 <= c.1.2 < 2)
    (filter (fun c => DetectorOutputProcessor.skipped self c = false)
       (DetectorOutputProcessor.candidates o))
  /\ exists dets,
       DetectorOutputProcessor.parse_detections self o (100, 200)
       = Ok (Detections dets)
       /\ length dets = 2%nat
       /\ (det_label <$> dets) = ["dog"; "person"]%string
       /\ Forall2 box_eq (det_bounding_box <$> dets)
            [[0.1; 0.1; 0.2; 0.2]; [0.05; 0.025; 0.1; 0.1]]%Q.
Proof.
  intros self o.
  assert (Hvalid : Forall (fun c => - 2 <= c.1.2 < 2)
            (filter (fun c => DetectorOutputProcessor.skipped self c = false)
               (DetectorOutputProcessor.candidates o))).
  { vm_compute.
    repeat (constructor; [split; [intro; discriminate|reflexivity]|]).
    constructor. }
  split; [exact Hvalid|].
  destruct (detector_emits_kept_in_order self o 100 200 Hvalid)
    as (_ & _ & (dets & Hparse & Hall) & _).
  exists dets. split; [exact Hparse|].
  vm_compute in Hparse. injection Hparse as <-.
  split; [reflexivity|]. split; [reflexivity|].
  repeat (constructor; [repeat (constructor; [reflexivity|]); constructor|]).
  constructor.
Defined.

(** ** InstanceSegmenterOutputProcessor *)

(** A slice with bounds that are not negative holds the entries at the
    positions [start <= p < stop]. *)
Lemma py_slice_lookup {A} (l : list A) (start stop : Z) (i : nat) :
  0 <= start -> 0 <= stop ->
  py_slice l start stop !! i
  = if start + Z.of_nat i <? stop then l !! Z.to_nat (start + Z.of_nat i)
    else None.
Proof.
  intros Hstart Hstop. unfold py_slice, py_slice_bound.
  destruct (Z.ltb_spec start 0) as [?|_]; [lia|].
  destruct (Z.ltb_spec stop 0) as [?|_]; [lia|].
  set (n := Z.of_nat (length l)).
  destruct (Z.ltb_spec (start + Z.of_nat i) stop) as [Hin|Hout].
  - destruct (Z.lt_ge_cases (start + Z.of_nat i) n) as [Hlt|Hge].
    + rewrite lookup_take_lt by lia. rewrite lookup_drop. f_equal. lia.
    + rewrite (proj2 (lookup_ge_None l (Z.to_nat (start + Z.of_nat i))))
        by (unfold n in Hge; lia).
      apply lookup_ge_None. rewrite length_take, length_drop.
      unfold n in *. lia.
  - apply lookup_ge_None. rewrite length_take, length_drop.
    unfold n in *. lia.
Qed.

Section InstanceSegmenterProperties.
Import InstanceSegmenterOutputProcessor.

Lemma above_true (t v : Q) : above t v = true <-> (t < v)%Q.
Proof. unfold above. destruct (Qlt_le_dec t v); split; try done. lra. Qed.

Lemma mask_entry (plane : list (list Q)) (r1 r2 c1 c2 : Z) (t : Q) (i j : nat) :
  0 <= r1 -> 0 <= r2 -> 0 <= c1 -> 0 <= c2 ->
  at2 (greater_than (slice2 plane r1 r2 c1 c2) t) i j
  = if (r1 + Z.of_nat i <? r2) && (c1 + Z.of_nat j <? c2)
    then above t <$> at2 plane (Z.to_nat (r1 + Z.of_nat i))
                               (Z.to_nat (c1 + Z.of_nat j))
    else None.
Proof.
  intros Hr1 Hr2 Hc1 Hc2. unfold at2, greater_than, slice2.
  rewrite !list_lookup_fmap, py_slice_lookup by done.
  destruct (r1 + Z.of_nat i <? r2); [|reflexivity].
  destruct (plane !! Z.to_nat (r1 + Z.of_nat i)) as [row|];
    [|simpl; by destruct (c1 + Z.of_nat j <? c2)].
  simpl. rewrite list_lookup_fmap, py_slice_lookup by done.
  destruct (c1 + Z.of_nat j <? c2); reflexivity.
Qed.

Lemma greater_than_uniform (soft : list (list Q)) (t c : Q) :
  Forall (Forall (fun v => (v == c)%Q)) soft ->
  greater_than soft t = map (map (fun _ => above t c)) soft.
Proof.
  intros Hall. unfold greater_than.
  apply list_eq. intros i. rewrite !list_lookup_fmap.
  destruct (soft !! i) as [row|] eqn:Hrow; [|reflexivity]. simpl. f_equal.
  apply (proj1 (Forall_lookup _ _) Hall) in Hrow.
  apply list_eq. intros j. rewrite !list_lookup_fmap.
  destruct (row !! j) as [v|] eqn:Hv; [|reflexivity]. simpl. f_equal.
  apply (proj1 (Forall_lookup _ _) Hrow) in Hv.
  unfold above. destruct (Qlt_le_dec t v), (Qlt_le_dec t c); try done; lra.
Qed.

Lemma parse_detections_collect_masks
    (self : t) (o : output) (width height : Z) :
  parse_detections self o (width, height)
  = collect (skipped self) (detection_of self width height) (candidates o)
      ≫= fun ds => Ok (Detections ds).
Proof.
  unfold parse_detections.
  rewrite (py_for_collect (skipped self) (detection_of self width height));
    [reflexivity|].
  intros s [[[[[[x1 y1] x2] y2] label] score] soft].
  unfold emit, skipped, detection_of. simpl.
  destruct (below_thresh _ _); [simpl; by rewrite app_nil_r|].
  destruct (np_squeeze0 soft); [|reflexivity]. simpl.
  by destruct (py_getitem (class_labels self) label).
Qed.

(** C6.  The mask of a kept candidate is the soft mask without its
    channel axis, sliced at the rounded box
    [[round(y1):round(y2), round(x1):round(x2)]] and compared with
    [mask_thresh], which is 0.5 unless given.  When the rounded bounds
    are not negative the entry [(i, j)] of the mask exists for
    [round(y1) + i < round(y2)] and [round(x1) + j < round(x2)] inside
    the soft mask, and tells whether the soft mask is above the
    threshold at row [round(y1) + i] and column [round(x1) + j].  A
    cropped soft mask that is 0.6 everywhere gives a mask that is true
    everywhere for the threshold 0.5 and false everywhere for 0.7.  The
    class indices of the kept candidates are taken to be indices of
    [class_labels] and their soft masks to have one channel. *)
Theorem instance_segmenter_mask
    (self : t) (o : output) (width height : Z) :
  let n := Z.of_nat (length (class_labels self)) in
  let kept := filter (fun c => skipped self c = false) (candidates o) in
  Forall (fun c => - n <= c.1.1.2 < n /\ length c.2 = 1%nat) kept ->
  (exists dets,
     parse_detections self o (width, height) = Ok (Detections dets)
     /\ Forall2 (fun (c : candidate) d =>
          let '(x1, y1, x2, y2, label, score, soft_mask) := c in
          exists plane mask,
            soft_mask = [plane]
            /\ det_mask d = Some mask
            /\ mask = greater_than
                        (slice2 plane (py_round y1) (py_round y2)
                                (py_round x1) (py_round x2))
                        (mask_thresh self)
            /\ (0 <= py_round y1 -> 0 <= py_round y2 ->
                0 <= py_round x1 -> 0 <= py_round x2 ->
                forall i j : nat,
                  at2 mask i j
                  = if (py_round y1 + Z.of_nat i <? py_round y2)
                       && (py_round x1 + Z.of_nat j <? py_round x2)
                    then above (mask_thresh self)
                           <$> at2 plane
                                 (Z.to_nat (py_round y1 + Z.of_nat i))
                                 (Z.to_nat (py_round x1 + Z.of_nat j))
                    else None)) kept dets)
  /\ (forall labels thresh, mask_thresh (init labels thresh None) == 1 # 2)%Q
  /\ (forall cropped,
        Forall (Forall (fun v => (v == 6 # 10)%Q)) cropped ->
        greater_than cropped (1 # 2) = map (map (fun _ => true)) cropped
        /\ greater_than cropped (7 # 10) = map (map (fun _ => false)) cropped).
Proof.
  intros n kept Hvalid. split; [|split].
  - destruct (collect_all_Ok (skipped self) (detection_of self width height)
                (candidates o)) as (dets & Hdets & Hall).
    { eapply Forall_impl; [exact Hvalid|].
      intros [[[[[[x1 y1] x2] y2] label] score] soft] [Hrange Hlen].
      simpl in Hrange, Hlen. unfold detection_of.
      destruct soft as [|plane [|? ?]]; try discriminate. simpl.
      pose proof (py_getitem_in_range (class_labels self) label Hrange) as Hok.
      by destruct (py_getitem (class_labels self) label). }
    exists dets. rewrite parse_detections_collect_masks, Hdets.
    split; [reflexivity|].
    eapply Forall2_impl; [exact Hall|].
    intros [[[[[[x1 y1] x2] y2] label] score] soft] d Hd.
    unfold detection_of in Hd.
    destruct soft as [|plane [|? ?]]; try discriminate. simpl in Hd.
    destruct (py_getitem (class_labels self) label) as [lbl|]; [|done].
    injection Hd as <-. exists plane. eexists.
    split; [reflexivity|]. split; [reflexivity|]. split; [reflexivity|].
    intros. by apply mask_entry.
  - reflexivity.
  - intros cropped Hall. split; by rewrite (greater_than_uniform _ _ _ Hall).
Qed.

End InstanceSegmenterProperties.

Lemma instance_segmenter_mask_witness :
  let self := InstanceSegmenterOutputProcessor.init ["cat"]%string None None in
  let o := InstanceSegmenterOutputProcessor.Output
             [(0.6, 0.4, 2.5, 2.6)]%Q [0] [0.8]%Q
             [[[[0.6; 0.6; 0.2]; [0.1; 0.9; 0.3]; [0.5; 0.5; 0.7]]]]%Q in
  Forall (fun c => - 1 <= c.1.1.2 < 1 /\ length c.2 = 1%nat)
    (filter (fun c => InstanceSegmenterOutputProcessor.skipped self c = false)
       (InstanceSegmenterOutputProcessor.candidates o))
  /\ exists dets,
       InstanceSegmenterOutputProcessor.parse_detections self o (3, 3)
       = Ok (Detections dets)
       /\ (det_mask <$> dets) = [Some [[true]; [true]; [false]]].
Proof.
  intros self o.
  assert (Hvalid :
    Forall (fun c => - 1 <= c.1.1.2 < 1 /\ length c.2 = 1%nat)
      (filter (fun c => InstanceSegmenterOutputProcessor.skipped self c = false)
         (InstanceSegmenterOutputProcessor.candidates o))).
  { vm_compute.
    repeat (constructor;
            [split; [split; [intro; discriminate|reflexivity]|reflexivity]|]).
    constructor. }
  split; [exact Hvalid|].
  destruct (instance_segmenter_mask self o 3 3 Hvalid)
    as ((dets & Hparse & _) & _).
  exists dets. split; [exact Hparse|].
  vm_compute in Hparse. injection Hparse as <-. reflexivity.
Defined.

(** ** KeypointDetectorOutputProcessor *)

Ltac solve_well_formed :=
  repeat (constructor;
    [split; [simpl; lia|];
     split; [repeat (constructor; [simpl; lia|]); constructor|];
     intros ? [= <-]; repeat constructor; simpl; lia|]);
  constructor.

Section KeypointProperties.
Import KeypointDetectorOutputProcessor.

Lemma loop_body_emit (self : t) (width height : Z) (s : locals) (c : candidate) :
  loop_body self width height s c
  = emit (skipped self) (labels_of self width height) c
      ≫= fun ys => Ok (extend s ys).
Proof.
  destruct c as [[[[[[x1 y1] x2] y2] label] score] kpts].
  destruct s as [ds ks ps].
  unfold loop_body, emit, skipped, labels_of, points_of, extend. simpl.
  destruct (below_thresh _ _); [simpl; by rewrite !app_nil_r|].
  destruct (mapM _ kpts) as [points|]; [|reflexivity]. simpl.
  destruct (py_getitem (class_labels self) label) as [lbl|]; [|reflexivity].
  simpl. destruct (edges self) as [es|]; simpl.
  - destruct (mapM _ es); simpl; [|reflexivity]. by rewrite ?app_nil_r.
  - by rewrite ?app_nil_r.
Qed.

Lemma extend_app (s : locals) (ys zs : list (Detection * Keypoint * list Polyline)) :
  extend (extend s ys) zs = extend s (ys ++ zs).
Proof.
  unfold extend. simpl. by rewrite !fmap_app, concat_app, !app_assoc.
Qed.

Lemma py_for_loop_body (self : t) (width height : Z)
    (l : list candidate) (s : locals) :
  py_for (loop_body self width height) l s
  = collect (skipped self) (labels_of self width height) l
      ≫= fun ys => Ok (extend s ys).
Proof.
  revert s. induction l as [|c l IH]; intros s.
  - destruct s. unfold extend. simpl. by rewrite !app_nil_r.
  - cbn [py_for]. rewrite loop_body_emit, collect_cons.
    destruct (emit _ _ c) as [r|]; [|reflexivity]. simpl.
    rewrite IH. destruct (collect _ _ l); [|reflexivity]. simpl.
    by rewrite extend_app.
Qed.

Lemma parse_detections_labels (self : t) (o : output) (width height : Z) :
  parse_detections self o (width, height)
  = collect (skipped self) (labels_of self width height) (candidates o)
      ≫= fun ys => Ok (label_dict self ys).
Proof.
  unfold parse_detections. fold (candidates o). rewrite py_for_loop_body.
  destruct (collect _ _ _); reflexivity.
Qed.

Lemma points_of_Ok (width height : Z) (kpts : list (list Q)) :
  Forall (fun p => (2 <= length p)%nat) kpts ->
  exists points,
    points_of width height kpts = Ok points /\ length points = length kpts.
Proof.
  intros Hk. destruct (mapM_Ok_total
    (fun p => p0 ← py_getitem p 0; p1 ← py_getitem p 1;
              Ok (p0 / inject_Z width, p1 / inject_Z height)%Q) kpts)
    as [points Hpoints].
  - eapply Forall_impl; [exact Hk|]. intros p Hp. simpl in Hp.
    destruct (py_getitem_nonneg p 0) as (a & _ & ->); [lia|].
    destruct (py_getitem_nonneg p 1) as (b & _ & ->); [lia|]. reflexivity.
  - exists points. split; [exact Hpoints|].
    by apply mapM_Ok_length in Hpoints.
Qed.

Lemma labels_of_Ok (self : t) (width height : Z) (c : candidate) :
  well_formed self c ->
  exists d k pls,
    labels_of self width height c = Ok (d, k, pls)
    /\ length pls = match edges self with Some _ => 1%nat | None => 0%nat end.
Proof.
  destruct c as [[[[[[x1 y1] x2] y2] label] score] kpts].
  intros (Hlabel & Hk & Hedges). simpl in Hlabel, Hk, Hedges.
  unfold labels_of.
  destruct (points_of_Ok width height kpts Hk) as (points & -> & Hlen).
  simpl.
  pose proof (py_getitem_in_range (class_labels self) label Hlabel) as Hok.
  destruct (py_getitem (class_labels self) label) as [lbl|]; [|done].
  simpl. destruct (edges self) as [es|]; simpl; [|by eexists _, _, _].
  destruct (mapM_Ok_total
              (fun e => mapM (fun v => py_getitem points v) e) es)
    as [pts ->].
  - eapply Forall_impl; [exact (Hedges es eq_refl)|]. intros e He. simpl in He.
    destruct (mapM_Ok_total (fun v => py_getitem points v) e) as [q ->];
      [|reflexivity].
    eapply Forall_impl; [exact He|]. intros v Hv. simpl in Hv.
    apply py_getitem_in_range. lia.
  - simpl. by eexists _, _, _.
Qed.

Lemma length_concat_singletons {A B} (f : A -> list B) (ys : list A) :
  Forall (fun y => length (f y) = 1%nat) ys ->
  length (concat (f <$> ys)) = length ys.
Proof.
  induction 1 as [|y ys Hy _ IH]; [reflexivity|].
  rewrite fmap_cons. simpl. rewrite length_app, Hy, IH. reflexivity.
Qed.

Lemma Forall2_transfer {A B} (R : A -> B -> Prop) (P : A -> Prop)
    (Q : B -> Prop) (l : list A) (k : list B) :
  Forall2 R l k -> Forall P l -> (forall x y, R x y -> P x -> Q y) ->
  Forall Q k.
Proof.
  intros HR HP Himp. induction HR as [|x y l k Hxy _ IH]; [constructor|].
  apply Forall_cons in HP as [Hx HP]. constructor; eauto.
Qed.

Lemma parse_detections_shape (self : t) (o : output) (width height : Z) :
  let kept := filter (fun c => skipped self c = false) (candidates o) in
  Forall (well_formed self) kept ->
  exists m dets kps,
    parse_detections self o (width, height) = Ok m
    /\ dom m = keys self
    /\ m !! "detections" = Some (Detections dets)
    /\ m !! "keypoints" = Some (Keypoints kps)
    /\ length dets = length kept
    /\ length kps = length kept
    /\ match edges self with
       | Some _ => exists pls, m !! "polylines" = Some (Polylines pls)
                              /\ length pls = length kept
       | None => m !! "polylines" = None
       end.
Proof.
  intros kept Hwf.
  destruct (collect_all_Ok (skipped self) (labels_of self width height)
              (candidates o)) as (ys & Hys & Hall).
  { eapply Forall_impl; [exact Hwf|]. intros c Hc.
    by destruct (labels_of_Ok self width height c Hc) as (d & k & pls & -> & _). }
  fold kept in Hall.
  assert (Hlen : length ys = length kept)
    by (symmetry; eapply Forall2_length, Hall).
  exists (label_dict self ys), ((fun y => y.1.1) <$> ys),
    ((fun y => y.1.2) <$> ys).
  rewrite parse_detections_labels, Hys.
  split; [reflexivity|]. unfold label_dict, keys.
  destruct (edges self) as [es|] eqn:Hes.
  - split; [rewrite !dom_insert_L; set_solver|].
    split; [by simplify_map_eq|]. split; [by simplify_map_eq|].
    rewrite !length_fmap. split; [done|]. split; [done|].
    eexists. split; [by simplify_map_eq|].
    rewrite <- Hlen. apply length_concat_singletons.
    apply (Forall2_transfer _ _ _ _ _ Hall Hwf). intros c y Hy Hc.
    destruct (labels_of_Ok self width height c Hc) as (d & k & pls & Hd & Hl).
    rewrite Hes in Hl. rewrite Hd in Hy. by injection Hy as <-.
  - split; [rewrite !dom_insert_L; set_solver|].
    split; [by simplify_map_eq|]. split; [by simplify_map_eq|].
    rewrite !length_fmap. split; [done|]. split; [done|].
    by simplify_map_eq.
Qed.

(** C1, as the claim states it, fails: for a batch of two images the
    result is a list of two mappings, one for each image with the one
    detection of that image, and not one mapping that holds the labels
    of both. *)
Lemma keypoint_call_not_single_aggregate :
  let self := Build ["person"]%string (Some [[0; 1]]) None in
  let o1 := Output [(0, 0, 10, 10)]%Q [0] [0.9]%Q [[[1; 2]; [3; 4]]]%Q in
  let o2 := Output [(5, 5, 20, 20)]%Q [0] [0.8]%Q [[[5; 6]; [7; 8]]]%Q in
  exists m1 m2 d1 d2,
    call self [o1; o2] (100, 100) = Ok [m1; m2]
    /\ [m1; m2] <> [aggregate [m1; m2]]
    /\ m1 !! "detections" = Some (Detections [d1])
    /\ m2 !! "detections" = Some (Detections [d2]).
Proof.
  intros self o1 o2.
  destruct (parse_detections_shape self o1 100 100)
    as (m1 & dets1 & _ & Hm1 & _ & Hd1 & _ & Hl1 & _).
  { rewrite filter_all by (intros c; reflexivity). solve_well_formed. }
  destruct (parse_detections_shape self o2 100 100)
    as (m2 & dets2 & _ & Hm2 & _ & Hd2 & _ & Hl2 & _).
  { rewrite filter_all by (intros c; reflexivity). solve_well_formed. }
  rewrite filter_all in Hl1, Hl2 by (intros c; reflexivity).
  destruct dets1 as [|d1 [|? ?]]; try discriminate.
  destruct dets2 as [|d2 [|? ?]]; try discriminate.
  exists m1, m2, d1, d2. split.
  { unfold call. rewrite !mapM_cons, Hm1, Hm2. reflexivity. }
  split; [|by split].
  intros H. apply (f_equal length) in H. discriminate.
Qed.

(** C1, amended.  For a batch of [N] images whose kept candidates are
    well formed the result is a list of [N] mappings, one for each
    image in the order of the batch.  The keys of a mapping are
    ["detections"], ["keypoints"] and, when an edge list is configured,
    ["polylines"], and each key holds a flat container with one label
    for each kept candidate of that image. *)
Theorem keypoint_call_one_mapping_per_image
    (self : t) (out : list output) (width height : Z) :
  Forall (fun o => Forall (well_formed self)
                     (filter (fun c => skipped self c = false) (candidates o)))
    out ->
  exists r,
    call self out (width, height) = Ok r
    /\ length r = length out
    /\ forall i o m, out !! i = Some o -> r !! i = Some m ->
       let kept := filter (fun c => skipped self c = false) (candidates o) in
       dom m = keys self
       /\ exists dets kps,
            m !! "detections" = Some (Detections dets)
            /\ m !! "keypoints" = Some (Keypoints kps)
            /\ length dets = length kept
            /\ length kps = length kept
            /\ match edges self with
               | Some _ => exists pls, m !! "polylines" = Some (Polylines pls)
                                      /\ length pls = length kept
               | None => m !! "polylines" = None
               end.
Proof.
  intros Hwf.
  destruct (mapM_Ok_total (fun o => parse_detections self o (width, height)) out)
    as [r Hr].
  { eapply Forall_impl; [exact Hwf|]. intros o Ho.
    by destruct (parse_detections_shape self o width height Ho)
      as (m & _ & _ & -> & _). }
  exists r. split; [exact Hr|]. split; [by apply mapM_Ok_length in Hr|].
  intros i o m Ho Hm kept.
  apply mapM_Ok_Forall2 in Hr.
  pose proof (Forall2_lookup_lr _ _ _ _ _ _ Hr Ho Hm) as Hparse.
  cbv beta in Hparse.
  pose proof (proj1 (Forall_lookup _ _) Hwf i o Ho) as Hkept.
  destruct (parse_detections_shape self o width height Hkept)
    as (m' & dets & kps & Hm' & Hdom & Hrest).
  rewrite Hparse in Hm'. injection Hm' as <-.
  split; [exact Hdom|]. by exists dets, kps.
Qed.

End KeypointProperties.

Lemma keypoint_call_one_mapping_per_image_witness :
  let self := KeypointDetectorOutputProcessor.Build
                ["person"]%string (Some [[0; 1]]) None in
  let out :=
    [ KeypointDetectorOutputProcessor.Output
        [(0, 0, 10, 10)]%Q [0] [0.9]%Q [[[1; 2]; [3; 4]]]%Q;
      KeypointDetectorOutputProcessor.Output
        [(5, 5, 20, 20)]%Q [0] [0.8]%Q [[[5; 6]; [7; 8]]]%Q ] in
  Forall (fun o =>
            Forall (KeypointDetectorOutputProcessor.well_formed self)
              (filter
                 (fun c => KeypointDetectorOutputProcessor.skipped self c = false)
                 (KeypointDetectorOutputProcessor.candidates o))) out
  /\ exists r,
       KeypointDetectorOutputProcessor.call self out (100, 100) = Ok r
       /\ length r = 2%nat.
Proof.
  intros self out.
  assert (Hwf : Forall (fun o =>
            Forall (KeypointDetectorOutputProcessor.well_formed self)
              (filter
                 (fun c => KeypointDetectorOutputProcessor.skipped self c = false)
                 (KeypointDetectorOutputProcessor.candidates o))) out).
  { repeat (constructor;
      [rewrite filter_all by (intros c; reflexivity); solve_well_formed|]).
    constructor. }
  split; [exact Hwf|].
  destruct (keypoint_call_one_mapping_per_image self out 100 100 Hwf)
    as (r & Hr & Hlen & _).
  exists r. split; [exact Hr|exact Hlen].
Defined.

(** ** SegmenterOutputProcessor *)

Section SegmenterProperties.
Import SegmenterOutputProcessor.

(** The mask that [argmax] gives an image with a first plane. *)
Lemma argmax_classes_cons (plane : list (list Q)) (rest : list (list (list Q))) :
  argmax_classes (plane :: rest)
  = Ok (imap (fun h row =>
          imap (fun w _ => argmax_list (pixel_scores (plane :: rest) h w)) row)
        plane).
Proof. reflexivity. Qed.

Lemma at2_imap_imap {A B} (f : nat -> nat -> B) (a : list (list A)) (h w : nat) :
  at2 (imap (fun h row => imap (fun w _ => f h w) row) a) h w
  = (fun _ => f h w) <$> at2 a h w.
Proof.
  unfold at2. rewrite list_lookup_imap.
  destruct (a !! h) as [row|]; [|reflexivity]. simpl.
  by rewrite list_lookup_imap.
Qed.

Lemma pixel_scores_cons (plane : list (list Q)) (rest : list (list (list Q)))
    (h w : nat) (v : Q) :
  at2 plane h w = Some v ->
  pixel_scores (plane :: rest) h w = v :: pixel_scores rest h w.
Proof. intros Hv. unfold pixel_scores. simpl. by rewrite Hv. Qed.

Lemma argmax_two_planes (p0 p1 : list (list Q)) :
  Forall2 (Forall2 (fun a b => (a < b)%Q)) p0 p1 ->
  argmax_classes [p0; p1] = Ok (map (map (fun _ => 1)) p0).
Proof.
  intros Hlt. rewrite argmax_classes_cons. f_equal.
  apply list_eq. intros h. rewrite list_lookup_imap, list_lookup_fmap.
  destruct (p0 !! h) as [row0|] eqn:Hrow0; [|reflexivity]. simpl. f_equal.
  destruct (Forall2_lookup_l _ _ _ _ _ Hlt Hrow0) as (row1 & Hrow1 & Hrows).
  apply list_eq. intros w. rewrite list_lookup_imap, list_lookup_fmap.
  destruct (row0 !! w) as [a|] eqn:Ha; [|reflexivity]. simpl. f_equal.
  destruct (Forall2_lookup_l _ _ _ _ _ Hrows Ha) as (b & Hb & Hab).
  unfold pixel_scores, at2. simpl. rewrite Hrow0, Hrow1. simpl.
  rewrite Ha, Hb. simpl. destruct (Qlt_le_dec a b); [reflexivity|lra].
Qed.

(** C7.  For a tensor of [N] images with at least one class each the
    segmenter returns [N] segmentations.  The mask of image [i] has an
    entry for each pixel of the image, and the entry at [(h, w)] is the
    first class index at which the scores of that pixel are largest.
    Nothing but the tensor enters the result, and a segmentation holds
    nothing but its mask.  For two classes of which the second has the
    larger score at every pixel the mask is 1 everywhere. *)
Theorem segmenter_call_argmax
    (self : t) (output : output) (frame_size : Z * Z) :
  Forall (fun img => img <> []) (out output) ->
  (exists segs,
     call self output frame_size = Ok segs
     /\ length segs = length (out output)
     /\ forall i img seg,
          out output !! i = Some img -> segs !! i = Some seg ->
          forall h w,
            (forall plane v, img !! 0%nat = Some plane ->
               at2 plane h w = Some v -> is_Some (at2 (seg_mask seg) h w))
            /\ (forall k, at2 (seg_mask seg) h w = Some k ->
                  exists m v, k = Z.of_nat m
                              /\ first_max (pixel_scores img h w) m v))
  /\ (forall self', call self' output frame_size = call self output frame_size)
  /\ (forall p0 p1,
        Forall2 (Forall2 (fun a b => (a < b)%Q)) p0 p1 ->
        call self (Output [[p0; p1]]) frame_size
        = Ok [mkSegmentation (map (map (fun _ => 1)) p0)]).
Proof.
  intros Hne. split; [|split].
  - destruct (mapM_Ok_total argmax_classes (out output)) as [masks Hmasks].
    { eapply Forall_impl; [exact Hne|]. by intros [|plane rest]. }
    exists (mkSegmentation <$> masks). unfold call. rewrite Hmasks.
    split; [reflexivity|].
    split; [rewrite length_fmap; by apply mapM_Ok_length in Hmasks|].
    intros i img seg Himg Hseg h w.
    rewrite list_lookup_fmap in Hseg.
    destruct (masks !! i) as [mask|] eqn:Hmask; [|discriminate].
    injection Hseg as <-. simpl.
    apply mapM_Ok_Forall2 in Hmasks.
    pose proof (Forall2_lookup_lr _ _ _ _ _ _ Hmasks Himg Hmask) as Hm.
    cbv beta in Hm. destruct img as [|plane rest]; [discriminate|].
    rewrite argmax_classes_cons in Hm. injection Hm as <-.
    rewrite (at2_imap_imap
               (fun h w => argmax_list (pixel_scores (plane :: rest) h w))).
    split.
    + intros plane' v [= <-] Hv. rewrite Hv. by eexists.
    + intros k Hk. destruct (at2 plane h w) as [v|] eqn:Hv; [|discriminate].
      injection Hk as <-.
      apply argmax_list_first_max.
      by rewrite (pixel_scores_cons _ _ _ _ _ Hv).
  - reflexivity.
  - intros p0 p1 Hlt. unfold call. cbn [out].
    by rewrite mapM_cons, (argmax_two_planes p0 p1 Hlt).
Qed.

End SegmenterProperties.

Lemma segmenter_call_argmax_witness :
  let self := SegmenterOutputProcessor.Build ["sky"; "road"]%string in
  let output := SegmenterOutputProcessor.Output
                  [[[[0.9; 0.2]; [0.4; 0.5]];
                    [[0.1; 0.8]; [0.6; 0.5]]]]%Q in
  Forall (fun img => img <> []) (SegmenterOutputProcessor.out output)
  /\ exists segs,
       SegmenterOutputProcessor.call self output (2, 2) = Ok segs
       /\ segs = [mkSegmentation [[0; 1]; [1; 0]]].
Proof.
  intros self output.
  assert (Hne : Forall (fun img => img <> [])
                  (SegmenterOutputProcessor.out output))
    by (repeat constructor; discriminate).
  split; [exact Hne|].
  destruct (segmenter_call_argmax self output (2, 2) Hne)
    as ((segs & Hcall & _) & _).
  exists segs. split; [exact Hcall|].
  vm_compute in Hcall. by injection Hcall as <-.
Defined.

(** ** TorchModel *)

Section TorchModelProperties.
Import TorchModel.

Variable model processor : Type.
Variable load_class_labels : string -> result (list string).
Variable load_model : TorchModelConfig -> result model.
Variable build_output_processor :
  TorchModelConfig -> list string -> result processor.

Lemma build_transforms_incomplete (config : TorchModelConfig) :
  truthy_list (image_mean config) <> truthy_list (image_std config) ->
  build_transforms config
  = Raise (ValueError "Both `image_mean` and `image_std` must be provided").
Proof.
  intros Hne. unfold build_transforms.
  destruct (truthy_list (image_mean config)),
    (truthy_list (image_std config)); done.
Qed.

Lemma get_class_labels_missing (config : TorchModelConfig) :
  truthy_str (labels_string config) = false ->
  truthy_str (labels_path config) = false ->
  get_class_labels load_class_labels config
  = Raise (ValueError
      "Either `labels_string` or `labels_path` must be specified").
Proof. intros H1 H2. unfold get_class_labels. by rewrite H1, H2. Qed.

(** C8.  An option is given when it has a value that Python takes for
    true (not [None], not empty).  When neither [labels_string] nor
    [labels_path] is given the constructor raises the [ValueError] of
    [_get_class_labels]; when exactly one of [image_mean] and
    [image_std] is given it raises as well, with the [ValueError] of
    [_build_transforms] as soon as the class labels are found.  In both
    cases the outcome is the same whatever loading the network or
    building the output processor would do: neither is reached. *)
Theorem torch_model_init_incomplete_options (config : TorchModelConfig) :
  truthy_list (image_mean config) <> truthy_list (image_std config)
  \/ (truthy_str (labels_string config) = false
      /\ truthy_str (labels_path config) = false) ->
  exists e,
    init model processor load_class_labels load_model build_output_processor
      config = Raise e
    /\ (truthy_str (labels_string config) = false ->
        truthy_str (labels_path config) = false ->
        e = ValueError
              "Either `labels_string` or `labels_path` must be specified")
    /\ (forall labels,
          get_class_labels load_class_labels config = Ok labels ->
          e = ValueError "Both `image_mean` and `image_std` must be provided")
    /\ (forall load_model' build_output_processor',
          init model processor load_class_labels load_model'
            build_output_processor' config = Raise e).
Proof.
  intros Hbad. unfold init.
  destruct (get_class_labels load_class_labels config) as [labels|e] eqn:Hl.
  - destruct Hbad as [Hne|[H1 H2]].
    + rewrite (build_transforms_incomplete config Hne).
      eexists. split; [reflexivity|]. split.
      * intros H1 H2.
        rewrite (get_class_labels_missing config H1 H2) in Hl. discriminate.
      * split; reflexivity.
    + rewrite (get_class_labels_missing config H1 H2) in Hl. discriminate.
  - exists e. split; [reflexivity|]. split; [|split].
    + intros H1 H2.
      rewrite (get_class_labels_missing config H1 H2) in Hl. congruence.
    + intros labels [=].
    + reflexivity.
Qed.

End TorchModelProperties.

Lemma torch_model_init_incomplete_options_witness :
  let config :=
    TorchModel.Config "torchvision.models.resnet50"
      "fiftyone.utils.torch.ClassifierOutputProcessor"
      (Some "cat,dog"%string) None None None (Some 224) None None
      (Some [0.485; 0.456; 0.406]%Q) None in
  (TorchModel.truthy_list (TorchModel.image_mean config)
   <> TorchModel.truthy_list (TorchModel.image_std config)
   \/ (TorchModel.truthy_str (TorchModel.labels_string config) = false
       /\ TorchModel.truthy_str (TorchModel.labels_path config) = false))
  /\ TorchModel.init unit unit (fun _ => Ok []) (fun _ => Ok tt)
       (fun _ _ => Ok tt) config
     = Raise (ValueError "Both `image_mean` and `image_std` must be provided").
Proof.
  intros config.
  assert (Hbad :
    TorchModel.truthy_list (TorchModel.image_mean config)
    <> TorchModel.truthy_list (TorchModel.image_std config)
    \/ (TorchModel.truthy_str (TorchModel.labels_string config) = false
        /\ TorchModel.truthy_str (TorchModel.labels_path config) = false))
    by (left; discriminate).
  split; [exact Hbad|].
  destruct (torch_model_init_incomplete_options unit unit (fun _ => Ok [])
              (fun _ => Ok tt) (fun _ _ => Ok tt) config Hbad)
    as (e & He & _ & Hboth & _).
  rewrite He. f_equal. by apply (Hboth ["cat"; "dog"]%string).
Defined.

(** ** Class indices outside the labels *)

Lemma classifier_empty_row (exp : Q -> Q) (self : ClassifierOutputProcessor.t)
    (logits : list (list Q)) (fs : Z * Z) :
  [] ∈ logits ->
  exists e, ClassifierOutputProcessor.call exp self logits fs = Raise e.
Proof.
  intros Hin. unfold ClassifierOutputProcessor.call.
  destruct (mapM_Raise_elem np_argmax logits [] _ Hin eq_refl) as [e ->].
  by exists e.
Qed.

Lemma mapM_Raise_bind {A B C} (f : A -> result B) (k : list B -> result C)
    (l : list A) (x : A) (e : exn) :
  x ∈ l -> f x = Raise e -> exists e', mapM f l ≫= k = Raise e'.
Proof.
  intros Hin Hx. destruct (mapM_Raise_elem f l x e Hin Hx) as [e' ->].
  by exists e'.
Qed.

Lemma nonempty_rows_or_empty {A} (l : list (list A)) :
  Forall (fun row => row <> []) l \/ [] ∈ l.
Proof.
  induction l as [|row l [IH|IH]].
  - left. constructor.
  - destruct row; [right; apply elem_of_cons; by left|].
    left. by constructor.
  - right. apply elem_of_cons. by right.
Qed.

Lemma parse_raises_call_raises {O L} (parse : O -> result L) (out : list O)
    (o : O) :
  o ∈ out -> (exists e, parse o = Raise e) ->
  exists e', mapM parse out = Raise e'.
Proof. intros Ho [e He]. by apply (mapM_Raise_elem parse out o e). Qed.

Lemma collect_raises_bind {A B C} (skip : A -> bool) (g : A -> result B)
    (k : list B -> result C) (l : list A) (x : A) (e : exn) :
  x ∈ l -> skip x = false -> g x = Raise e ->
  exists e', collect skip g l ≫= k = Raise e'.
Proof.
  intros Hin Hs Hx.
  destruct (collect_some_Raise skip g l x e Hin Hs Hx) as [e' ->].
  by exists e'.
Qed.

(** C2, as the claim states it, fails: the detector gives the candidate
    with class index -1 the last label, and it drops a candidate below
    the threshold whatever its class index is. *)
Lemma detector_accepts_negative_index :
  (exists d,
     DetectorOutputProcessor.call
       (DetectorOutputProcessor.Build ["a"; "b"]%string None)
       [DetectorOutputProcessor.Output [(0, 0, 5, 5)]%Q [-1] [0.9]%Q] (10, 10)
     = Ok [Detections [d]] /\ det_label d = "b"%string)
  /\ DetectorOutputProcessor.call
       (DetectorOutputProcessor.Build ["a"; "b"]%string (Some 0.5%Q))
       [DetectorOutputProcessor.Output [(0, 0, 5, 5)]%Q [7] [0.1]%Q] (10, 10)
     = Ok [Detections []].
Proof.
  split; [|vm_compute; reflexivity].
  eexists. split; [vm_compute; reflexivity|reflexivity].
Qed.

(** C2, amended.  In each of the four processors that look a class
    index up, a candidate (for the classifier, a row) that passes the
    confidence threshold and whose class index [i] is not an index that
    Python accepts for the [n] labels, [i >= n] or [i < -n], makes the
    call raise, so that no label is returned for the batch.  An index
    [-n <= i < 0] is accepted and selects the label at [n + i]. *)
Theorem class_index_out_of_range_raises :
  (forall exp self logits fs row,
     row ∈ logits ->
     below_thresh (ClassifierOutputProcessor.confidence_thresh self)
       (max_list (ClassifierOutputProcessor.odds_row exp row)) = false ->
     out_of_range
       (Z.of_nat (length (ClassifierOutputProcessor.class_labels self)))
       (argmax_list row) ->
     exists e, ClassifierOutputProcessor.call exp self logits fs = Raise e)
  /\ (forall self out fs o c,
        o ∈ out -> c ∈ DetectorOutputProcessor.candidates o ->
        DetectorOutputProcessor.skipped self c = false ->
        out_of_range
          (Z.of_nat (length (DetectorOutputProcessor.class_labels self)))
          c.1.2 ->
        exists e, DetectorOutputProcessor.call self out fs = Raise e)
  /\ (forall self out fs o c,
        o ∈ out -> c ∈ InstanceSegmenterOutputProcessor.candidates o ->
        InstanceSegmenterOutputProcessor.skipped self c = false ->
        out_of_range
          (Z.of_nat
             (length (InstanceSegmenterOutputProcessor.class_labels self)))
          c.1.1.2 ->
        exists e, InstanceSegmenterOutputProcessor.call self out fs = Raise e)
  /\ (forall self out fs o c,
        o ∈ out -> c ∈ KeypointDetectorOutputProcessor.candidates o ->
        KeypointDetectorOutputProcessor.skipped self c = false ->
        out_of_range
          (Z.of_nat
             (length (KeypointDetectorOutputProcessor.class_labels self)))
          c.1.1.2 ->
        exists e, KeypointDetectorOutputProcessor.call self out fs = Raise e)
  /\ (forall (labels : list string) i,
        - Z.of_nat (length labels) <= i < 0 ->
        exists label,
          py_getitem labels i = Ok label
          /\ labels !! Z.to_nat (Z.of_nat (length labels) + i) = Some label).
Proof.
  split; [|split; [|split; [|split]]].
  - intros exp self logits fs row Hrow Hkept Hout.
    destruct (nonempty_rows_or_empty logits) as [Hne|Hex].
    + rewrite (classifier_loop exp self logits fs Hne).
      apply (mapM_Raise_bind _ _ _
               (argmax_list row,
                max_list (ClassifierOutputProcessor.odds_row exp row))
               IndexError).
      * apply list_elem_of_fmap. by exists row.
      * unfold ClassifierOutputProcessor.classify.
        rewrite Hkept, py_getitem_out_of_range by exact Hout. reflexivity.
    + by apply classifier_empty_row.
  - intros self out [width height] o c Ho Hc Hs Hout.
    apply (parse_raises_call_raises _ out o Ho).
    rewrite parse_detections_collect.
    apply (collect_raises_bind _ _ _ _ c IndexError Hc Hs).
    destruct c as [[[[[x1 y1] x2] y2] label] score].
    unfold DetectorOutputProcessor.detection_of.
    by rewrite py_getitem_out_of_range by exact Hout.
  - intros self out [width height] o c Ho Hc Hs Hout.
    apply (parse_raises_call_raises _ out o Ho).
    rewrite parse_detections_collect_masks.
    assert (He : exists e,
      InstanceSegmenterOutputProcessor.detection_of self width height c
      = Raise e).
    { destruct c as [[[[[[x1 y1] x2] y2] label] score] soft].
      unfold InstanceSegmenterOutputProcessor.detection_of.
      destruct (np_squeeze0 soft); [|by eexists]. simpl.
      rewrite py_getitem_out_of_range by exact Hout. by eexists. }
    destruct He as [e He].
    by apply (collect_raises_bind _ _ _ _ c e Hc Hs).
  - intros self out [width height] o c Ho Hc Hs Hout.
    apply (parse_raises_call_raises _ out o Ho).
    rewrite parse_detections_labels.
    assert (He : exists e,
      KeypointDetectorOutputProcessor.labels_of self width height c = Raise e).
    { destruct c as [[[[[[x1 y1] x2] y2] label] score] kpts].
      unfold KeypointDetectorOutputProcessor.labels_of.
      destruct (KeypointDetectorOutputProcessor.points_of width height kpts);
        [|by eexists]. simpl.
      rewrite py_getitem_out_of_range by exact Hout. by eexists. }
    destruct He as [e He].
    by apply (collect_raises_bind _ _ _ _ c e Hc Hs).
  - intros labels i Hi.
    destruct (py_getitem_negative labels i Hi) as (label & Hl & Hg).
    by exists label.
Qed.

Lemma class_index_out_of_range_raises_witness :
  let self := DetectorOutputProcessor.Build ["a"; "b"]%string (Some 0.5%Q) in
  let o := DetectorOutputProcessor.Output
             [(0, 0, 5, 5); (1, 1, 4, 4)]%Q [0; 2] [0.9; 0.7]%Q in
  let c := (1%Q, 1%Q, 4%Q, 4%Q, 2, 0.7%Q) in
  o ∈ [o]
  /\ c ∈ DetectorOutputProcessor.candidates o
  /\ DetectorOutputProcessor.skipped self c = false
  /\ out_of_range 2 c.1.2
  /\ DetectorOutputProcessor.call self [o] (10, 10) = Raise IndexError.
Proof.
  intros self o c.
  assert (Ho : o ∈ [o]) by (apply elem_of_cons; by left).
  assert (Hc : c ∈ DetectorOutputProcessor.candidates o)
    by (apply elem_of_cons; right; apply elem_of_cons; by left).
  assert (Hout : out_of_range 2 c.1.2) by (right; simpl; lia).
  split; [exact Ho|]. split; [exact Hc|]. split; [reflexivity|].
  split; [exact Hout|].
  destruct (proj1 (proj2 class_index_out_of_range_raises)
              self [o] (10, 10) o c Ho Hc eq_refl Hout) as [e He].
  rewrite He. vm_compute in He. by injection He as <-.
Defined.

(** * Further properties *)

(** ** MinResize: what a resize does to the size *)

Section MinResizeSize.
Import MinResize.

Variable pixels : Type.
Variable F_resize :
  pil_image_or_tensor pixels -> Z * Z -> result (pil_image_or_tensor pixels).
Hypothesis F_resize_size : forall x oh ow y,
  is_ok (image_hw x) = true -> 0 < oh -> 0 < ow ->
  F_resize x (oh, ow) = Ok y ->
  image_hw y = Ok (Z.to_N oh, Z.to_N ow).

(** X1.  A resize is the smallest one that works: one of the two numbers
    of the size handed to [F.resize] is the minimum itself, the size is
    not below the size of the image, and the aspect ratio changes by
    the rounding only ([2 * |oh * w - ow * h| <= h + w]).  In float
    arithmetic this is stated for sizes and minimums below [2^25]. *)
Theorem MinResize_call_resize_is_minimal
    (ar : arithmetic) (minh minw : Z)
    (x : pil_image_or_tensor pixels) (h w : N) :
  image_hw x = Ok (h, w) ->
  (0 < h)%N -> (0 < w)%N ->
  ~ (minh <= Z.of_N h /\ minw <= Z.of_N w) ->
  in_range ar 25 minh minw h w ->
  exists oh ow,
    call F_resize ar (init (MinSeq [minh; minw])) x = F_resize x (oh, ow)
    /\ (oh = minh \/ ow = minw)
    /\ Z.of_N h <= oh /\ Z.of_N w <= ow
    /\ 2 * Z.abs (oh * Z.of_N w - ow * Z.of_N h) <= Z.of_N h + Z.of_N w.
Proof.
  intros Hx Hh Hw Hsmall Hr.
  destruct (target_spec ar minh minw h w Hh Hw Hsmall (in_range_weaken _ _ _ _ _ Hr))
    as (oh & ow & Ht & _ & _ & Hb3 & Hb4 & Hmin).
  pose proof (target_aspect ar minh minw h w oh ow Hh Hw Hsmall Hr Ht) as Hasp.
  exists oh, ow. split; [|auto].
  unfold init. rewrite (call_unfold _ _ _ _ _ _ _ _ Hx), Ht.
  replace (_ && _) with false by lia. reflexivity.
Qed.

(** X2.  The transform never makes an image smaller: when it returns an
    image, the height and the width of that image are not below those
    of the input.  In float arithmetic this is stated for sizes and
    minimums below [2^50]. *)
Theorem MinResize_call_never_shrinks
    (ar : arithmetic) (self : t) (x y : pil_image_or_tensor pixels) (h w : N) :
  image_hw x = Ok (h, w) ->
  sizes_in_range ar 50 self x ->
  call F_resize ar self x = Ok y ->
  exists h' w', image_hw y = Ok (h', w') /\ (h <= h')%N /\ (w <= w')%N.
Proof.
  intros Hx Hr Hcall.
  destruct self as [[|minh [|minw [|? ?]]]];
    try (unfold call in Hcall; rewrite Hx in Hcall; discriminate).
  specialize (Hr minh minw h w eq_refl Hx).
  rewrite (call_unfold _ _ _ _ _ _ _ _ Hx) in Hcall.
  destruct ((minh <=? Z.of_N h) && (minw <=? Z.of_N w)) eqn:Hfit.
  - injection Hcall as <-. exists h, w. split; [exact Hx|lia].
  - destruct (N.eq_dec h 0%N) as [Hh0|Hh0];
      [rewrite (target_zero ar) in Hcall by auto; discriminate|].
    destruct (N.eq_dec w 0%N) as [Hw0|Hw0];
      [rewrite (target_zero ar) in Hcall by auto; discriminate|].
    assert (Hh : (0 < h)%N) by lia.
    assert (Hw : (0 < w)%N) by lia.
    assert (Hsmall : ~ (minh <= Z.of_N h /\ minw <= Z.of_N w)) by lia.
    destruct (target_spec ar minh minw h w Hh Hw Hsmall Hr)
      as (oh & ow & Ht & _ & _ & Hb3 & Hb4 & _).
    rewrite Ht in Hcall. cbn [mbind result_bind] in Hcall.
    exists (Z.to_N oh), (Z.to_N ow).
    split; [apply (F_resize_size x); [by rewrite Hx|lia|lia|exact Hcall]|lia].
Qed.

Lemma image_hw_tensor (s : list N) (d : pixels) :
  is_ok (image_hw (Tensor s d)) = true <-> (2 <= length s)%nat.
Proof.
  unfold image_hw, py_slice, py_slice_bound.
  change (-2 <? 0) with true. cbv iota.
  destruct (Z.ltb_spec (Z.of_nat (length s)) 0) as [?|_]; [lia|].
  rewrite Z.min_id.
  destruct (Nat.le_gt_cases 2 (length s)) as [Hge|Hlt].
  - replace (Z.to_nat (Z.max 0 (-2 + Z.of_nat (length s))))
      with (length s - 2)%nat by lia.
    replace (Z.to_nat (Z.of_nat (length s) - Z.max 0 (-2 + Z.of_nat (length s))))
      with 2%nat by lia.
    assert (Hlen : length (take 2 (drop (length s - 2) s)) = 2%nat)
      by (rewrite length_take, length_drop; lia).
    destruct (take 2 (drop (length s - 2) s)) as [|a [|b [|? ?]]];
      try discriminate. simpl. tauto.
  - replace (Z.to_nat (Z.max 0 (-2 + Z.of_nat (length s)))) with 0%nat by lia.
    rewrite drop_0, take_ge by lia.
    destruct s as [|a [|b ?]]; simpl in *; try lia; split; (discriminate || lia).
Qed.

(** X3.  When the transform returns and when it raises: it returns for
    an image, or a tensor with at least two dimensions, and a pair of
    minimums, provided that the minimums are met, or that neither the
    height nor the width is zero and [F.resize] returns for the target
    size; in every other case it raises, with [ZeroDivisionError] for
    a zero height or width below its minimum.  In float arithmetic this
    is stated for sizes and minimums below [2^50]. *)
Theorem MinResize_call_returns_iff
    (ar : arithmetic) (self : t) (x : pil_image_or_tensor pixels) :
  sizes_in_range ar 50 self x ->
  (is_ok (call F_resize ar self x) = true <->
   exists h w minh minw,
     image_hw x = Ok (h, w)
     /\ min_output_size self = [minh; minw]
     /\ ((minh <= Z.of_N h /\ minw <= Z.of_N w)
         \/ ((0 < h)%N /\ (0 < w)%N
             /\ exists size,
                  target ar minh minw (Z.of_N h) (Z.of_N w) = Ok size
                  /\ is_ok (F_resize x size) = true)))
  /\ (forall h w minh minw,
        image_hw x = Ok (h, w) -> min_output_size self = [minh; minw] ->
        ~ (minh <= Z.of_N h /\ minw <= Z.of_N w) ->
        h = 0%N \/ w = 0%N ->
        call F_resize ar self x = Raise ZeroDivisionError).
Proof.
  intros Hr. split.
  2:{ intros h w minh minw Hx Hs Hsmall Hz.
      specialize (Hr minh minw h w Hs Hx).
      destruct self as [l]. simpl in Hs. subst l.
      rewrite (call_unfold _ _ _ _ _ _ _ _ Hx).
      replace (_ && _) with false by lia.
      rewrite (target_zero ar) by auto. reflexivity. }
  destruct (image_hw x) as [[h w]|e] eqn:Hx.
  2:{ unfold call. rewrite Hx. simpl. split; [discriminate|].
      by intros (? & ? & ? & ? & ? & _). }
  destruct self as [[|minh [|minw [|? ?]]]];
    try (unfold call; rewrite Hx; simpl; split; [discriminate|];
         by intros (? & ? & ? & ? & _ & ? & _)).
  specialize (Hr minh minw h w eq_refl Hx).
  rewrite (call_unfold _ _ _ _ _ _ _ _ Hx). simpl min_output_size. split.
  - intros Hok. exists h, w, minh, minw. split; [reflexivity|].
    split; [reflexivity|].
    destruct ((minh <=? Z.of_N h) && (minw <=? Z.of_N w)) eqn:Hfit;
      [left; lia|right].
    destruct (N.eq_dec h 0%N) as [Hh0|Hh0];
      [rewrite (target_zero ar) in Hok by auto; discriminate|].
    destruct (N.eq_dec w 0%N) as [Hw0|Hw0];
      [rewrite (target_zero ar) in Hok by auto; discriminate|].
    split; [lia|]. split; [lia|].
    destruct (target ar minh minw (Z.of_N h) (Z.of_N w)) as [size|e];
      [|discriminate].
    exists size. split; [reflexivity|exact Hok].
  - intros (h' & w' & minh' & minw' & [= <- <-] & [= <- <-] & Hcase).
    destruct ((minh <=? Z.of_N h) && (minw <=? Z.of_N w)) eqn:Hfit;
      [reflexivity|].
    destruct Hcase as [?|(_ & _ & size & -> & Hok)]; [lia|exact Hok].
Qed.

End MinResizeSize.

Lemma MinResize_call_resize_is_minimal_witness :
  let x := MinResize.Tensor [3; 100; 150]%N tt in
  MinResize.image_hw x = Ok (100, 150)%N
  /\ (0 < 100)%N /\ (0 < 150)%N
  /\ ~ (224 <= Z.of_N 100 /\ 224 <= Z.of_N 150)
  /\ MinResize.in_range Float64 25 224 224 100 150
  /\ exists oh ow,
       MinResize.call MinResize.resize_size Float64
         (MinResize.init (MinResize.MinSeq [224; 224])) x
       = MinResize.resize_size x (oh, ow)
       /\ (oh = 224 \/ ow = 224).
Proof.
  intros x.
  assert (Hsmall : ~ (224 <= Z.of_N 100 /\ 224 <= Z.of_N 150)) by (cbn; lia).
  assert (Hr : MinResize.in_range Float64 25 224 224 100 150) by (cbn; lia).
  split; [reflexivity|]. split; [lia|]. split; [lia|]. split; [exact Hsmall|].
  split; [exact Hr|].
  destruct (MinResize_call_resize_is_minimal unit MinResize.resize_size
              Float64 224 224 x 100%N 150%N eq_refl)
    as (oh & ow & Hc & Hm & _); [lia|lia|exact Hsmall|exact Hr|].
  exists oh, ow. split; [exact Hc|exact Hm].
Defined.

Lemma MinResize_call_never_shrinks_witness :
  let self := MinResize.init (MinResize.MinDim 200) in
  let x := MinResize.PILImage (50, 100)%N tt in
  let y := MinResize.PILImage (200, 400)%N tt in
  MinResize.image_hw x = Ok (100, 50)%N
  /\ MinResize.sizes_in_range Float64 50 self x
  /\ MinResize.call MinResize.resize_size Float64 self x = Ok y
  /\ exists h' w',
       MinResize.image_hw y = Ok (h', w') /\ (100 <= h')%N /\ (50 <= w')%N.
Proof.
  intros self x y.
  assert (Hr : MinResize.sizes_in_range Float64 50 self x).
  { intros minh minw h w [= <- <-] [= <- <-]. cbn. lia. }
  assert (Hcall : MinResize.call MinResize.resize_size Float64 self x = Ok y)
    by (vm_compute; reflexivity).
  split; [reflexivity|]. split; [exact Hr|]. split; [exact Hcall|].
  exact (MinResize_call_never_shrinks unit MinResize.resize_size
           (@resize_size_hw unit) Float64 self x y 100%N 50%N eq_refl Hr Hcall).
Defined.

Lemma MinResize_call_returns_iff_witness :
  let self := MinResize.init (MinResize.MinDim 224) in
  let x := MinResize.Tensor [100; 150]%N tt in
  MinResize.sizes_in_range Float64 50 self x
  /\ MinResize.target Float64 224 224 100 150 = Ok (224, 336)
  /\ is_ok (MinResize.call MinResize.resize_size Float64 self x) = false.
Proof.
  intros self x.
  assert (Hr : MinResize.sizes_in_range Float64 50 self x).
  { intros minh minw h w [= <- <-] [= <- <-]. cbn. lia. }
  split; [exact Hr|]. split; [vm_compute; reflexivity|].
  destruct (MinResize_call_returns_iff unit MinResize.resize_size
              Float64 self x Hr) as [[Hif _] _].
  destruct (is_ok (MinResize.call MinResize.resize_size Float64 self x))
    eqn:Hok; [|reflexivity].
  destruct (Hif eq_refl)
    as (h & w & minh & minw & Hx & Hs & [Hfit|(_ & _ & size & Ht & Hres)]).
  - injection Hx as <- <-. injection Hs as <- <-. cbn in Hfit. lia.
  - injection Hx as <- <-. injection Hs as <- <-.
    assert (E : MinResize.target Float64 224 224 (Z.of_N 100) (Z.of_N 150)
                = Ok (224, 336)) by (vm_compute; reflexivity).
    rewrite E in Ht. injection Ht as <-. discriminate Hres.
Defined.

(** ** TorchModel: class labels and transforms *)

Lemma str_split_cons (sep : ascii) (s : string) :
  exists w ws, str_split sep s = w :: ws.
Proof.
  destruct s as [|c s]; simpl; [by eexists _, _|].
  destruct (Ascii.eqb c sep); [by eexists _, _|].
  destruct (str_split sep s); by eexists _, _.
Qed.

Lemma str_join_cons_cons (sep : ascii) (w w' : string) (ws : list string) :
  str_join sep (w :: w' :: ws)
  = String.append w (String sep (str_join sep (w' :: ws))).
Proof. reflexivity. Qed.

(** Joining what [split] gives with the separator gives the string back. *)
Lemma str_join_split (sep : ascii) (s : string) :
  str_join sep (str_split sep s) = s.
Proof.
  induction s as [|c s IH]; [reflexivity|]. cbn [str_split].
  destruct (str_split_cons sep s) as (w & ws & Hs). rewrite Hs in IH |- *.
  destruct (Ascii.eqb_spec c sep) as [->|Hne].
  - rewrite str_join_cons_cons, IH. reflexivity.
  - destruct ws as [|w' ws].
    + simpl in IH |- *. by rewrite IH.
    + rewrite str_join_cons_cons in IH |- *. rewrite <- IH. reflexivity.
Qed.

Lemma str_split_length (sep : ascii) (s : string) :
  length (str_split sep s) = S (str_count sep s).
Proof.
  induction s as [|c s IH]; [reflexivity|]. cbn [str_split str_count].
  destruct (str_split_cons sep s) as (w & ws & Hs). rewrite Hs in IH |- *.
  destruct (Ascii.eqb c sep); simpl in *; lia.
Qed.

Lemma str_split_no_sep (sep : ascii) (s : string) :
  Forall (fun w => str_count sep w = 0%nat) (str_split sep s).
Proof.
  induction s as [|c s IH]; [by repeat constructor|]. cbn [str_split].
  destruct (Ascii.eqb c sep) eqn:Hc; [by constructor|].
  destruct (str_split sep s) as [|w ws].
  - repeat constructor. simpl. by rewrite Hc.
  - apply Forall_cons in IH as [Hw Hws]. constructor; [|exact Hws].
    simpl. by rewrite Hc.
Qed.

Section TorchModelLabels.
Import TorchModel.

Variable model processor : Type.
Variable load_class_labels : string -> result (list string).
Variable load_model : TorchModelConfig -> result model.
Variable build_output_processor :
  TorchModelConfig -> list string -> result processor.

(** X4.  With a [labels_string] that is not empty the class labels are
    its parts between the commas, whatever [labels_path] is and without
    a labels map being read: there is one label more than there are
    commas, no label holds a comma, and the labels joined by commas are
    the string again. *)
Theorem get_class_labels_of_string (config : TorchModelConfig) :
  truthy_str (labels_string config) = true ->
  exists s labels,
    labels_string config = Some s
    /\ get_class_labels load_class_labels config = Ok labels
    /\ (forall load', get_class_labels load' config = Ok labels)
    /\ str_join "," labels = s
    /\ length labels = S (str_count "," s)
    /\ Forall (fun w => str_count "," w = 0%nat) labels.
Proof.
  intros Ht. unfold get_class_labels. rewrite Ht.
  destruct (labels_string config) as [s|] eqn:Hs; [|discriminate].
  exists s, (str_split "," s). simpl.
  split; [reflexivity|]. split; [reflexivity|]. split; [reflexivity|].
  split; [apply str_join_split|].
  split; [apply str_split_length|apply str_split_no_sep].
Qed.

(** X5.  The pipeline that [_build_transforms] returns starts with the
    conversion to a PIL image, has at most one resize, then the
    conversion to a tensor, and ends with the normalisation exactly when
    [image_mean] and [image_std] are both given.  The resize is the one
    of the first sizing option that is given, in the order
    [image_min_size], [image_min_dim], [image_size], [image_dim]. *)
Theorem build_transforms_pipeline
    (config : TorchModelConfig) (ts : list transform) :
  build_transforms config = Ok ts ->
  exists resize normalize,
    ts = ToPILImage :: resize ++ ToTensor :: normalize
    /\ (length resize <= 1)%nat
    /\ resize =
         (if truthy_list (image_min_size config)
          then [MinResize_ (MinResize.Build (default [] (image_min_size config)))]
          else if truthy_int (image_min_dim config)
          then [MinResize_ (MinResize.Build
                  [default 0 (image_min_dim config);
                   default 0 (image_min_dim config)])]
          else if truthy_list (image_size config)
          then [Resize (inl (default [] (image_size config)))]
          else if truthy_int (image_dim config)
          then [Resize (inr (default 0 (image_dim config)))]
          else [])
    /\ truthy_list (image_mean config) = truthy_list (image_std config)
    /\ normalize =
         (if truthy_list (image_mean config)
          then [Normalize (default [] (image_mean config))
                          (default [] (image_std config))]
          else []).
Proof.
  unfold build_transforms. intros Hts.
  destruct (truthy_list (image_mean config)) eqn:Hm,
    (truthy_list (image_std config)) eqn:Hv; simpl in Hts; try discriminate;
    injection Hts as <-; eexists _, _;
    (split; [|split; [|split; [reflexivity|split; reflexivity]]]);
    destruct (truthy_list (image_min_size config)),
      (truthy_list (image_size config)),
      (truthy_int (image_min_dim config)),
      (truthy_int (image_dim config)); simpl; (reflexivity || lia).
Qed.

(** X6.  A model that the constructor returns is consistent with its
    configuration: a source of labels was given, [image_mean] and
    [image_std] were both given or both left out, the number of classes
    is the number of class labels, and the output processor was built
    with the class labels of the model. *)
Theorem torch_model_init_consistent (config : TorchModelConfig) (m : t model processor) :
  init model processor load_class_labels load_model build_output_processor
    config = Ok m ->
  (truthy_str (labels_string config) = true
   \/ truthy_str (labels_path config) = true)
  /\ truthy_list (image_mean config) = truthy_list (image_std config)
  /\ TorchModel.config _ _ m = config
  /\ get_class_labels load_class_labels config = Ok (_class_labels _ _ m)
  /\ _num_classes _ _ m = Z.of_nat (length (_class_labels _ _ m))
  /\ build_transforms config = Ok (_transforms _ _ m)
  /\ load_model config = Ok (_model _ _ m)
  /\ build_output_processor config (_class_labels _ _ m)
     = Ok (_output_processor _ _ m).
Proof.
  unfold init. intros Hinit.
  apply bind_Ok in Hinit as (labels & Hlabels & Hinit).
  apply bind_Ok in Hinit as (ts & Hts & Hinit).
  apply bind_Ok in Hinit as (md & Hmd & Hinit).
  apply bind_Ok in Hinit as (op & Hop & [= <-]). simpl.
  split.
  { destruct (truthy_str (labels_string config)) eqn:H1; [by left|].
    destruct (truthy_str (labels_path config)) eqn:H2; [by right|].
    unfold get_class_labels in Hlabels. by rewrite H1, H2 in Hlabels. }
  split; [|done].
  destruct (build_transforms_pipeline config ts Hts) as (? & ? & _ & _ & _ & H & _).
  exact H.
Qed.

End TorchModelLabels.

Lemma get_class_labels_of_string_witness :
  let config :=
    TorchModel.Config "torchvision.models.resnet50"
      "fiftyone.utils.torch.ClassifierOutputProcessor"
      (Some "cat,dog,bird"%string) (Some "labels.json"%string) None
      None None None None None None in
  TorchModel.truthy_str (TorchModel.labels_string config) = true
  /\ exists s labels,
       TorchModel.labels_string config = Some s
       /\ TorchModel.get_class_labels (fun _ => Raise IndexError) config
          = Ok labels
       /\ labels = ["cat"; "dog"; "bird"]%string.
Proof.
  intros config. split; [reflexivity|].
  destruct (get_class_labels_of_string (fun _ => Raise IndexError) config eq_refl)
    as (s & labels & Hs & Hl & _).
  exists s, labels. split; [exact Hs|]. split; [exact Hl|].
  vm_compute in Hl. by injection Hl as <-.
Defined.

Lemma build_transforms_pipeline_witness :
  let config :=
    TorchModel.Config "torchvision.models.resnet50"
      "fiftyone.utils.torch.ClassifierOutputProcessor"
      (Some "cat,dog"%string) None None
      (Some [224; 224]) (Some 256) None (Some 300)
      (Some [0.485; 0.456; 0.406]%Q) (Some [0.229; 0.224; 0.225]%Q) in
  let ts :=
    [ TorchModel.ToPILImage;
      TorchModel.MinResize_ (MinResize.Build [224; 224]);
      TorchModel.ToTensor;
      TorchModel.Normalize [0.485; 0.456; 0.406]%Q [0.229; 0.224; 0.225]%Q ] in
  TorchModel.build_transforms config = Ok ts
  /\ exists resize normalize,
       ts = TorchModel.ToPILImage :: resize ++ TorchModel.ToTensor :: normalize
       /\ (length resize <= 1)%nat.
Proof.
  intros config ts.
  assert (Hts : TorchModel.build_transforms config = Ok ts) by reflexivity.
  split; [exact Hts|].
  destruct (build_transforms_pipeline config ts Hts)
    as (resize & normalize & H1 & H2 & _).
  by exists resize, normalize.
Defined.

Lemma torch_model_init_consistent_witness :
  let config :=
    TorchModel.Config "torchvision.models.resnet50"
      "fiftyone.utils.torch.ClassifierOutputProcessor"
      (Some "cat,dog"%string) None None
      None (Some 256) None None None None in
  exists m,
    TorchModel.init unit (list string) (fun _ => Ok []) (fun _ => Ok tt)
      (fun _ labels => Ok labels) config = Ok m
    /\ TorchModel._num_classes _ _ m = 2
    /\ TorchModel._output_processor _ _ m = ["cat"; "dog"]%string.
Proof.
  intros config. eexists. split; [reflexivity|].
  match goal with
  | |- context [TorchModel._num_classes _ _ ?m] =>
      destruct (torch_model_init_consistent unit (list string)
                  (fun _ => Ok []) (fun _ => Ok tt)
                  (fun _ labels => Ok labels) config m eq_refl)
        as (_ & _ & _ & _ & Hn & _)
  end.
  split; [rewrite Hn; reflexivity|reflexivity].
Defined.

(** ** ClassifierOutputProcessor: batches *)

Lemma singletons_concat {A B} (P : A -> B -> Prop) (l : list A)
    (rs : list (list B)) :
  Forall2 (fun x r => exists e, r = [e] /\ P x e) l rs ->
  Forall2 P l (concat rs).
Proof.
  induction 1 as [|x r l rs (e & -> & He) _ IH]; [constructor|].
  simpl. by constructor.
Qed.

Section ClassifierBatches.
Import ClassifierOutputProcessor.

Variable exp : Q -> Q.

Lemma classify_singleton (self : t) (ps : Z * Q)
    (r : list (option Classification)) :
  classify self ps = Ok r -> exists e, r = [e].
Proof.
  destruct ps as [p sc]. unfold classify.
  destruct (below_thresh _ _); simpl; [intros [= <-]; by eexists|].
  destruct (py_getitem (class_labels self) p); simpl; [|discriminate].
  intros [= <-]. by eexists.
Qed.

Lemma call_Ok_iff (self : t) (logits : list (list Q)) (fs : Z * Z)
    (preds : list (option Classification)) :
  call exp self logits fs = Ok preds <-> Forall2 (row_entry exp self) logits preds.
Proof.
  split.
  - intros Hcall.
    destruct (nonempty_rows_or_empty logits) as [Hne|Hempty].
    2:{ destruct (classifier_empty_row exp self logits fs Hempty) as [e He].
        congruence. }
    rewrite (classifier_loop exp self logits fs Hne) in Hcall.
    apply bind_Ok in Hcall as (rs & Hrs & [= <-]).
    apply mapM_Ok_Forall2, Forall2_fmap_l in Hrs.
    apply singletons_concat.
    apply Forall2_same_length_lookup. split; [by eapply Forall2_length|].
    intros i row r Hrow Hr.
    pose proof (Forall2_lookup_lr _ _ _ _ _ _ Hrs Hrow Hr) as Hc.
    unfold compose in Hc.
    destruct (classify_singleton _ _ _ Hc) as [e ->].
    exists e. split; [reflexivity|]. split; [|exact Hc].
    by apply (proj1 (Forall_lookup _ _) Hne i row).
  - intros Hall.
    assert (Hne : Forall (fun row => row <> []) logits).
    { apply Forall_lookup. intros i row Hrow.
      destruct (Forall2_lookup_l _ _ _ _ _ Hall Hrow) as (e & _ & Hne & _).
      exact Hne. }
    rewrite (classifier_loop exp self logits fs Hne).
    assert (Hrs : mapM (classify self)
              ((fun row => (argmax_list row, max_list (odds_row exp row)))
                 <$> logits)
            = Ok ((fun e => [e]) <$> preds)).
    { apply mapM_Ok_Forall2. apply Forall2_fmap_2.
      eapply Forall2_impl; [exact Hall|]. intros row e [_ He]. exact He. }
    rewrite Hrs.
    change (Ok (concat ((fun e => [id e]) <$> preds)) = Ok preds).
    by rewrite (concat_fmap_singleton id), list_fmap_id.
Qed.

(** X8.  The rows of a batch do not influence each other: the call on
    two batches put together returns exactly when it returns on both,
    and then with the two results put together. *)
Theorem classifier_call_app (self : t) (l1 l2 : list (list Q)) (fs : Z * Z)
    (preds : list (option Classification)) :
  call exp self (l1 ++ l2) fs = Ok preds <->
  exists p1 p2,
    call exp self l1 fs = Ok p1 /\ call exp self l2 fs = Ok p2
    /\ preds = p1 ++ p2.
Proof.
  rewrite call_Ok_iff, Forall2_app_inv_l. split.
  - intros (p1 & p2 & H1 & H2 & ->). exists p1, p2.
    split; [exact (proj2 (call_Ok_iff self l1 fs p1) H1)|].
    split; [exact (proj2 (call_Ok_iff self l2 fs p2) H2)|done].
  - intros (p1 & p2 & H1 & H2 & ->). exists p1, p2.
    split; [exact (proj1 (call_Ok_iff self l1 fs p1) H1)|].
    split; [exact (proj1 (call_Ok_iff self l2 fs p2) H2)|done].
Qed.

End ClassifierBatches.

(** ** The detection processors: what is kept and what is emitted *)

Lemma py_getitem_elem {A} (l : list A) (i : Z) (a : A) :
  py_getitem l i = Ok a -> a ∈ l.
Proof.
  unfold py_getitem. destruct (_ || _); [discriminate|].
  destruct (l !! _) eqn:Hl; [|discriminate]. intros [= <-].
  by eapply list_elem_of_lookup_2.
Qed.

Section CollectProperties.
Context {A B : Type}.
Variable g : A -> result B.

Lemma collect_Ok_Forall2 (skip : A -> bool) (l : list A) (ys : list B) :
  collect skip g l = Ok ys ->
  Forall2 (fun x y => g x = Ok y) (filter (fun x => skip x = false) l) ys.
Proof.
  revert ys. induction l as [|x l IH]; intros ys.
  - intros [= <-]. constructor.
  - rewrite collect_cons, filter_cons. unfold emit.
    destruct (skip x) eqn:Hs.
    + rewrite decide_False by done. simpl.
      destruct (collect skip g l) as [zs|]; [|discriminate].
      intros [= <-]. by apply IH.
    + rewrite decide_True by done.
      destruct (g x) as [y|] eqn:Hy; [|discriminate]. simpl.
      destruct (collect skip g l) as [zs|]; [|discriminate].
      intros [= <-]. constructor; [exact Hy|by apply IH].
Qed.

(** A test that skips more keeps a part of what was kept. *)
Lemma collect_skip_more (skip1 skip2 : A -> bool) (l : list A) (ys1 : list B) :
  (forall x, skip1 x = true -> skip2 x = true) ->
  collect skip1 g l = Ok ys1 ->
  exists ys2, collect skip2 g l = Ok ys2 /\ sublist ys2 ys1.
Proof.
  intros Hmore. revert ys1. induction l as [|x l IH]; intros ys1.
  - intros [= <-]. by exists [].
  - rewrite !collect_cons. unfold emit.
    destruct (skip1 x) eqn:H1.
    + rewrite (Hmore x H1). simpl.
      destruct (collect skip1 g l) as [zs|]; [|discriminate].
      intros [= <-]. destruct (IH zs eq_refl) as (ys2 & -> & Hsub).
      by exists ys2.
    + destruct (g x) as [y|]; [|discriminate]. simpl.
      destruct (collect skip1 g l) as [zs|]; [|discriminate].
      intros [= <-]. destruct (IH zs eq_refl) as (ys2 & -> & Hsub).
      destruct (skip2 x); simpl.
      * exists ys2. split; [reflexivity|]. by apply sublist_cons.
      * exists (y :: ys2). split; [reflexivity|]. by apply sublist_skip.
Qed.

End CollectProperties.

(** One threshold is at least as strict as another. *)
Lemma below_thresh_stricter (t1 t2 : option Q) (score : Q) :
  match t1, t2 with
  | None, _ => True
  | Some a, Some b => (a <= b)%Q
  | Some _, None => False
  end ->
  below_thresh t1 score = true -> below_thresh t2 score = true.
Proof.
  destruct t1 as [a|], t2 as [b|]; simpl; try done.
  intros Hab. destruct (Qlt_le_dec score a), (Qlt_le_dec score b);
    try done. lra.
Qed.

Section DetectorInvariants.
Import DetectorOutputProcessor.

(** X9.  Raising the confidence threshold only removes detections: if
    an image is parsed with one threshold (or with none), it is parsed
    with every higher threshold too, and the detections are then a part
    of the former ones, in the same order. *)
Theorem detector_threshold_monotone
    (labels : list string) (t1 t2 : option Q) (o : output)
    (frame_size : Z * Z) (dets1 : list Detection) :
  match t1, t2 with
  | None, _ => True
  | Some a, Some b => (a <= b)%Q
  | Some _, None => False
  end ->
  parse_detections (Build labels t1) o frame_size = Ok (Detections dets1) ->
  exists dets2,
    parse_detections (Build labels t2) o frame_size = Ok (Detections dets2)
    /\ sublist dets2 dets1.
Proof.
  intros Ht. destruct frame_size as [width height].
  rewrite !parse_detections_collect. intros Hparse.
  apply bind_Ok in Hparse as (ds & Hds & [= <-]).
  destruct (collect_skip_more (detection_of (Build labels t1) width height)
              (skipped (Build labels t1)) (skipped (Build labels t2))
              (candidates o) ds) as (ds2 & Hds2 & Hsub); [|exact Hds|].
  { intros c. unfold skipped. simpl. by apply below_thresh_stricter. }
  exists ds2. split; [|exact Hsub].
  change (detection_of (Build labels t2) width height)
    with (detection_of (Build labels t1) width height).
  by rewrite Hds2.
Qed.

(** X10.  What the detector emits for an image: at most one detection
    for each candidate, and for each detection a label of
    [class_labels], a box of four numbers, no mask, and a confidence
    that is not below the threshold. *)
Theorem detector_detections_invariant
    (self : t) (o : output) (frame_size : Z * Z) (dets : list Detection) :
  parse_detections self o frame_size = Ok (Detections dets) ->
  (length dets <= length (boxes o))%nat
  /\ (length dets <= length (labels o))%nat
  /\ (length dets <= length (scores o))%nat
  /\ Forall (fun d =>
        det_label d ∈ class_labels self
        /\ length (det_bounding_box d) = 4%nat
        /\ det_mask d = None
        /\ forall t, confidence_thresh self = Some t ->
                     ~ (det_confidence d < t)%Q) dets.
Proof.
  destruct frame_size as [width height].
  rewrite parse_detections_collect. intros Hparse.
  apply bind_Ok in Hparse as (ds & Hds & [= <-]).
  apply collect_Ok_Forall2 in Hds.
  assert (Hlen : (length ds <= length (candidates o))%nat).
  { rewrite <- (Forall2_length _ _ _ Hds). apply length_filter. }
  unfold candidates, zip3 in Hlen. rewrite !length_zip_with in Hlen.
  split; [lia|]. split; [lia|]. split; [lia|].
  apply Forall_lookup. intros i d Hd.
  destruct (Forall2_lookup_r _ _ _ _ _ Hds Hd) as (c & Hc & Hg).
  apply list_elem_of_lookup_2, list_elem_of_filter in Hc as [Hkept _].
  destruct c as [[[[[x1 y1] x2] y2] label] score].
  unfold detection_of in Hg. unfold skipped in Hkept. simpl in Hkept.
  destruct (py_getitem (class_labels self) label) as [lbl|] eqn:Hl;
    [|discriminate].
  injection Hg as <-. simpl.
  split; [by eapply py_getitem_elem|]. split; [reflexivity|].
  split; [reflexivity|]. by apply below_thresh_false.
Qed.

End DetectorInvariants.

Lemma detector_threshold_monotone_witness :
  let o := DetectorOutputProcessor.Output
             [(10, 20, 30, 60); (0, 0, 50, 50)]%Q [0; 0] [9 # 10; 1 # 2]%Q in
  exists dets1 dets2,
    (3 # 10 <= 6 # 10)%Q
    /\ DetectorOutputProcessor.parse_detections
         (DetectorOutputProcessor.Build ["a"]%string (Some (3 # 10))) o
         (100, 200) = Ok (Detections dets1)
    /\ DetectorOutputProcessor.parse_detections
         (DetectorOutputProcessor.Build ["a"]%string (Some (6 # 10))) o
         (100, 200) = Ok (Detections dets2)
    /\ sublist dets2 dets1
    /\ length dets1 = 2%nat /\ length dets2 = 1%nat.
Proof.
  intros o.
  assert (Hle : (3 # 10 <= 6 # 10)%Q) by discriminate.
  eassert (Hparse : DetectorOutputProcessor.parse_detections
                     (DetectorOutputProcessor.Build ["a"]%string (Some (3 # 10)))
                     o (100, 200) = Ok (Detections _))
    by (vm_compute; reflexivity).
  destruct (detector_threshold_monotone ["a"]%string (Some (3 # 10))
              (Some (6 # 10)) o (100, 200) _ Hle Hparse)
    as (dets2 & Hparse2 & Hsub).
  eexists _, dets2. split; [exact Hle|]. split; [exact Hparse|].
  split; [exact Hparse2|]. split; [exact Hsub|]. split; [reflexivity|].
  vm_compute in Hparse2. by injection Hparse2 as <-.
Defined.

Lemma detector_detections_invariant_witness :
  let self := DetectorOutputProcessor.Build ["a"; "b"]%string (Some (1 # 2)) in
  let o := DetectorOutputProcessor.Output
             [(10, 20, 30, 60); (0, 0, 50, 50)]%Q [1; 0; 1] [9 # 10; 1 # 10]%Q in
  exists dets,
    DetectorOutputProcessor.parse_detections self o (100, 200)
    = Ok (Detections dets)
    /\ (length dets <= 2)%nat
    /\ Forall (fun d => det_label d ∈ ["a"; "b"]%string) dets.
Proof.
  intros self o.
  eassert (Hparse : DetectorOutputProcessor.parse_detections self o (100, 200)
                    = Ok (Detections _)) by (vm_compute; reflexivity).
  destruct (detector_detections_invariant self o (100, 200) _ Hparse)
    as (Hlen & _ & _ & Hall).
  eexists. split; [exact Hparse|]. split; [exact Hlen|].
  eapply Forall_impl; [exact Hall|]. by intros d [Hd _].
Defined.

(** ** InstanceSegmenterOutputProcessor: the shape of a mask *)

Lemma py_slice_length {A} (l : list A) (start stop : Z) :
  0 <= start <= stop -> stop <= Z.of_nat (length l) ->
  length (py_slice l start stop) = Z.to_nat (stop - start).
Proof.
  intros H1 H2. unfold py_slice, py_slice_bound.
  destruct (Z.ltb_spec start 0) as [?|_]; [lia|].
  destruct (Z.ltb_spec stop 0) as [?|_]; [lia|].
  rewrite length_take, length_drop. lia.
Qed.

(** A negative start counts from the end: the slice is empty when the
    stop is not beyond the position it reaches. *)
Lemma py_slice_negative_start_nil {A} (l : list A) (start stop : Z) :
  start < 0 -> 0 <= stop <= Z.of_nat (length l) + start ->
  py_slice l start stop = [].
Proof.
  intros H1 H2. unfold py_slice, py_slice_bound.
  destruct (Z.ltb_spec start 0) as [_|?]; [|lia].
  destruct (Z.ltb_spec stop 0) as [?|_]; [lia|].
  replace (Z.to_nat _) with 0%nat by lia. reflexivity.
Qed.

Section InstanceSegmenterShape.
Import InstanceSegmenterOutputProcessor.

Lemma parse_detections_kept
    (self : t) (o : output) (width height : Z) (dets : list Detection) :
  parse_detections self o (width, height) = Ok (Detections dets) ->
  Forall2 (fun c d => detection_of self width height c = Ok d)
    (filter (fun c => skipped self c = false) (candidates o)) dets.
Proof.
  rewrite parse_detections_collect_masks. intros Hparse.
  apply bind_Ok in Hparse as (ds & Hds & [= <-]).
  by apply collect_Ok_Forall2.
Qed.

(** X11.  The shape of the mask of a detection, for a soft mask of [H]
    rows of [W] numbers.  With the rounded box inside the soft mask the
    mask has [round(y2) - round(y1)] rows of [round(x2) - round(x1)]
    entries.  With a rounded top that is negative, the rows are counted
    from the bottom: the mask has no row at all when the rounded bottom
    of the box is not below row [H + round(y1)], although the box
    overlaps the frame. *)
Theorem instance_segmenter_mask_shape
    (self : t) (o : output) (frame_size : Z * Z) (dets : list Detection) :
  parse_detections self o frame_size = Ok (Detections dets) ->
  Forall2 (fun (c : candidate) d =>
      let '(x1, y1, x2, y2, label, score, soft_mask) := c in
      exists plane mask,
        soft_mask = [plane] /\ det_mask d = Some mask
        /\ (forall W,
              Forall (fun row => Z.of_nat (length row) = W) plane ->
              0 <= py_round y1 <= py_round y2 ->
              py_round y2 <= Z.of_nat (length plane) ->
              0 <= py_round x1 <= py_round x2 -> py_round x2 <= W ->
              Z.of_nat (length mask) = py_round y2 - py_round y1
              /\ Forall (fun row => Z.of_nat (length row)
                                    = py_round x2 - py_round x1) mask)
        /\ (py_round y1 < 0 ->
            0 <= py_round y2 <= Z.of_nat (length plane) + py_round y1 ->
            mask = []))
    (filter (fun c => skipped self c = false) (candidates o)) dets.
Proof.
  destruct frame_size as [width height]. intros Hparse.
  eapply Forall2_impl; [exact (parse_detections_kept _ _ _ _ _ Hparse)|].
  intros [[[[[[x1 y1] x2] y2] label] score] soft] d Hd.
  unfold detection_of in Hd.
  destruct soft as [|plane [|? ?]]; try discriminate. simpl in Hd.
  destruct (py_getitem (class_labels self) label) as [lbl|]; [|discriminate].
  injection Hd as <-. exists plane. eexists.
  split; [reflexivity|]. split; [reflexivity|]. split.
  - intros W Hrect Hy Hy2 Hx Hx2. unfold greater_than, slice2. split.
    + rewrite !length_fmap, py_slice_length by lia. lia.
    + rewrite <- list_fmap_compose. apply Forall_fmap, Forall_lookup.
      intros i row Hrow. simpl.
      assert (Hin : row ∈ plane).
      { apply list_elem_of_lookup_2 in Hrow.
        unfold py_slice in Hrow.
        by apply subseteq_take, subseteq_drop in Hrow. }
      pose proof (proj1 (Forall_forall _ _) Hrect row Hin) as Hw.
      simpl in Hw. rewrite length_fmap, py_slice_length by lia. lia.
  - intros Hy1 Hy2. unfold greater_than, slice2.
    by rewrite py_slice_negative_start_nil.
Qed.

End InstanceSegmenterShape.

Lemma instance_segmenter_mask_shape_witness :
  let self := InstanceSegmenterOutputProcessor.init ["cat"]%string None None in
  let o := InstanceSegmenterOutputProcessor.Output
             [(0, (-6) # 10, 2, 2)]%Q [0] [0.8]%Q
             [[[[0.6; 0.6; 0.2]; [0.1; 0.9; 0.3]; [0.5; 0.5; 0.7]]]]%Q in
  exists d,
    InstanceSegmenterOutputProcessor.parse_detections self o (3, 3)
    = Ok (Detections [d])
    /\ py_round ((-6) # 10) = -1
    /\ det_mask d = Some [].
Proof.
  intros self o.
  eassert (Hparse : InstanceSegmenterOutputProcessor.parse_detections self o
                      (3, 3) = Ok (Detections [_]))
    by (vm_compute; reflexivity).
  pose proof (instance_segmenter_mask_shape self o (3, 3) _ Hparse) as Hshape.
  rewrite filter_all in Hshape by (intros c; reflexivity).
  apply Forall2_cons_1 in Hshape as [(plane & mask & Hp & Hm & _ & Hnil) _].
  injection Hp as <-.
  eexists. split; [exact Hparse|]. split; [reflexivity|].
  rewrite Hm. f_equal. apply Hnil; [reflexivity|]. vm_compute. by split.
Defined.

(** ** KeypointDetectorOutputProcessor: the labels of a candidate *)

Lemma py_getitem_lookup {A} (l : list A) (i : Z) (a : A) :
  0 <= i -> py_getitem l i = Ok a -> l !! Z.to_nat i = Some a.
Proof.
  intros Hi. unfold py_getitem.
  destruct (Z.ltb_spec i 0) as [?|_]; [lia|].
  destruct (_ || _); [discriminate|].
  destruct (l !! Z.to_nat i); [|discriminate]. by intros [= <-].
Qed.

Lemma py_getitem_take {A} (l : list A) (n : nat) (i : Z) :
  0 <= i < Z.of_nat n -> py_getitem (take n l) i = py_getitem l i.
Proof.
  intros Hi. unfold py_getitem.
  destruct (Z.ltb_spec i 0) as [?|_]; [lia|].
  rewrite lookup_take_lt by lia. rewrite length_take. cbv zeta.
  destruct (Z.leb_spec (Z.of_nat (n `min` length l)) i),
    (Z.leb_spec (Z.of_nat (length l)) i); simpl; try reflexivity; lia.
Qed.

Lemma zip_fmap_r {A B C} (f : B -> C) (l : list A) (k : list B) :
  zip l (f <$> k) = (fun p => (p.1, f p.2)) <$> zip l k.
Proof.
  revert k. induction l as [|x l IH]; intros [|y k]; try reflexivity.
  csimpl. by rewrite IH.
Qed.

Lemma collect_fmap {A A' B} (skip : A' -> bool) (g : A' -> result B)
    (skip' : A -> bool) (g' : A -> result B) (h : A -> A') (l : list A) :
  (forall x, skip (h x) = skip' x) -> (forall x, g (h x) = g' x) ->
  collect skip g (h <$> l) = collect skip' g' l.
Proof.
  intros Hs Hg. induction l as [|x l IH]; [reflexivity|].
  rewrite fmap_cons, !collect_cons, IH. unfold emit. by rewrite Hs, Hg.
Qed.

Section KeypointStructure.
Import KeypointDetectorOutputProcessor.

Lemma points_of_first_two (width height : Z) (kpts : list (list Q)) :
  points_of width height (take 2 <$> kpts) = points_of width height kpts.
Proof.
  unfold points_of. induction kpts as [|p kpts IH]; [reflexivity|].
  rewrite fmap_cons, !mapM_cons, IH.
  by rewrite !py_getitem_take by lia.
Qed.

(** X13.  Of a keypoint only the first two numbers are used: an image
    is parsed to the same mapping when every keypoint is cut after its
    second number (a visibility flag, for one, never reaches a label). *)
Theorem keypoint_extra_channels_dropped
    (self : t) (o : output) (frame_size : Z * Z) :
  parse_detections self
    (Output (boxes o) (labels o) (scores o)
            ((fun kpts : list (list Q) => take 2 <$> kpts) <$> keypoints o))
    frame_size
  = parse_detections self o frame_size.
Proof.
  destruct frame_size as [width height].
  rewrite !parse_detections_labels. unfold candidates, zip4. simpl.
  rewrite zip_fmap_r.
  rewrite (collect_fmap _ _ (skipped self) (labels_of self width height));
    [reflexivity| |].
  - by intros [[[[[[x1 y1] x2] y2] label] score] kpts].
  - intros [[[[[[x1 y1] x2] y2] label] score] kpts].
    unfold labels_of. simpl. by rewrite points_of_first_two.
Qed.

(** What the labels of a kept candidate are made of. *)
Lemma labels_of_structure (self : t) (width height : Z) (c : candidate)
    (d : Detection) (k : Keypoint) (pls : list Polyline) :
  labels_of self width height c = Ok (d, k, pls) ->
  let '(x1, y1, x2, y2, label, score, kpts) := c in
  det_label d = kp_label k
  /\ det_label d ∈ class_labels self
  /\ det_confidence d = score /\ kp_confidence k = score
  /\ det_bounding_box d = normalize_box x1 y1 x2 y2 width height
  /\ Forall2 (fun p pt => exists px py,
                p !! 0%nat = Some px /\ p !! 1%nat = Some py
                /\ pt = (px / inject_Z width, py / inject_Z height)%Q)
       kpts (kp_points k)
  /\ match edges self with
     | Some es =>
         exists pl,
           pls = [pl] /\ pl_confidence pl = score
           /\ pl_closed pl = false /\ pl_filled pl = false
           /\ Forall2 (fun e seq =>
                Forall2 (fun v pt => py_getitem (kp_points k) v = Ok pt) e seq)
                es (pl_points pl)
     | None => pls = []
     end.
Proof.
  destruct c as [[[[[[x1 y1] x2] y2] label] score] kpts].
  unfold labels_of, points_of. intros Hl.
  apply bind_Ok in Hl as (points & Hpoints & Hl).
  apply bind_Ok in Hl as (lbl & Hlbl & Hl).
  apply bind_Ok in Hl as (pls' & Hpls & [= <- <- <-]). simpl.
  split; [reflexivity|]. split; [by eapply py_getitem_elem|].
  split; [reflexivity|]. split; [reflexivity|]. split; [reflexivity|].
  split.
  - apply mapM_Ok_Forall2 in Hpoints.
    eapply Forall2_impl; [exact Hpoints|]. intros p pt Hp.
    apply bind_Ok in Hp as (px & Hpx & Hp).
    apply bind_Ok in Hp as (py & Hpy & [= <-]).
    exists px, py. split; [by apply (py_getitem_lookup p 0)|].
    split; [by apply (py_getitem_lookup p 1)|reflexivity].
  - destruct (edges self) as [es|]; [|by injection Hpls as <-].
    apply bind_Ok in Hpls as (pts & Hpts & [= <-]).
    eexists. split; [reflexivity|]. simpl.
    split; [reflexivity|]. split; [reflexivity|]. split; [reflexivity|].
    apply mapM_Ok_Forall2 in Hpts.
    eapply Forall2_impl; [exact Hpts|]. intros e seq He.
    by apply mapM_Ok_Forall2 in He.
Qed.

(** X12.  The mapping of an image holds, for each kept candidate in the
    order of the input, a detection and a keypoint with the same label
    of [class_labels] and the score as confidence, the points
    [(x/width, y/height)] of its keypoints, and with an edge list one
    open, unfilled polyline with one sequence of points for each edge,
    the points of the vertices of that edge. *)
Theorem keypoint_labels_structure
    (self : t) (o : output) (width height : Z) (m : gmap string Label) :
  parse_detections self o (width, height) = Ok m ->
  exists ys,
    m !! "detections" = Some (Detections ((fun y => y.1.1) <$> ys))
    /\ m !! "keypoints" = Some (Keypoints ((fun y => y.1.2) <$> ys))
    /\ m !! "polylines"
       = match edges self with
         | Some _ => Some (Polylines (concat ((fun y => y.2) <$> ys)))
         | None => None
         end
    /\ Forall2 (fun (c : candidate) y =>
         let '(x1, y1, x2, y2, label, score, kpts) := c in
         let '(d, k, pls) := y in
         det_label d = kp_label k
         /\ det_label d ∈ class_labels self
         /\ det_confidence d = score /\ kp_confidence k = score
         /\ Forall2 (fun p pt => exists px py,
                       p !! 0%nat = Some px /\ p !! 1%nat = Some py
                       /\ pt = (px / inject_Z width, py / inject_Z height)%Q)
              kpts (kp_points k)
         /\ match edges self with
            | Some es =>
                exists pl,
                  pls = [pl] /\ pl_confidence pl = score
                  /\ pl_closed pl = false /\ pl_filled pl = false
                  /\ Forall2 (fun e seq =>
                       Forall2 (fun v pt =>
                                  py_getitem (kp_points k) v = Ok pt) e seq)
                       es (pl_points pl)
            | None => pls = []
            end)
       (filter (fun c => skipped self c = false) (candidates o)) ys.
Proof.
  rewrite parse_detections_labels. intros Hparse.
  apply bind_Ok in Hparse as (ys & Hys & [= <-]).
  apply collect_Ok_Forall2 in Hys. exists ys. unfold label_dict.
  split; [destruct (edges self); by simplify_map_eq|].
  split; [destruct (edges self); by simplify_map_eq|].
  split; [destruct (edges self); by simplify_map_eq|].
  eapply Forall2_impl; [exact Hys|].
  intros c [[d k] pls] Hc.
  pose proof (labels_of_structure self width height c d k pls Hc) as Hs.
  destruct c as [[[[[[x1 y1] x2] y2] label] score] kpts].
  destruct Hs as (H1 & H2 & H3 & H4 & _ & H5 & H6). done.
Qed.

End KeypointStructure.

Lemma keypoint_labels_structure_witness :
  let self := KeypointDetectorOutputProcessor.Build
                ["person"]%string (Some [[0; 1]]) None in
  let o := KeypointDetectorOutputProcessor.Output
             [(0, 0, 10, 10)]%Q [0] [0.9]%Q [[[1; 2; 1]; [3; 4; 0]]]%Q in
  exists m (ys : list (Detection * Keypoint * list Polyline)),
    KeypointDetectorOutputProcessor.parse_detections self o (100, 100) = Ok m
    /\ m !! "keypoints"%string = Some (Keypoints ((fun y => y.1.2) <$> ys))
    /\ length ys = 1%nat.
Proof.
  intros self o.
  destruct (parse_detections_shape self o 100 100)
    as (m & _ & _ & Hparse & _).
  { rewrite filter_all by (intros c; reflexivity). solve_well_formed. }
  destruct (keypoint_labels_structure self o 100 100 m Hparse)
    as (ys & _ & Hk & _ & Hall).
  exists m, ys. split; [exact Hparse|]. split; [exact Hk|].
  apply Forall2_length in Hall. rewrite <- Hall.
  rewrite filter_all by (intros c; reflexivity). reflexivity.
Defined.

(** ** SegmenterOutputProcessor: the entries of a mask *)

Lemma length_omap_le {A B} (f : A -> option B) (l : list A) :
  (length (omap f l) <= length l)%nat.
Proof.
  induction l as [|x l IH]; [reflexivity|]. csimpl.
  destruct (f x); csimpl; lia.
Qed.

Section SegmenterIndices.
Import SegmenterOutputProcessor.

(** X14.  A mask has the shape of the first class plane of its image,
    and each of its entries is a class index from 0 to [M - 1], for the
    [M] class planes of the image; the class labels play no part, so
    that an index can be beyond them. *)
Theorem segmenter_mask_indices
    (self : t) (output : output) (frame_size : Z * Z)
    (segs : list Segmentation) :
  call self output frame_size = Ok segs ->
  length segs = length (out output)
  /\ forall i img seg,
       out output !! i = Some img -> segs !! i = Some seg ->
       (exists plane,
          img !! 0%nat = Some plane
          /\ Forall2 (fun row mrow => length mrow = length row)
               plane (seg_mask seg))
       /\ forall h w k,
            at2 (seg_mask seg) h w = Some k ->
            0 <= k < Z.of_nat (length img).
Proof.
  unfold call. intros Hcall.
  apply bind_Ok in Hcall as (masks & Hmasks & [= <-]).
  split; [rewrite length_fmap; by apply mapM_Ok_length in Hmasks|].
  intros i img seg Himg Hseg.
  rewrite list_lookup_fmap in Hseg.
  destruct (masks !! i) as [mask|] eqn:Hmask; [|discriminate].
  injection Hseg as <-. simpl.
  apply mapM_Ok_Forall2 in Hmasks.
  pose proof (Forall2_lookup_lr _ _ _ _ _ _ Hmasks Himg Hmask) as Hm.
  cbv beta in Hm. destruct img as [|plane rest]; [discriminate|].
  rewrite argmax_classes_cons in Hm. injection Hm as <-. split.
  - exists plane. split; [reflexivity|].
    apply Forall2_same_length_lookup. split; [by rewrite length_imap|].
    intros h row mrow Hrow Hmrow. rewrite list_lookup_imap, Hrow in Hmrow.
    injection Hmrow as <-. by rewrite length_imap.
  - intros h w k Hk.
    rewrite (at2_imap_imap
               (fun h w => argmax_list (pixel_scores (plane :: rest) h w)))
      in Hk.
    destruct (at2 plane h w) as [v|] eqn:Hv; [|discriminate].
    injection Hk as <-.
    destruct (argmax_list_first_max (pixel_scores (plane :: rest) h w))
      as (m & v' & Hk & Hm & _).
    { by rewrite (pixel_scores_cons _ _ _ _ _ Hv). }
    change (0 <= argmax_list (pixel_scores (plane :: rest) h w)
            < Z.of_nat (length (plane :: rest))).
    rewrite Hk.
    apply lookup_lt_Some in Hm.
    pose proof (length_omap_le (fun p : list (list Q) => at2 p h w)
                  (plane :: rest)) as Hle.
    unfold pixel_scores in Hm. lia.
Qed.

End SegmenterIndices.

Lemma segmenter_mask_indices_witness :
  let self := SegmenterOutputProcessor.Build ["sky"]%string in
  let output := SegmenterOutputProcessor.Output
                  [[[[0.9; 0.2]]; [[0.1; 0.8]]; [[0.3; 0.95]]]]%Q in
  let segs := [mkSegmentation [[0; 2]]] in
  SegmenterOutputProcessor.call self output (2, 1) = Ok segs
  /\ forall h w k, at2 [[0; 2]] h w = Some k -> 0 <= k < 3.
Proof.
  intros self output segs.
  assert (Hcall : SegmenterOutputProcessor.call self output (2, 1) = Ok segs)
    by (vm_compute; reflexivity).
  split; [exact Hcall|].
  destruct (segmenter_mask_indices self output (2, 1) segs Hcall)
    as [_ Hall].
  exact (proj2 (Hall 0%nat _ (mkSegmentation [[0; 2]]) eq_refl eq_refl)).
Defined.

(** ** The datasets *)

Lemma py_getitem_wrap {A} (l : list A) (i : Z) :
  - Z.of_nat (length l) <= i < 0 ->
  py_getitem l i = py_getitem l (Z.of_nat (length l) + i).
Proof.
  intros Hi.
  destruct (py_getitem_negative l i Hi) as (a & Ha & ->).
  destruct (py_getitem_nonneg l (Z.of_nat (length l) + i)) as (b & Hb & ->);
    [lia|].
  congruence.
Qed.

Section DatasetProperties.
Variable image : Type.
Variable Image_open : string -> result image.
Variable convert_RGB : image -> image.
Variable extract_patch : image -> Detection -> bool -> result image.
Variable torch_stack : list image -> result image.

(** X15.  An index that is not an index of [image_paths] makes each of
    the three [__getitem__] raise [IndexError], and this before any
    image is opened: the outcome is the same whatever opening an image
    would do. *)
Theorem datasets_getitem_out_of_range :
  (forall (self : TorchImageDataset image) idx,
     out_of_range (Z.of_nat (length (tid_image_paths image self))) idx ->
     TorchImageDataset_getitem image Image_open convert_RGB self idx
     = Raise IndexError)
  /\ (forall T (self : TorchImageClassificationDataset image T) idx,
        out_of_range (Z.of_nat (length (ticd_image_paths image T self))) idx ->
        TorchImageClassificationDataset_getitem image Image_open convert_RGB
          self idx = Raise IndexError)
  /\ (forall (self : TorchImagePatchesDataset image) idx,
        out_of_range (Z.of_nat (length (tipd_image_paths image self))) idx ->
        TorchImagePatchesDataset_getitem image Image_open convert_RGB
          extract_patch torch_stack self idx = Raise IndexError).
Proof.
  split; [|split]; intros; unfold TorchImageDataset_getitem,
    TorchImageClassificationDataset_getitem, TorchImagePatchesDataset_getitem;
    match goal with
    | H : out_of_range _ _ |- _ =>
        rewrite (py_getitem_out_of_range _ _ H); reflexivity
    end.
Qed.

(** X16.  A negative index counts from the end: with as many sample ids
    as image paths (or with none), item [-k] of a [TorchImageDataset] is
    item [len - k]. *)
Theorem TorchImageDataset_getitem_negative
    (self : TorchImageDataset image) (idx : Z) :
  match tid_sample_ids image self with
  | Some ids => length ids = length (tid_image_paths image self)
  | None => True
  end ->
  - TorchImageDataset_len image self <= idx < 0 ->
  TorchImageDataset_getitem image Image_open convert_RGB self idx
  = TorchImageDataset_getitem image Image_open convert_RGB self
      (TorchImageDataset_len image self + idx).
Proof.
  unfold TorchImageDataset_len, TorchImageDataset_getitem, with_sample_id.
  intros Hids Hidx. rewrite (py_getitem_wrap (tid_image_paths image self)) by lia.
  destruct (tid_sample_ids image self) as [ids|]; [|reflexivity].
  rewrite (py_getitem_wrap ids) by lia. by rewrite Hids.
Qed.

(** X17.  An item of a [TorchImageClassificationDataset] at an index
    that is not negative puts together what stands at that index: the
    image opened from the path at the index, converted and transformed
    as configured, the target at the index and, when sample ids were
    given, the id at the index. *)
Theorem TorchImageClassificationDataset_getitem_aligned {T}
    (image_paths : list string) (targets : list T)
    (sample_ids : option (list string))
    (transform : option (image -> result image)) (force_rgb : bool)
    (i : nat) (item : image) (target : T) (oid : option string) :
  TorchImageClassificationDataset_getitem image Image_open convert_RGB
    (TorchImageClassificationDataset_init image image_paths targets sample_ids
       transform force_rgb) (Z.of_nat i)
  = Ok (item, target, oid) ->
  targets !! i = Some target
  /\ (exists path img,
        image_paths !! i = Some path /\ Image_open path = Ok img
        /\ match transform with
           | Some f => f (if force_rgb then convert_RGB img else img)
           | None => Ok (if force_rgb then convert_RGB img else img)
           end = Ok item)
  /\ match sample_ids with
     | Some (id0 :: ids) => exists id, oid = Some id
                                       /\ (id0 :: ids) !! i = Some id
     | _ => oid = None
     end.
Proof.
  unfold TorchImageClassificationDataset_getitem,
    TorchImageClassificationDataset_init. cbn [ticd_image_paths ticd_targets
    ticd_sample_ids ticd_transform ticd_force_rgb].
  intros Hget.
  apply bind_Ok in Hget as (path & Hpath & Hget).
  apply bind_Ok in Hget as (img & Himg & Hget).
  apply bind_Ok in Hget as (tg & Htg & Hget).
  apply bind_Ok in Hget as (it & Hit & Hget).
  apply py_getitem_lookup in Hpath, Htg; try lia.
  rewrite Nat2Z.id in Hpath, Htg.
  assert (Hitem : it = item /\ tg = target
            /\ match sample_ids with
               | Some (id0 :: ids) =>
                   exists id, oid = Some id /\ (id0 :: ids) !! i = Some id
               | _ => oid = None
               end).
  { unfold with_sample_id, ids_or_none in Hget.
    destruct sample_ids as [[|id0 ids]|]; try (by injection Hget as <- <- <-).
    apply bind_Ok in Hget as (id & Hid & [= <- <- <-]).
    apply py_getitem_lookup in Hid; [|lia]. rewrite Nat2Z.id in Hid.
    split; [done|]. split; [done|]. by exists id. }
  destruct Hitem as (<- & <- & Hoid).
  split; [exact Htg|]. split; [by exists path, img|exact Hoid].
Qed.



(** X19.  The dataset of [_make_data_loader] has one item for each
    file path and no sample ids: item [i] is the image at path [i],
    converted when [force_rgb] is set, then transformed, and nothing
    else. *)
Theorem make_data_loader_dataset_items
    (filepaths : list string) (transforms : image -> result image)
    (force_rgb : bool) (i : nat) (path : string) :
  filepaths !! i = Some path ->
  TorchImageDataset_len image
    (make_data_loader_dataset image filepaths transforms force_rgb)
  = Z.of_nat (length filepaths)
  /\ TorchImageDataset_getitem image Image_open convert_RGB
       (make_data_loader_dataset image filepaths transforms force_rgb)
       (Z.of_nat i)
     = (img ← Image_open path;
        item ← transforms (if force_rgb then convert_RGB img else img);
        Ok (item, None)).
Proof.
  intros Hpath. split; [reflexivity|].
  unfold TorchImageDataset_getitem, make_data_loader_dataset,
    TorchImageDataset_init. simpl.
  destruct (py_getitem_nonneg filepaths (Z.of_nat i)) as (p & Hp & ->).
  { apply lookup_lt_Some in Hpath. lia. }
  rewrite Nat2Z.id, Hpath in Hp. injection Hp as <-. reflexivity.
Qed.

End DatasetProperties.

Lemma datasets_getitem_out_of_range_witness :
  let self := TorchImageDataset_init string ["a.jpg"; "b.jpg"]%string
                (Some ["id-a"; "id-b"]%string) None false in
  out_of_range (Z.of_nat (length (tid_image_paths string self))) 2
  /\ TorchImageDataset_getitem string (fun p => Ok p) (fun img => img) self 2
     = Raise IndexError.
Proof.
  intros self.
  assert (Hout : out_of_range
                   (Z.of_nat (length (tid_image_paths string self))) 2)
    by (right; vm_compute; intro; discriminate).
  split; [exact Hout|].
  exact (proj1 (datasets_getitem_out_of_range string (fun p => Ok p)
                  (fun img => img) (fun img _ _ => Ok img)
                  (fun l => Ok (str_join "+" l))) self 2 Hout).
Defined.

Lemma TorchImageDataset_getitem_negative_witness :
  let self := TorchImageDataset_init string ["a.jpg"; "b.jpg"; "c.jpg"]%string
                (Some ["id-a"; "id-b"; "id-c"]%string) None false in
  length ["id-a"; "id-b"; "id-c"]%string
  = length (tid_image_paths string self)
  /\ - TorchImageDataset_len string self <= -1 < 0
  /\ TorchImageDataset_getitem string (fun p => Ok p) (fun img => img) self (-1)
     = Ok ("c.jpg"%string, Some "id-c"%string).
Proof.
  intros self.
  assert (Hidx : - TorchImageDataset_len string self <= -1 < 0)
    by (vm_compute; split; [intro; discriminate|reflexivity]).
  split; [reflexivity|]. split; [exact Hidx|].
  rewrite (TorchImageDataset_getitem_negative string (fun p => Ok p)
             (fun img => img) self (-1)); [reflexivity|reflexivity|exact Hidx].
Defined.

Lemma TorchImageClassificationDataset_getitem_aligned_witness :
  let self := TorchImageClassificationDataset_init string
                ["a.jpg"; "b.jpg"]%string [7; 9]
                (Some ["id-a"; "id-b"]%string) None false in
  TorchImageClassificationDataset_getitem string (fun p => Ok p)
    (fun img => img) self (Z.of_nat 1)
  = Ok ("b.jpg"%string, 9, Some "id-b"%string)
  /\ [7; 9] !! 1%nat = Some 9.
Proof.
  intros self.
  assert (Hget : TorchImageClassificationDataset_getitem string (fun p => Ok p)
                   (fun img => img) self (Z.of_nat 1)
                 = Ok ("b.jpg"%string, 9, Some "id-b"%string)) by reflexivity.
  split; [exact Hget|].
  exact (proj1 (TorchImageClassificationDataset_getitem_aligned string
                  (fun p => Ok p) (fun img => img) _ _ _ _ _ _ _ _ _ Hget)).
Defined.


Lemma make_data_loader_dataset_items_witness :
  ["a.jpg"; "b.jpg"]%string !! 1%nat = Some "b.jpg"%string
  /\ TorchImageDataset_getitem string (fun p => Ok p)
       (fun img => String.append "rgb:" img)
       (make_data_loader_dataset string ["a.jpg"; "b.jpg"]%string
          (fun img => Ok (String.append "tensor:" img)) true)
       (Z.of_nat 1)
     = Ok ("tensor:rgb:b.jpg"%string, None).
Proof.
  split; [reflexivity|].
  rewrite (proj2 (make_data_loader_dataset_items string (fun p => Ok p)
                    (fun img => String.append "rgb:" img)
                    ["a.jpg"; "b.jpg"]%string
                    (fun img => Ok (String.append "tensor:" img)) true
                    1%nat "b.jpg"%string eq_refl)).
  reflexivity.
Defined.
